(** * United-Perception: the SFNet segmentation decoder, the weight
    initialisers and the [to_adela] sub-command.

    The development follows three source files:
    - [eod/tasks/seg/models/decoder/sfnet.py]  (module [Sfnet]),
    - [up/utils/model/initializer.py]          (module [Initializer]),
    - [up/commands/to_adela.py]                (module [ToAdelaCmd]).

    Tensors are modelled by the computation graph that produced them
    ([texp]) together with PyTorch's shape rules ([shape_of]); an operator
    that PyTorch rejects (channel mismatch, incompatible broadcast, ...)
    yields [None].  The index arithmetic of [flow_warp] is given an
    element-wise semantics over an abstract scalar type. *)

From Stdlib Require Import ZArith QArith.
From stdpp Require Import base option list strings gmap fin_maps.

Set Warnings "-register-all".
Open Scope string_scope.
Open Scope nat_scope.
Open Scope list_scope.

(** ** Module paths: the names PyTorch gives to sub-modules *)

Inductive seg :=
| Attr (name : string)
| Idx (i : nat).

Definition path := list seg.

Module Sfnet.

(** ** Layers *)

(** [nn.Conv2d(in_channels, out_channels, kernel_size, stride, padding,
    dilation, bias)]; [groups] is always 1 in this file. *)
Record Conv2d := mkConv2d {
  conv_path : path;
  in_channels : nat;
  out_channels : nat;
  kernel_size : nat;
  stride : nat;
  padding : nat;
  dilation : nat;
  conv_bias : bool
}.

(** The normalisation layer returned by [build_norm_layer(c, normalize)[1]]. *)
Record Norm := mkNorm {
  norm_path : path;
  num_features : nat
}.

Definition shape := list nat.

(** ** Tensors as computation graphs *)

Inductive texp :=
| TInput (name : string) (s : shape)
| TConv (c : Conv2d) (x : texp)
| TNorm (b : Norm) (x : texp)
| TReLU (x : texp)
| TDropout2d (x : texp)
| TAdaptiveAvgPool2d (oh ow : nat) (x : texp)
| TInterp (oh ow : nat) (x : texp)
| TCat (dim : nat) (xs : list texp)
| TAdd (x y : texp)
| TDiv (x y : texp)
| TGridSample (input grid : texp)
| TLinspace (steps : nat)
| TLiteral4 (vals : list nat)
| TViewCol (x : texp)
| TRepeat (reps : list nat) (x : texp)
| TUnsqueeze (dim : nat) (x : texp)
| TPermute (perm : list nat) (x : texp).

(** ** Shape rules *)

(** Output extent of a convolution along one axis:
    [floor((i + 2p - d(k-1) - 1) / s) + 1]. *)
Definition conv_out_size (i k s p d : nat) : option nat :=
  if (0 <? k) && (0 <? s) && (d * (k - 1) + 1 <=? i + 2 * p)
  then Some ((i + 2 * p - d * (k - 1) - 1) / s + 1)
  else None.

(** The convolution raises on a weight without output channels (fewer
    than [groups = 1]), and on an input whose channels are not
    [in_channels]. *)
Definition conv2d_shape (c : Conv2d) (s : shape) : option shape :=
  match s with
  | [n; ch; h; w] =>
      if (ch =? in_channels c) && (0 <? out_channels c) then
        h' ← conv_out_size h (kernel_size c) (stride c) (padding c) (dilation c);
        w' ← conv_out_size w (kernel_size c) (stride c) (padding c) (dilation c);
        Some [n; out_channels c; h'; w']
      else None
  | _ => None
  end.

(** Modelled from the spec: [build_norm_layer] is not part of the sources at
    hand; the spec speaks of "normalization layers", which keep the shape of
    a [(batch, channels, height, width)] tensor with the declared channels. *)
Definition norm_shape (b : Norm) (s : shape) : option shape :=
  match s with
  | [n; ch; h; w] => if ch =? num_features b then Some s else None
  | _ => None
  end.

Definition pool_shape (oh ow : nat) (s : shape) : option shape :=
  match s with
  | [n; ch; h; w] => if (0 <? h) && (0 <? w) then Some [n; ch; oh; ow] else None
  | _ => None
  end.

(** Bilinear [F.upsample] / [F.interpolate] to an explicit size. *)
Definition interp_shape (oh ow : nat) (s : shape) : option shape :=
  match s with
  | [n; ch; h; w] =>
      if (0 <? h) && (0 <? w) && (0 <? oh) && (0 <? ow)
      then Some [n; ch; oh; ow] else None
  | _ => None
  end.

(** [torch.cat(xs, dim)]: equal extents everywhere but along [dim] (the
    legacy rule that skips one-dimensional empty tensors is left out). *)
Definition same_except (dim : nat) (s1 s2 : shape) : bool :=
  (length s1 =? length s2) &&
  forallb (fun k => (k =? dim) || (s1 !!! k =? s2 !!! k)) (seq 0 (length s1)).

Definition cat_shape (dim : nat) (ss : list shape) : option shape :=
  match ss with
  | [] => None
  | s0 :: rest =>
      if (dim <? length s0) && forallb (same_except dim s0) rest
      then Some (<[dim := foldr (fun s acc => s !!! dim + acc) 0 ss]> s0)
      else None
  end.

(** Broadcasting of two extents, and of two shapes aligned on the right. *)
Definition bdim (a b : nat) : option nat :=
  if a =? b then Some a
  else if a =? 1 then Some b
  else if b =? 1 then Some a
  else None.

Fixpoint broadcast_rev (r1 r2 : shape) : option shape :=
  match r1, r2 with
  | [], _ => Some r2
  | _, [] => Some r1
  | a :: r1', b :: r2' =>
      d ← bdim a b; r ← broadcast_rev r1' r2'; Some (d :: r)
  end.

Definition broadcast (s1 s2 : shape) : option shape :=
  r ← broadcast_rev (rev s1) (rev s2); Some (rev r).

Definition grid_sample_shape (si sg : shape) : option shape :=
  match si, sg with
  | [n; ch; h; w], [n'; oh; ow; two] =>
      if (n =? n') && (two =? 2) && (0 <? h) && (0 <? w)
      then Some [n; ch; oh; ow] else None
  | _, _ => None
  end.

(** [x.repeat(r1, ..., rk)]: the shape is padded with leading ones. *)
Definition pad_shape (k : nat) (s : shape) : shape :=
  replicate (k - length s) 1 ++ s.

Definition repeat_shape (reps : list nat) (s : shape) : option shape :=
  if length s <=? length reps
  then Some (zip_with Nat.mul reps (pad_shape (length reps) s))
  else None.

Definition unsqueeze_shape (dim : nat) (s : shape) : option shape :=
  if dim <=? length s then Some (take dim s ++ 1 :: drop dim s) else None.

Definition is_perm (perm : list nat) : bool :=
  forallb (fun k => existsb (Nat.eqb k) perm) (seq 0 (length perm)).

Definition permute_shape (perm : list nat) (s : shape) : option shape :=
  if (length perm =? length s) && is_perm perm
  then Some (map (fun k => s !!! k) perm)
  else None.

Definition numel (s : shape) : nat := foldr Nat.mul 1 s.

Fixpoint shape_of (t : texp) : option shape :=
  match t with
  | TInput _ s => Some s
  | TConv c x => s ← shape_of x; conv2d_shape c s
  | TNorm b x => s ← shape_of x; norm_shape b s
  | TReLU x => shape_of x
  | TDropout2d x => shape_of x
  | TAdaptiveAvgPool2d oh ow x => s ← shape_of x; pool_shape oh ow s
  | TInterp oh ow x => s ← shape_of x; interp_shape oh ow s
  | TCat dim xs =>
      ss ← (fix shapes (l : list texp) : option (list shape) :=
              match l with
              | [] => Some []
              | x :: l' => s ← shape_of x; r ← shapes l'; Some (s :: r)
              end) xs;
      cat_shape dim ss
  | TAdd x y => s1 ← shape_of x; s2 ← shape_of y; broadcast s1 s2
  | TDiv x y => s1 ← shape_of x; s2 ← shape_of y; broadcast s1 s2
  | TGridSample input grid =>
      si ← shape_of input; sg ← shape_of grid; grid_sample_shape si sg
  | TLinspace steps => Some [steps]
  | TLiteral4 vals => Some [1; 1; 1; length vals]
  | TViewCol x => s ← shape_of x; Some [numel s; 1]
  | TRepeat reps x => s ← shape_of x; repeat_shape reps s
  | TUnsqueeze dim x => s ← shape_of x; unsqueeze_shape dim s
  | TPermute perm x => s ← shape_of x; permute_shape perm s
  end.

(** PyTorch is eager: an operator raises as soon as it is applied to
    operands it rejects.  [op t] is the tensor [t] if PyTorch builds it. *)
Definition op (t : texp) : option texp :=
  match shape_of t with
  | Some _ => Some t
  | None => None
  end.

(** [h, w = x.size()[2:]] : unpacking needs exactly two trailing extents. *)
Definition size_2 (t : texp) : option (nat * nat) :=
  s ← shape_of t;
  match drop 2 s with
  | [h; w] => Some (h, w)
  | _ => None
  end.

(** [n, c, h, w = x.size()] *)
Definition size_4 (t : texp) : option (nat * nat * nat * nat) :=
  s ← shape_of t;
  match s with
  | [n; c; h; w] => Some (n, c, h, w)
  | _ => None
  end.

(** [x.size(k)] *)
Definition size_at (t : texp) (k : nat) : option nat :=
  s ← shape_of t; s !! k.

(** ** AlignedModule *)

Module AlignedModule.

Record t := mk {
  down_h : Conv2d;
  down_l : Conv2d;
  flow_make : Conv2d
}.

(** [__init__(self, inplane, outplane, kernel_size=3)] *)
Definition init (p : path) (inplane outplane : nat) (kernel_size : nat) : t :=
  {| down_h := mkConv2d (p ++ [Attr "down_h"]) inplane outplane 1 1 0 1 false;
     down_l := mkConv2d (p ++ [Attr "down_l"]) inplane outplane 1 1 0 1 false;
     flow_make :=
       mkConv2d (p ++ [Attr "flow_make"]) (outplane * 2) 2 kernel_size 1 1 1 false |}.

Definition default_kernel_size : nat := 3.

(** The sampling grid of [flow_warp] (lines 36-44 of the source).  The
    conversions [type_as(input)] and [to(input.device)] change neither shape
    nor position of an element and are left out. *)
Definition flow_warp_grid (input flow : texp) (size : nat * nat) : option texp :=
  let '(out_h, out_w) := size in
  '(n, c, h, w) ← size_4 input;
  let norm := TLiteral4 [out_w; out_h] in
  w ← (v ← op (TViewCol (TLinspace out_h)); op (TRepeat [1; out_w] v));
  h ← op (TRepeat [out_h; 1] (TLinspace out_w));
  hu ← op (TUnsqueeze 2 h);
  wu ← op (TUnsqueeze 2 w);
  grid ← op (TCat 2 [hu; wu]);
  grid ← op (TRepeat [n; 1; 1; 1] grid);
  fp ← op (TPermute [0; 2; 3; 1] flow);
  q ← op (TDiv fp norm);
  op (TAdd grid q).

Definition flow_warp (input flow : texp) (size : nat * nat) : option texp :=
  grid ← flow_warp_grid input flow size;
  op (TGridSample input grid).

(** The flow field of [forward] (lines 23-30 of the source). *)
Definition forward_flow (m : t) (low_feature h_feature : texp)
  : option (texp * (nat * nat)) :=
  size ← size_2 low_feature;
  let '(h, w) := size in
  low_feature ← op (TConv (down_l m) low_feature);
  h_feature ← op (TConv (down_h m) h_feature);
  h_feature ← op (TInterp h w h_feature);
  c ← op (TCat 1 [h_feature; low_feature]);
  flow ← op (TConv (flow_make m) c);
  Some (flow, size).

Definition forward (m : t) (x : texp * texp) : option texp :=
  let '(low_feature, h_feature) := x in
  let h_feature_orign := h_feature in
  '(flow, size) ← forward_flow m low_feature h_feature;
  flow_warp h_feature_orign flow size.

(** The graphs these functions build on well-shaped operands: the base
    grid ([x] coordinate first), the sampling grid, and the flow field. *)
Definition base_grid (n out_h out_w : nat) : texp :=
  TRepeat [n; 1; 1; 1]
    (TCat 2 [TUnsqueeze 2 (TRepeat [out_h; 1] (TLinspace out_w));
             TUnsqueeze 2 (TRepeat [1; out_w] (TViewCol (TLinspace out_h)))]).

Definition sampling_grid (n out_h out_w : nat) (flow : texp) : texp :=
  TAdd (base_grid n out_h out_w)
       (TDiv (TPermute [0; 2; 3; 1] flow) (TLiteral4 [out_w; out_h])).

Definition flow_field (m : t) (low_feature h_feature : texp) (h w : nat) : texp :=
  TConv (flow_make m)
        (TCat 1 [TInterp h w (TConv (down_h m) h_feature);
                 TConv (down_l m) low_feature]).

(** The operand that a grid-sample node resamples. *)
Definition warped_operand (t : texp) : option texp :=
  match t with
  | TGridSample input _ => Some input
  | _ => None
  end.

(** "The warp is applied to the upsampled coarse feature": the operand of
    the grid sample is an interpolation to the size of [low_feature]. *)
Definition warps_upsampled_coarse (m : t) (low_feature h_feature : texp) : Prop :=
  exists out h w x,
    forward m (low_feature, h_feature) = Some out
    /\ size_2 low_feature = Some (h, w)
    /\ warped_operand out = Some (TInterp h w x).

End AlignedModule.

(** ** Element-wise semantics of the index arithmetic

    Scalars are abstract: [radd] and [rdiv] are the tensor addition and
    division of the runtime, [rofnat] the conversion done by [type_as], and
    [linspace_at steps i] is element [i] of [torch.linspace(-1.0, 1.0, steps)].
    The value of a learned or sampled node (convolution, interpolation,
    grid sample, an input, ...) is supplied by [oracle]. *)

Section Values.
Context {R : Type}.
Variables (radd rdiv : R -> R -> R) (rofnat : nat -> R).
Variable linspace_at : nat -> nat -> R.
Variable oracle : texp -> list nat -> R.

Definition shape_or_nil (t : texp) : shape := default [] (shape_of t).

(** Row-major multi-index of flat position [i] in a tensor of shape [s]. *)
Fixpoint unravel (s : shape) (i : nat) : list nat :=
  match s with
  | [] => []
  | d :: ds => (i / numel ds) :: unravel ds (i mod numel ds)
  end.

(** Index into an operand of a broadcast operation. *)
Definition bidx (s : shape) (idx : list nat) : list nat :=
  zip_with (fun d i => if d =? 1 then 0 else i) s
           (drop (length idx - length s) idx).

Fixpoint index_of (j : nat) (l : list nat) : nat :=
  match l with
  | [] => 0
  | k :: l' => if k =? j then 0 else S (index_of j l')
  end.

Fixpoint eval (t : texp) (idx : list nat) : R :=
  match t with
  | TLinspace steps => linspace_at steps (idx !!! 0)
  | TLiteral4 vals => rofnat (vals !!! (idx !!! 3))
  | TViewCol x => eval x (unravel (shape_or_nil x) (idx !!! 0))
  | TRepeat reps x =>
      let s := shape_or_nil x in
      eval x (drop (length reps - length s)
                   (zip_with Nat.modulo idx (pad_shape (length reps) s)))
  | TUnsqueeze dim x => eval x (delete dim idx)
  | TCat dim xs =>
      (fix pick (l : list texp) (i : nat) : R :=
         match l with
         | [] => oracle t idx
         | x :: l' =>
             let d := shape_or_nil x !!! dim in
             if i <? d then eval x (<[dim := i]> idx) else pick l' (i - d)
         end) xs (idx !!! dim)
  | TPermute perm x =>
      eval x (map (fun j => idx !!! index_of j perm) (seq 0 (length perm)))
  | TAdd x y =>
      radd (eval x (bidx (shape_or_nil x) idx)) (eval y (bidx (shape_or_nil y) idx))
  | TDiv x y =>
      rdiv (eval x (bidx (shape_or_nil x) idx)) (eval y (bidx (shape_or_nil y) idx))
  | _ => oracle t idx
  end.
End Values.

(** ** PSPModule *)

Module PSPModule.

(** One [nn.Sequential(prior, conv, bn)] built by [_make_stage]. *)
Record stage := mkStage {
  prior : nat;
  conv : Conv2d;
  bn : Norm
}.

Record t := mk {
  stages : list stage;
  bottleneck_conv : Conv2d;
  bottleneck_bn : Norm;
  out_planes : nat
}.

Definition _make_stage (p : path) (inplanes out_planes size : nat) : stage :=
  {| prior := size;
     conv := mkConv2d (p ++ [Idx 1]) inplanes out_planes 1 1 0 1 false;
     bn := mkNorm (p ++ [Idx 2]) out_planes |}.

Definition default_sizes : list nat := [1; 2; 3; 6].

(** [__init__(self, inplanes, out_planes=512, sizes=(1, 2, 3, 6), normalize)] *)
Definition init (p : path) (inplanes out_planes : nat) (sizes : list nat) : t :=
  {| stages :=
       imap (fun i size =>
               _make_stage (p ++ [Attr "stages"; Idx i]) inplanes out_planes size)
            sizes;
     bottleneck_conv :=
       mkConv2d (p ++ [Attr "bottleneck"; Idx 0])
                (inplanes + length sizes * out_planes) out_planes 1 1 1 1 false;
     bottleneck_bn := mkNorm (p ++ [Attr "bottleneck"; Idx 1]) out_planes;
     out_planes := out_planes |}.

Definition run_stage (st : stage) (feats : texp) : option texp :=
  x ← op (TAdaptiveAvgPool2d (prior st) (prior st) feats);
  x ← op (TConv (conv st) x);
  op (TNorm (bn st) x).

(** The list [priors] of [forward]: one upsampled branch per stage, then
    the input itself. *)
Definition priors (m : t) (feats : texp) : option (list texp) :=
  h ← size_at feats 2;
  w ← size_at feats 3;
  branches ← mapM (fun st => x ← run_stage st feats; op (TInterp h w x)) (stages m);
  Some (branches ++ [feats]).

Definition bottleneck (m : t) (x : texp) : option texp :=
  x ← op (TConv (bottleneck_conv m) x);
  x ← op (TNorm (bottleneck_bn m) x);
  x ← op (TReLU x);
  op (TDropout2d x).

Definition forward (m : t) (feats : texp) : option texp :=
  ps ← priors m feats;
  c ← op (TCat 1 ps);
  bottleneck m c.

Definition get_outplanes (m : t) : nat := out_planes m.

(** The graphs [forward] builds on a well-shaped input: the branch of one
    pooling stage upsampled back to [(h, w)], and the output. *)
Definition branch (feats : texp) (h w : nat) (st : stage) : texp :=
  TInterp h w
    (TNorm (bn st)
       (TConv (conv st) (TAdaptiveAvgPool2d (prior st) (prior st) feats))).

Definition output (m : t) (feats : texp) (h w : nat) : texp :=
  TDropout2d (TReLU (TNorm (bottleneck_bn m)
    (TConv (bottleneck_conv m) (TCat 1 (map (branch feats h w) (stages m) ++ [feats]))))).

End PSPModule.

(** ** ConvBnRelu *)

Module ConvBnRelu.

Record t := mk {
  conv : Conv2d;
  bn : option Norm;      (* present when [has_bn] *)
  has_relu : bool
}.

Definition init (p : path) (in_planes out_planes ksize stride pad dilation : nat)
    (has_bn has_relu has_bias : bool) : t :=
  {| conv := mkConv2d (p ++ [Attr "conv"]) in_planes out_planes ksize stride pad
                      dilation has_bias;
     bn := if has_bn then Some (mkNorm (p ++ [Attr "bn"]) out_planes) else None;
     has_relu := has_relu |}.

(** [ConvBnRelu(in_planes, out_planes, ksize)] with the defaults
    [stride=1, pad=0, dilation=1, has_bn=True, has_relu=True, has_bias=False]. *)
Definition init_default (p : path) (in_planes out_planes ksize : nat) : t :=
  init p in_planes out_planes ksize 1 0 1 true true false.

Definition forward (m : t) (x : texp) : option texp :=
  x ← op (TConv (conv m) x);
  x ← match bn m with Some b => op (TNorm b x) | None => Some x end;
  if has_relu m then op (TReLU x) else Some x.

End ConvBnRelu.

(** ** AlignHead *)

Module AlignHead.

Record t := mk {
  ppm : PSPModule.t;
  fpn_in : list (Conv2d * Norm);
  fpn_out : list ConvBnRelu.t;
  fpn_out_align : list AlignedModule.t;
  conv_last : ConvBnRelu.t * Conv2d
}.

(** [__init__(self, inplane, num_class, normalize, fpn_inplanes, fpn_dim)] *)
Definition init (p : path) (inplane num_class : nat) (fpn_inplanes : list nat)
    (fpn_dim : nat) : t :=
  {| ppm := PSPModule.init (p ++ [Attr "ppm"]) inplane fpn_dim PSPModule.default_sizes;
     fpn_in :=
       imap (fun i fpn_inplane =>
               (mkConv2d (p ++ [Attr "fpn_in"; Idx i; Idx 0]) fpn_inplane fpn_dim
                         1 1 0 1 true,
                mkNorm (p ++ [Attr "fpn_in"; Idx i; Idx 1]) fpn_dim))
            (removelast fpn_inplanes);
     fpn_out :=
       map (fun i => ConvBnRelu.init_default (p ++ [Attr "fpn_out"; Idx i; Idx 0])
                                             fpn_dim fpn_dim 1)
           (seq 0 (length fpn_inplanes - 1));
     fpn_out_align :=
       map (fun i => AlignedModule.init (p ++ [Attr "fpn_out_align"; Idx i]) fpn_dim
                                        (fpn_dim / 2) AlignedModule.default_kernel_size)
           (seq 0 (length fpn_inplanes - 1));
     conv_last :=
       (ConvBnRelu.init_default (p ++ [Attr "conv_last"; Idx 0])
                                (length fpn_inplanes * fpn_dim) fpn_dim 1,
        mkConv2d (p ++ [Attr "conv_last"; Idx 1]) fpn_dim num_class 1 1 0 1 true) |}.

(** [self.fpn_in[i]]: convolution, normalisation, ReLU. *)
Definition lateral (l : Conv2d * Norm) (x : texp) : option texp :=
  x ← op (TConv l.1 x);
  x ← op (TNorm l.2 x);
  op (TReLU x).

(** The body of the [for i in reversed(range(len(conv_out) - 1))] loop on
    [conv_x = conv_out[i]] and the running feature [f]: the new [f] and the
    feature appended to [fpn_feature_list]. *)
Definition level (m : t) (i : nat) (conv_x f : texp) : option (texp * texp) :=
  l ← fpn_in m !! i;
  conv_x ← lateral l conv_x;
  al ← fpn_out_align m !! i;
  f ← AlignedModule.forward al (conv_x, f);
  f ← op (TAdd conv_x f);
  fo ← fpn_out m !! i;
  o ← ConvBnRelu.forward fo f;
  Some (f, o).

(** One iteration; the state is [(f, fpn_feature_list)]. *)
Definition level_step (m : t) (conv_out : list texp) (i : nat)
    (st : texp * list texp) : option (texp * list texp) :=
  let '(f, fpn_feature_list) := st in
  conv_x ← conv_out !! i;
  '(f, o) ← level m i conv_x f;
  Some (f, fpn_feature_list ++ [o]).

Fixpoint top_down (m : t) (conv_out : list texp) (idxs : list nat)
    (st : texp * list texp) : option (texp * list texp) :=
  match idxs with
  | [] => Some st
  | i :: idxs' => st' ← level_step m conv_out i st; top_down m conv_out idxs' st'
  end.

(** Lines 158-168: interpolation to the size of the first feature,
    concatenation and the classifier. *)
Definition fuse (m : t) (fpn_feature_list : list texp) : option texp :=
  first ← fpn_feature_list !! 0;
  '(oh, ow) ← size_2 first;
  rest ← mapM (fun x => op (TInterp oh ow x)) (drop 1 fpn_feature_list);
  fusion_out ← op (TCat 1 (first :: rest));
  x ← ConvBnRelu.forward (conv_last m).1 fusion_out;
  op (TConv (conv_last m).2 x).

Definition forward (m : t) (conv_out : list texp) : option texp :=
  coarsest ← last conv_out;
  psp_out ← PSPModule.forward (ppm m) coarsest;
  '(f, fpn_feature_list) ←
     top_down m conv_out (rev (seq 0 (length conv_out - 1))) (psp_out, [psp_out]);
  let fpn_feature_list := rev fpn_feature_list in
  fuse m fpn_feature_list.

(** The same pyramid described level by level, finest level first: the
    feature of level [i] is built from the feature of level [i + 1], and the
    coarsest level is the output of the pyramid pooling module.  [xs] is
    [conv_out[i:]]; the result is the running feature [f] of level [i] and
    the outputs of levels [i, i+1, ...]. *)
Fixpoint pyramid (m : t) (i : nat) (xs : list texp) : option (texp * list texp) :=
  match xs with
  | [] => None
  | x :: rest =>
      match rest with
      | [] => psp_out ← PSPModule.forward (ppm m) x; Some (psp_out, [psp_out])
      | _ :: _ =>
          '(f, coarser) ← pyramid m (S i) rest;
          '(f, o) ← level m i x f;
          Some (f, o :: coarser)
      end
  end.

End AlignHead.

(** ** SFSegDecoder *)

Module SFSegDecoder.

(** [self.head] as built by [__init__(inplanes=512, inner_planes=64,
    num_classes=19, ...)]. *)
Definition head (inplanes inner_planes num_classes : nat) : AlignHead.t :=
  AlignHead.init [Attr "head"] inplanes num_classes [128; 256; 512] inner_planes.

(** The tensor bound to [pred] by lines 184, 187 and 189 of [forward],
    given the values read from [x['features']] and [x['size']]. *)
Definition blob_pred (hd : AlignHead.t) (features : list texp) (size : nat * nat)
  : option texp :=
  match features with
  | [x3; x4; x5] =>
      pred ← AlignHead.forward hd [x3; x4; x5];
      op (TInterp size.1 size.2 pred)
  | _ => None
  end.

(** The dictionary [x]: the entries [forward] reads; [None] is a missing
    key.  [G] is the type of the ground truth. *)
Record input (G : Type) := mkInput {
  features : option (list texp);
  size : option (nat * nat);
  gt_seg : option G
}.
Arguments mkInput {G}.
Arguments features {G}.
Arguments size {G}.
Arguments gt_seg {G}.

(** The entries of the dictionary that [forward] returns. *)
Inductive entry (L : Type) :=
| Loss (l : L)
| Tensor (t : texp).
Arguments Loss {L}.
Arguments Tensor {L}.

(** [self.prefix = self.__class__.__name__] *)
Definition prefix : string := "SFSegDecoder".

Section Forward.
Context {G L : Type}.
(** [self.loss], built by [build_loss] outside the sources at hand: a call
    that returns a loss or raises ([None]). *)
Variable loss : texp -> G -> option L.
(** [self.training] *)
Variable training : bool.

(** [forward(self, x)]: the three reads of [x] are made in every mode. *)
Definition forward (hd : AlignHead.t) (x : input G) : option (gmap string (entry L)) :=
  features ← features x;
  size ← size x;
  gt_seg ← gt_seg x;
  pred ← blob_pred hd features size;
  if training then
    l ← loss pred gt_seg;
    Some {[ String.append prefix ".loss" := Loss l; "blob_pred" := Tensor pred ]}
  else Some {[ "blob_pred" := Tensor pred ]}.
End Forward.

End SFSegDecoder.

(** ** Sizes of the pyramid levels

    The spatial sizes of the features handed to the fusion, given those of
    [conv_out]: every level keeps the size of its input, except the last
    one, which leaves the pyramid pooling module two larger each way. *)
Fixpoint pyramid_sizes (sizes : list (nat * nat)) : list (nat * nat) :=
  match sizes with
  | [] => []
  | s :: rest =>
      match rest with
      | [] => [(s.1 + 2, s.2 + 2)]
      | _ :: _ => s :: pyramid_sizes rest
      end
  end.

(** Channels the head expects of [conv_out]: [fpn_inplanes[:-1]], then the
    [inplane] of the pyramid pooling module. *)
Definition expected_channels (inplane : nat) (fpn_inplanes : list nat) : list nat :=
  removelast fpn_inplanes ++ [inplane].

(** [xs] are tensors of batch [n] with the given channels, at least one
    each, and non-empty spatial sizes. *)
Definition well_shaped (n : nat) (xs : list texp) (chans : list nat)
    (sizes : list (nat * nat)) : Prop :=
  length chans = length xs /\ length sizes = length xs
  /\ forall k x c s,
       xs !! k = Some x -> chans !! k = Some c -> sizes !! k = Some s ->
       shape_of x = Some [n; c; s.1; s.2] /\ 0 < c /\ 0 < s.1 /\ 0 < s.2.

(** A tensor of rank four with [c] channels. *)
Definition four_d (c : nat) (x : texp) : Prop :=
  exists n h w, shape_of x = Some [n; c; h; w].

(** ** Inputs used in the worked examples *)

Definition low_8x8 : texp := TInput "low_feature" [1; 4; 8; 8].
Definition high_4x4 : texp := TInput "h_feature" [1; 4; 4; 4].
Definition flow_8x8 : texp := TInput "flow" [1; 2; 8; 8].
Definition x3 : texp := TInput "x3" [2; 128; 16; 16].
Definition x4 : texp := TInput "x4" [2; 256; 8; 8].
Definition x5 : texp := TInput "x5" [2; 512; 4; 4].

(** [torch.linspace(-1.0, 1.0, steps)[i]] over the rationals. *)
Definition linspace_Q (steps i : nat) : Q :=
  if steps =? 1 then (-1)%Q
  else (-1 + 2 * inject_Z (Z.of_nat i) / inject_Z (Z.of_nat (steps - 1)))%Q.

End Sfnet.

(** * The weight initialisers ([up/utils/model/initializer.py]) *)

Module Initializer.

(** The exceptions these functions can raise. *)
Inductive exn :=
| NotImplementedError (msg : string)
| KeyError (key : string)
| AttributeError (msg : string)
| TypeError
| ValueError
| ZeroDivisionError
| OverflowError
| RuntimeError
| RegistryError.

(** The layer classes the [isinstance] tests of this file distinguish. *)
Inductive layer := Conv2d | Linear | ConvTranspose2d | BatchNorm2d | OtherLayer.

(** One element of [module.modules()].  [weight] and [bias] name parameters
    of the store; two sub-modules may share a parameter. *)
Record submodule := mkSub {
  kind : layer;
  weight : option nat;
  bias : option nat
}.

(** The floating-point runtime: [F] is the type of floats, [G] the state of
    the global random generator. *)
Class Runtime (F G : Type) := {
  lit : Q -> F;                      (* a literal such as [0.01] *)
  of_int : Z -> F;                   (* an [int] used as a float *)
  scalar_ok : Z -> bool;             (* the [int]s that [fill_] takes *)
  float_ok : Z -> bool;              (* the [int]s that convert to a float *)
  fadd : F -> F -> F;
  fsub : F -> F -> F;
  fmul : F -> F -> F;
  fneg : F -> F;
  fexp : F -> F;                     (* [torch.exp], element-wise *)
  tsum : list F -> F;                (* [Tensor.sum()] *)
  t_div : F -> F -> F;               (* tensor division: never raises *)
  py_div : F -> F -> option F;       (* float [/]: [None] is ZeroDivisionError *)
  py_log : F -> option F;            (* [math.log]: [None] is ValueError *)
  std_ok : F -> bool;                (* [std >= 0], demanded by [normal_] *)
  gauss : G -> F * G;                (* one standard normal draw *)
  xavier_std : list nat -> option F; (* [None]: fewer than two dimensions *)
  kaiming_std : list nat -> option F
}.

Record tensor (F : Type) := mkTensor {
  tshape : list nat;
  tdata : list F
}.
Arguments mkTensor {F}.
Arguments tshape {F}.
Arguments tdata {F}.

Global Instance tensor_inhabited F : Inhabited (tensor F) :=
  populate (mkTensor [] []).

(** The parameters of the model and the generator. *)
Record tstate (F G : Type) := mkTState {
  params : gmap nat (tensor F);
  gen : G
}.
Arguments mkTState {F G}.
Arguments params {F G}.
Arguments gen {F G}.

(** Python values found in a configuration dictionary. *)
Inductive pyval (F : Type) :=
| VNone
| VBool (b : bool)
| VInt (z : Z)
| VFloat (f : F)
| VStr (s : string).
Arguments VNone {F}.
Arguments VBool {F}.
Arguments VInt {F}.
Arguments VFloat {F}.
Arguments VStr {F}.

(** ** A state and exception monad *)

Definition M (S A : Type) : Type := S -> (exn + A) * S.

Global Instance M_ret S : MRet (M S) := fun A a s => (inr a, s).
Global Instance M_bind S : MBind (M S) := fun A B k m s =>
  match m s with
  | (inr a, s') => k a s'
  | (inl e, s') => (inl e, s')
  end.

Definition raise {S A} (e : exn) : M S A := fun s => (inl e, s).

Definition lift_option {S A} (e : exn) (o : option A) : M S A :=
  match o with
  | Some a => mret a
  | None => raise e
  end.

Fixpoint for_each {S A} (f : A -> M S unit) (l : list A) : M S unit :=
  match l with
  | [] => mret ()
  | x :: l' => _ ← f x; for_each f l'
  end.

(** [m] never raises [NotImplementedError]. *)
Definition supported {S A} (m : M S A) : Prop :=
  forall s e s', m s = (inl e, s') -> forall msg, e <> NotImplementedError msg.

Section Torch.
Context {F G : Type} `{RT : Runtime F G}.

Local Abbreviation T := (M (tstate F G)).

(** [p.data] for parameter [p] *)
Definition data_of (p : nat) : T (tensor F) :=
  fun s => (inr (params s !!! p), s).

Definition set_data (p : nat) (t : tensor F) : T unit :=
  fun s => (inr (), mkTState (<[p := t]> (params s)) (gen s)).

(** [m.weight.data] and [m.bias.data]; a missing parameter is [None]. *)
Definition none_has_no_data : exn :=
  AttributeError "'NoneType' object has no attribute 'data'".

Definition weight_data (m : submodule) : T nat :=
  lift_option none_has_no_data (weight m).

Definition bias_data (m : submodule) : T nat :=
  lift_option none_has_no_data (bias m).

(** [nn.init.constant_(t, val)], [t.fill_(val)], [t.zero_()] *)
Definition fill (val : F) (t : tensor F) : tensor F :=
  mkTensor (tshape t) (replicate (length (tdata t)) val).

(** Shapes and lengths of all parameters agree in two stores. *)
Definition same_layout (ps0 ps : gmap nat (tensor F)) : Prop :=
  forall b, tshape (ps !!! b) = tshape (ps0 !!! b)
            /\ length (tdata (ps !!! b)) = length (tdata (ps0 !!! b)).

Definition constant_ (p : nat) (val : F) : T unit :=
  t ← data_of p;
  set_data p (fill val t).

Definition zero_ (p : nat) : T unit := constant_ p (lit 0).

Fixpoint draws (k : nat) (g : G) : list F * G :=
  match k with
  | 0 => ([], g)
  | S k' =>
      let '(z, g1) := gauss g in
      let '(zs, g2) := draws k' g1 in
      (z :: zs, g2)
  end.

(** [t.normal_(mean, std)] *)
Definition normal_ (p : nat) (mean std : F) : T unit :=
  if std_ok std then
    fun s =>
      let t := params s !!! p in
      let '(zs, g) := draws (length (tdata t)) (gen s) in
      (inr (),
       mkTState (<[p := mkTensor (tshape t)
                                  (map (fun z => fadd mean (fmul std z)) zs)]>
                   (params s)) g)
  else raise RuntimeError.

Definition xavier_normal_ (p : nat) : T unit :=
  t ← data_of p;
  std ← lift_option ValueError (xavier_std (tshape t));
  normal_ p (lit 0) std.

Definition kaiming_normal_ (p : nat) : T unit :=
  t ← data_of p;
  std ← lift_option ValueError (kaiming_std (tshape t));
  normal_ p (lit 0) std.

Definition is_conv_linear_deconv (k : layer) : bool :=
  match k with
  | Conv2d | Linear | ConvTranspose2d => true
  | _ => false
  end.

Definition is_conv_linear (k : layer) : bool :=
  match k with
  | Conv2d | Linear => true
  | _ => false
  end.

(** [init_weights_constant(module, val=0)] *)
Definition init_weights_constant (module : list submodule) (val : F) : T unit :=
  for_each (fun m =>
    if is_conv_linear_deconv (kind m) then
      w ← weight_data m;
      _ ← constant_ w val;
      b ← bias_data m;
      constant_ b val
    else mret ()) module.

Definition zero_bias (m : submodule) : T unit :=
  match bias m with
  | Some b => zero_ b
  | None => mret ()
  end.

(** [init_weights_normal(module, std=0.01)] *)
Definition init_weights_normal (module : list submodule) (std : F) : T unit :=
  for_each (fun m =>
    if is_conv_linear_deconv (kind m) then
      w ← weight_data m;
      _ ← normal_ w (lit 0) std;
      zero_bias m
    else mret ()) module.

(** [init_weights_xavier(module)] *)
Definition init_weights_xavier (module : list submodule) : T unit :=
  for_each (fun m =>
    if is_conv_linear_deconv (kind m) then
      w ← weight_data m;
      _ ← xavier_normal_ w;
      zero_bias m
    else mret ()) module.

(** [init_weights_msra(module)] *)
Definition init_weights_msra (module : list submodule) : T unit :=
  for_each (fun m =>
    if is_conv_linear_deconv (kind m) then
      w ← weight_data m;
      _ ← kaiming_normal_ w;
      zero_bias m
    else mret ()) module.

(** [-math.log(1.0 / init_prior - 1.0)] *)
Definition focal_value (init_prior : F) : exn + F :=
  match py_div (lit 1) init_prior with
  | None => inl ZeroDivisionError
  | Some q =>
      match py_log (fsub q (lit 1)) with
      | None => inl ValueError
      | Some l => inr (fneg l)
      end
  end.

Definition focal_constant (init_prior : F) : T F :=
  fun s => (focal_value init_prior, s).

(** [range(0, n, step)] *)
Definition range_step (n : nat) (step : Z) : T (list nat) :=
  if (step =? 0)%Z then raise ValueError
  else if (step <? 0)%Z then mret []
  else
    let st := Z.to_nat step in
    mret (map (fun k => k * st) (seq 0 ((n + st - 1) / st))).

(** The inner loop body of the softmax branch (lines 74-76). *)
Definition softmax_slot (b : nat) (init_prior : F) (num_classes : Z) (i : nat)
  : T unit :=
  t ← data_of b;
  let fg := take (Z.to_nat (num_classes - 1)) (drop (i + 1) (tdata t)) in
  let mu := tsum (map fexp fg) in
  v ← lift_option ValueError
        (py_log (t_div (fmul mu (fsub (lit 1) init_prior)) init_prior));
  t ← data_of b;
  set_data b (mkTensor (tshape t) (<[i := v]> (tdata t))).

(** The loop body of the sigmoid branch (lines 64-67). *)
Definition sigmoid_layer (init_prior : F) (m : submodule) : T unit :=
  if is_conv_linear (kind m) then
    b ← bias_data m;
    c ← focal_constant init_prior;
    _ ← normal_ b c init_prior;
    c ← focal_constant init_prior;
    constant_ b c
  else mret ().

(** The loop body of the softmax branch (lines 71-76). *)
Definition softmax_layer (init_prior : F) (num_classes : Z) (m : submodule) : T unit :=
  if is_conv_linear (kind m) then
    b ← bias_data m;
    _ ← normal_ b (lit 0) (lit (1 # 100));
    t ← data_of b;
    idxs ← range_step (length (tdata t)) num_classes;
    for_each (softmax_slot b init_prior num_classes) idxs
  else mret ().

(** [init_bias_focal(module, cls_loss_type, init_prior, num_classes)] *)
Definition init_bias_focal (module : list submodule) (cls_loss_type : string)
    (init_prior : F) (num_classes : Z) : T unit :=
  if String.eqb cls_loss_type "sigmoid" then
    for_each (sigmoid_layer init_prior) module
  else if String.eqb cls_loss_type "softmax" then
    for_each (softmax_layer init_prior num_classes) module
  else
    raise (NotImplementedError (String.append cls_loss_type " is not supported")).

(** ** The registry and [initialize] *)

(** A registered initialiser, called as [init_instance(model, **kwargs)]. *)
Definition initializer : Type := list submodule -> gmap string (pyval F) -> T unit.

(** Binding of [**kwargs] to a signature: every key is a parameter and
    every parameter without default is given. *)
Definition binds (required optional : list string) (kwargs : gmap string (pyval F))
  : bool :=
  forallb (fun k => bool_decide (k ∈ required ++ optional)) (map fst (map_to_list kwargs))
  && forallb (fun k => bool_decide (is_Some (kwargs !! k))) required.

(** *** Configuration values used as numbers

    A configuration holds any Python value.  The callee converts it where
    it first computes with it, and raises there: [TypeError] for a value
    that is no number, [OverflowError] for an [int] that the conversion
    does not take. *)
Definition of_bool (b : bool) : Z := if b then 1%Z else 0%Z.

(** The value handed to [fill_]. *)
Definition as_scalar (v : pyval F) : exn + F :=
  match v with
  | VFloat f => inr f
  | VInt z => if scalar_ok z then inr (of_int z) else inl OverflowError
  | VBool b => inr (of_int (of_bool b))
  | VNone | VStr _ => inl TypeError
  end.

(** A value used in float arithmetic, or as a [double] argument. *)
Definition as_float (v : pyval F) : exn + F :=
  match v with
  | VFloat f => inr f
  | VInt z => if float_ok z then inr (of_int z) else inl OverflowError
  | VBool b => inr (of_int (of_bool b))
  | VNone | VStr _ => inl TypeError
  end.

(** The step of [range]: an [int]. *)
Definition as_int (v : pyval F) : exn + Z :=
  match v with
  | VInt z => inr z
  | VBool b => inr (of_bool b)
  | VNone | VFloat _ | VStr _ => inl TypeError
  end.

(** A loop over the selected layers whose body reads an attribute of the
    layer and then raises [e]: what is left of an initialiser whose argument
    does not convert. *)
Definition raising_loop {A} (sel : layer -> bool) (attr : submodule -> T A) (e : exn)
    (module : list submodule) : T unit :=
  for_each (fun m => if sel (kind m) then _ ← attr m; raise e else mret ()) module.

(** The loop body of the sigmoid branch when [init_prior] is a
    configuration value: [1.0 / init_prior] is evaluated after
    [m.bias.data]. *)
Definition sigmoid_layer_dyn (init_prior : exn + F) (m : submodule) : T unit :=
  match init_prior with
  | inr p => sigmoid_layer p m
  | inl e => if is_conv_linear (kind m) then _ ← bias_data m; raise e else mret ()
  end.

(** The loop body of the softmax branch on configuration values:
    [num_classes] is first used by [range], after the draw; [init_prior] is
    first used in the body of the inner loop. *)
Definition softmax_layer_dyn (init_prior : exn + F) (num_classes : exn + Z)
    (m : submodule) : T unit :=
  match num_classes, init_prior with
  | inr nc, inr p => softmax_layer p nc m
  | inr nc, inl e =>
      if is_conv_linear (kind m) then
        b ← bias_data m;
        _ ← normal_ b (lit 0) (lit (1 # 100));
        t ← data_of b;
        idxs ← range_step (length (tdata t)) nc;
        for_each (fun _ => raise e) idxs
      else mret ()
  | inl e, _ =>
      if is_conv_linear (kind m) then
        b ← bias_data m;
        _ ← normal_ b (lit 0) (lit (1 # 100));
        raise e
      else mret ()
  end.

(** [str(v)], as formatted into the message of [init_bias_focal]. *)
Variable pystr : pyval F -> string.

(** *** The registered functions called with [**kwargs] *)

Definition call_constant : initializer := fun model kwargs =>
  if binds [] ["val"] kwargs then
    match as_scalar (default (VInt 0) (kwargs !! "val")) with
    | inr val => init_weights_constant model val
    | inl e => raising_loop is_conv_linear_deconv weight_data e model
    end
  else raise TypeError.

Definition call_normal : initializer := fun model kwargs =>
  if binds [] ["std"] kwargs then
    match as_float (default (VFloat (lit (1 # 100))) (kwargs !! "std")) with
    | inr std => init_weights_normal model std
    | inl e => raising_loop is_conv_linear_deconv weight_data e model
    end
  else raise TypeError.

Definition call_xavier : initializer := fun model kwargs =>
  if binds [] [] kwargs then init_weights_xavier model else raise TypeError.

Definition call_msra : initializer := fun model kwargs =>
  if binds [] [] kwargs then init_weights_msra model else raise TypeError.

(** [cls_loss_type] is compared before any other argument is looked at;
    the sigmoid branch never reads [num_classes]. *)
Definition call_focal : initializer := fun model kwargs =>
  if binds ["cls_loss_type"; "init_prior"; "num_classes"] [] kwargs then
    let init_prior := as_float (default VNone (kwargs !! "init_prior")) in
    let num_classes := as_int (default VNone (kwargs !! "num_classes")) in
    match default VNone (kwargs !! "cls_loss_type") with
    | VStr cls_loss_type =>
        if String.eqb cls_loss_type "sigmoid" then
          for_each (sigmoid_layer_dyn init_prior) model
        else if String.eqb cls_loss_type "softmax" then
          for_each (softmax_layer_dyn init_prior num_classes) model
        else
          raise (NotImplementedError (String.append cls_loss_type " is not supported"))
    | v => raise (NotImplementedError (String.append (pystr v) " is not supported"))
    end
  else raise TypeError.

(** The entries this file registers with [@INITIALIZER_REGISTRY.register]. *)
Definition INITIALIZER_REGISTRY : gmap string initializer :=
  {[ "constant" := call_constant;
 "normal" := call_normal;
 "xavier" := call_xavier;
 "msra" := call_msra;
 "focal" := call_focal ]}.

Section WithRegistry.
Variable registry : gmap string initializer.

(** Modelled from the spec: [registry_factory] is not among the sources; the
    spec describes registries keyed by strings such as "initializer method
    names".  [INITIALIZER_REGISTRY.get(method)] returns the initialiser
    registered under [method]; a failed lookup is recorded as
    [RegistryError], whatever exception class the registry uses. *)
Definition registry_get (method : pyval F) : T initializer :=
  match method with
  | VStr name => lift_option RegistryError (registry !! name)
  | _ => raise RegistryError
  end.

Definition init_bn (m : submodule) : T unit :=
  match kind m with
  | BatchNorm2d =>
      _ ← match weight m with
          | Some w => constant_ w (of_int 1)
          | None => mret ()
          end;
      match bias m with
      | Some b => zero_ b
      | None => mret ()
      end
  | _ => mret ()
  end.

(** [initialize(model, method, **kwargs)] *)
Definition initialize (model : list submodule) (method : pyval F)
    (kwargs : gmap string (pyval F)) : T unit :=
  _ ← for_each init_bn model;
  init_instance ← registry_get method;
  init_instance model kwargs.

(** ** Configuration dictionaries live on a heap *)

Record world := mkWorld {
  tensors : tstate F G;
  heap : gmap nat (gmap string (pyval F))
}.

Local Abbreviation W := (M world).

Definition lift_t {A} (m : T A) : W A :=
  fun w => let '(r, t) := m (tensors w) in (r, mkWorld t (heap w)).

(** [copy.deepcopy(cfg)]: a new dictionary with equal contents. *)
Definition deepcopy (a : nat) : W nat :=
  fun w =>
    let a' := fresh (dom (heap w)) in
    (inr a', mkWorld (tensors w) (<[a' := heap w !!! a]> (heap w))).

(** [d.pop(key)] *)
Definition dict_pop (a : nat) (key : string) : W (pyval F) :=
  fun w =>
    let d := heap w !!! a in
    match d !! key with
    | Some v => (inr v, mkWorld (tensors w) (<[a := delete key d]> (heap w)))
    | None => (inl (KeyError key), w)
    end.

Definition dict_items (a : nat) : W (gmap string (pyval F)) :=
  fun w => (inr (heap w !!! a), w).

(** [initialize_from_cfg(model, cfg)]; [cfg] is [None] or the address of
    a dictionary. *)
Definition initialize_from_cfg (model : list submodule) (cfg : option nat)
  : W unit :=
  match cfg with
  | None =>
      lift_t (initialize model (VStr "normal") {[ "std" := VFloat (lit (1 # 100)) ]})
  | Some cfg =>
      cfg ← deepcopy cfg;
      method ← dict_pop cfg "method";
      kwargs ← dict_items cfg;
      if bool_decide (is_Some (kwargs !! "model")) then raise TypeError
      else lift_t (initialize model method kwargs)
  end.
End WithRegistry.
End Torch.

(** ** Which parameters a computation may write *)

(** The parameters reached through [field] from the layers selected by
    [sel]. *)
Definition owned (sel : layer -> bool) (field : submodule -> option nat)
    (module : list submodule) : list nat :=
  omap field (List.filter (fun m => sel (kind m)) module).

(** The weights and biases of the [Conv2d], [Linear] and [ConvTranspose2d]
    layers, and the biases of the [Conv2d] and [Linear] layers. *)
Definition conv_like_params (module : list submodule) : list nat :=
  owned is_conv_linear_deconv weight module ++ owned is_conv_linear_deconv bias module.

Definition focal_biases (module : list submodule) : list nat :=
  owned is_conv_linear bias module.

(** The parameters of one convolution-like layer. *)
Definition layer_params (m : submodule) : list nat :=
  if is_conv_linear_deconv (kind m)
  then option_list (weight m) ++ option_list (bias m)
  else [].

Definition is_batchnorm (k : layer) : bool :=
  match k with
  | BatchNorm2d => true
  | _ => false
  end.

(** The value that the softmax branch stores in slot [i] of a bias holding
    [data] (lines 74-76). *)
Definition softmax_slot_value {F G : Type} `{RT : Runtime F G}
    (init_prior : F) (num_classes : Z) (data : list F) (i : nat) : option F :=
  let fg := take (Z.to_nat (num_classes - 1)) (drop (i + 1) data) in
  py_log (t_div (fmul (tsum (map fexp fg)) (fsub (lit 1) init_prior)) init_prior).

(** [m] leaves every parameter outside [ids] as it was, whether it returns
    or raises. *)
Definition touches_only {F G A : Type} (ids : list nat) (m : M (tstate F G) A) : Prop :=
  forall s p, p ∉ ids -> params (m s).2 !! p = params s !! p.

(** The store after [constant_] on each of [ids] in turn. *)
Definition fills {F : Type} (val : F) (ids : list nat) (ps : gmap nat (tensor F))
  : gmap nat (tensor F) :=
  foldl (fun ps b => <[b := mkTensor (tshape (ps !!! b))
                                     (replicate (length (tdata (ps !!! b))) val)]> ps)
        ps ids.

(** ** A symbolic runtime

    Every float is the expression that computes it; the generator state
    counts the draws made so far.  The partial operations evaluate their
    operand over the rationals where they can. *)

Inductive fexpr :=
| FLit (q : Q)
| FInt (z : Z)
| FAdd (a b : fexpr)
| FSub (a b : fexpr)
| FMul (a b : fexpr)
| FNeg (a : fexpr)
| FExp (a : fexpr)
| FSum (l : list fexpr)
| FDiv (a b : fexpr)
| FLog (a : fexpr)
| FGauss (k : nat)
| FStd (rule : string) (shape : list nat).

(** What is known of the real number an expression stands for: its value
    when it is rational, else its sign. *)
Inductive aval :=
| Exact (q : Q)
| Positive
| Negative
| Unknown.

Definition sign_of (a : aval) : option comparison :=
  match a with
  | Exact q => Some (q ?= 0)%Q
  | Positive => Some Gt
  | Negative => Some Lt
  | Unknown => None
  end.

Definition aneg (a : aval) : aval :=
  match a with
  | Exact q => Exact (Qred (- q))
  | Positive => Negative
  | Negative => Positive
  | Unknown => Unknown
  end.

Definition aadd (a b : aval) : aval :=
  match a, b with
  | Exact p, Exact q => Exact (Qred (p + q))
  | _, _ =>
      match sign_of a, sign_of b with
      | Some Gt, Some Gt | Some Gt, Some Eq | Some Eq, Some Gt => Positive
      | Some Lt, Some Lt | Some Lt, Some Eq | Some Eq, Some Lt => Negative
      | _, _ => Unknown
      end
  end.

Definition amul (a b : aval) : aval :=
  match a, b with
  | Exact p, Exact q => Exact (Qred (p * q))
  | _, _ =>
      match sign_of a, sign_of b with
      | Some Eq, Some _ | Some _, Some Eq => Exact 0
      | Some Gt, Some Gt | Some Lt, Some Lt => Positive
      | Some Gt, Some Lt | Some Lt, Some Gt => Negative
      | _, _ => Unknown
      end
  end.

(** Division of tensors: by zero it yields [inf] or [nan]. *)
Definition adiv (a b : aval) : aval :=
  match b with
  | Exact q => if Qeq_bool q 0 then Unknown else amul a (Exact (Qred (/ q)))
  | Unknown => Unknown
  | _ => amul a b
  end.

Definition alog (a : aval) : aval :=
  match a with
  | Exact q =>
      match (q ?= 1)%Q with
      | Eq => Exact 0
      | Gt => Positive
      | Lt => Negative
      end
  | _ => Unknown
  end.

Fixpoint approx (a : fexpr) : aval :=
  match a with
  | FLit q => Exact (Qred q)
  | FInt z => Exact (inject_Z z)
  | FAdd a b => aadd (approx a) (approx b)
  | FSub a b => aadd (approx a) (aneg (approx b))
  | FMul a b => amul (approx a) (approx b)
  | FNeg a => aneg (approx a)
  | FExp _ => Positive
  | FSum l =>
      (fix sum (l : list fexpr) : aval :=
         match l with
         | [] => Exact 0
         | x :: l' => aadd (approx x) (sum l')
         end) l
  | FDiv a b => adiv (approx a) (approx b)
  | FLog a => alog (approx a)
  | FGauss _ => Unknown
  | FStd _ _ => Positive
  end.

(** [math.log] raises on zero and on negative numbers; an expression whose
    sign depends on a draw is taken to be in its domain. *)
Definition symbolic_log (a : fexpr) : option fexpr :=
  match sign_of (approx a) with
  | Some Eq | Some Lt => None
  | _ => Some (FLog a)
  end.

Definition symbolic_div (a b : fexpr) : option fexpr :=
  match sign_of (approx b) with
  | Some Eq => None
  | _ => Some (FDiv a b)
  end.

Definition symbolic_std_ok (a : fexpr) : bool :=
  match sign_of (approx a) with
  | Some Lt => false
  | _ => true
  end.

Global Instance symbolic_runtime : Runtime fexpr nat :=
  {| lit := FLit;
     of_int := FInt;
     scalar_ok := fun z => (- 2 ^ 63 <=? z)%Z && (z <? 2 ^ 64)%Z;
     float_ok := fun z => (Z.abs z <? 2 ^ 1024 - 2 ^ 970)%Z;
     fadd := FAdd;
     fsub := FSub;
     fmul := FMul;
     fneg := FNeg;
     fexp := FExp;
     tsum := FSum;
     t_div := FDiv;
     py_div := symbolic_div;
     py_log := symbolic_log;
     std_ok := symbolic_std_ok;
     gauss := fun k => (FGauss k, S k);
     xavier_std := fun sh => if length sh <? 2 then None else Some (FStd "xavier" sh);
     kaiming_std := fun sh => if length sh <? 2 then None else Some (FStd "kaiming" sh) |}.

Definition symbolic_pystr (v : pyval fexpr) : string :=
  match v with
  | VNone => "None"
  | VBool true => "True"
  | VBool false => "False"
  | VStr s => s
  | _ => "<number>"
  end.

(** A convolution, a batch normalisation and a linear layer. *)
Definition example_model : list submodule :=
  [ mkSub Conv2d (Some 0) (Some 1);
    mkSub BatchNorm2d (Some 2) (Some 3);
    mkSub Linear (Some 4) (Some 5) ].

Definition example_params : gmap nat (tensor fexpr) :=
  {[ 0 := mkTensor [2; 1; 1; 1] [FLit 0; FLit 0];
     1 := mkTensor [2] [FLit 0; FLit 0];
     2 := mkTensor [2] [FLit 1; FLit 1];
     3 := mkTensor [2] [FLit 0; FLit 0];
     4 := mkTensor [3; 2] [FLit 0; FLit 0; FLit 0; FLit 0; FLit 0; FLit 0];
     5 := mkTensor [3] [FLit 0; FLit 0; FLit 0] ]}.

Definition example_state : tstate fexpr nat := mkTState example_params 0.

Definition example_prior : fexpr := FLit (1 # 100).

Definition example_cfg_without_method : gmap string (pyval fexpr) :=
  {[ "std" := VFloat (FLit (1 # 100)) ]}.

Definition example_cfg_focal : gmap string (pyval fexpr) :=
  {[ "method" := VStr "focal";
     "cls_loss_type" := VStr "sigmoid";
     "init_prior" := VFloat example_prior;
     "num_classes" := VInt 80 ]}.

Definition example_world (cfg : gmap string (pyval fexpr)) : @world fexpr nat :=
  mkWorld example_state {[ 7 := cfg ]}.

Definition example_registry
  : gmap string (initializer (F := fexpr) (G := nat)) :=
  INITIALIZER_REGISTRY (RT := symbolic_runtime) symbolic_pystr.

End Initializer.

(** * The [to_adela] sub-command ([up/commands/to_adela.py]) *)

Module ToAdelaCmd.

(** Values stored in the parsed namespace. *)
Inductive argval :=
| ANone
| AStr (s : string)
| ABool (b : bool)
| AList (l : list string).

Global Instance argval_inhabited : Inhabited argval := populate ANone.

Inductive action := Store | StoreTrue.
Inductive nargs := OneValue | Remainder.

(** One [add_argument] call. *)
Record argument := mkArg {
  flag : string;
  dest : string;
  required : bool;
  default_value : argval;
  act : action;
  arity : nargs
}.

(** [ToAdela.add_subparser]: the arguments declared on the sub-parser, in
    the order of the source. *)
Definition add_subparser : list argument :=
  [ mkArg "--config" "config" true ANone Store OneValue;
    mkArg "--release_json" "release_json" false (AStr "release.json") Store OneValue;
    mkArg "--save_to" "save_to" false ANone Store OneValue;
    mkArg "--serialize" "serialize" false (ABool false) StoreTrue OneValue;
    mkArg "--cfg_type" "cfg_type" false (AStr "up") Store OneValue;
    mkArg "--opts" "opts" false ANone Store Remainder ].

(** What [argparse] reports before exiting with status 2. *)
Inductive usage_error :=
| MissingRequired (flags : list string)
| UnrecognizedArguments (words : list string)
| ExpectedOneArgument (flag : string).

(** The result of parsing: a value, a usage error, or a command line that
    the model does not cover, with the word that leaves it. *)
Inductive outcome (A : Type) :=
| Done (a : A)
| Usage (e : usage_error)
| Outside (word : string).
Arguments Done {A}.
Arguments Usage {A}.
Arguments Outside {A}.

Definition find_flag (decls : list argument) (tok : string) : option argument :=
  find (fun d => String.eqb (flag d) tok) decls.

Definition starts_with_dash (tok : string) : bool :=
  match tok with
  | String c _ => Ascii.eqb c (Ascii.ascii_of_nat 45)
  | EmptyString => false
  end.

(** ** The command lines covered

    A word is a declared flag spelled in full, or a plain word: one that
    does not start with [-], or [-] alone.  [argparse] gives a meaning to
    other words as well: [--flag=value], an unambiguous prefix of a flag,
    the [-h] and [--help] it adds itself, a negative number or a word with
    a space taken as a value, [--]; what is left is an unknown option.
    These are [Other], and a command line that holds one is outside the
    model, wherever the word stands: [argparse] classifies every word before
    it consumes any. *)
Inductive word_class :=
| Flag (d : argument)
| Word
| Other.

Definition classify (decls : list argument) (tok : string) : word_class :=
  match find_flag decls tok with
  | Some d => Flag d
  | None =>
      if starts_with_dash tok && negb (String.eqb tok "-") then Other else Word
  end.

Definition is_other (c : word_class) : bool :=
  match c with
  | Other => true
  | _ => false
  end.

(** The scan of the command line.  [ns] is the namespace so far, [extras]
    the plain words no argument has taken: the sub-parser declares no
    positional argument, so they are kept for the report of unrecognized
    arguments. *)
Fixpoint scan (decls : list argument) (argv : list string)
    (ns : gmap string argval) (extras : list string)
  : outcome (gmap string argval * list string) :=
  match argv with
  | [] => Done (ns, extras)
  | tok :: rest =>
      match classify decls tok with
      | Other => Outside tok
      | Word => scan decls rest ns (extras ++ [tok])
      | Flag d =>
          match act d, arity d with
          | StoreTrue, _ => scan decls rest (<[dest d := ABool true]> ns) extras
          | Store, Remainder => Done (<[dest d := AList rest]> ns, extras)
          | Store, OneValue =>
              match rest with
              | v :: rest' =>
                  match classify decls v with
                  | Word => scan decls rest' (<[dest d := AStr v]> ns) extras
                  | Flag _ => Usage (ExpectedOneArgument tok)
                  | Other => Outside v
                  end
              | [] => Usage (ExpectedOneArgument tok)
              end
          end
      end
  end.

Definition with_defaults (decls : list argument) (ns : gmap string argval)
  : gmap string argval :=
  foldr (fun d acc =>
           match ns !! dest d with
           | Some _ => acc
           | None => <[dest d := default_value d]> acc
           end) ns decls.

(** [parse_args]: the missing required options are reported by the
    sub-parser, before the parser that called it reports the words left
    over. *)
Definition parse_args (decls : list argument) (argv : list string)
  : outcome (gmap string argval) :=
  match find (fun tok => is_other (classify decls tok)) argv with
  | Some tok => Outside tok
  | None =>
      match scan decls argv ∅ [] with
      | Done (ns, extras) =>
          match List.filter
                  (fun d => required d && negb (bool_decide (is_Some (ns !! dest d))))
                  decls with
          | [] =>
              match extras with
              | [] => Done (with_defaults decls ns)
              | _ :: _ => Usage (UnrecognizedArguments extras)
              end
          | missing => Usage (MissingRequired (map flag missing))
          end
      | Usage e => Usage e
      | Outside tok => Outside tok
      end
  end.

(** ** [main] and [_main] *)

(** How [main] can fail: the assertion, [os.path.exists] on a value that is
    no path, a missing attribute of [args], or an exception [e] raised by
    one of the functions it calls. *)
Inductive failure (E : Type) :=
| AssertionError (msg : argval)
| PathTypeError
| AttributeError (name : string)
| Raised (e : E).
Arguments AssertionError {E}.
Arguments PathTypeError {E}.
Arguments AttributeError {E}.
Arguments Raised {E}.

(** Calls into the rest of the framework: [logger.init_log], [load_yaml],
    the assignment to [cfg['args']], [send_info], [to_adela].  These are
    not among the sources; a call is recorded with the arguments taken from
    [args], and it returns or raises. *)
Inductive event :=
| InitLog
| LoadYaml (path cfg_type : argval)
| SetArgs (opts : argval)
| SendInfo (func : string)
| ToAdela (release_json save_to serialize : argval).

Section Main.
Context {E : Type}.
(** [os.path.exists(v)]; [None] when it raises [TypeError]. *)
Variable path_exists : argval -> option bool.
(** The exception, if any, raised by the last call of a history of calls. *)
Variable raises : list event -> option E.

(** A computation over the history of the calls made so far. *)
Definition R (A : Type) : Type := list event -> (failure E + A) * list event.

#[local] Instance R_ret : MRet R := fun A a h => (inr a, h).
#[local] Instance R_bind : MBind R := fun A B k m h =>
  match m h with
  | (inr a, h') => k a h'
  | (inl e, h') => (inl e, h')
  end.

Definition fail {A} (e : failure E) : R A := fun h => (inl e, h).

(** [args.name] *)
Definition attr (args : gmap string argval) (name : string) : R argval :=
  match args !! name with
  | Some v => mret v
  | None => fail (AttributeError name)
  end.

Definition call (ev : event) : R unit :=
  fun h =>
    match raises (h ++ [ev]) with
    | Some e => (inl (Raised e), h ++ [ev])
    | None => (inr (), h ++ [ev])
    end.

Definition main (args : gmap string argval) : R unit :=
  config ← attr args "config";
  match path_exists config with
  | None => fail PathTypeError
  | Some false => msg ← attr args "config"; fail (AssertionError msg)
  | Some true =>
      config ← attr args "config";
      cfg_type ← attr args "cfg_type";
      _ ← call (LoadYaml config cfg_type);
      opts ← attr args "opts";
      _ ← call (SetArgs opts);
      _ ← call (SendInfo "to_adela");
      release_json ← attr args "release_json";
      save_to ← attr args "save_to";
      serialize ← attr args "serialize";
      call (ToAdela release_json save_to serialize)
  end.

Definition _main (args : gmap string argval) : R unit :=
  _ ← call InitLog;
  main args.

(** The sub-command from the command line on: [set_defaults(run=_main)]. *)
Definition run (argv : list string) : outcome ((failure E + unit) * list event) :=
  match parse_args add_subparser argv with
  | Done args => Done (_main args [])
  | Usage e => Usage e
  | Outside tok => Outside tok
  end.

(** The calls of a plan made in turn, up to the first that raises. *)
Fixpoint run_calls (plan : list event) : R unit :=
  match plan with
  | [] => mret ()
  | ev :: plan' => _ ← call ev; run_calls plan'
  end.

(** The calls [main] makes with the attributes of [args]. *)
Definition plan (args : gmap string argval) : list event :=
  [ LoadYaml (args !!! "config") (args !!! "cfg_type");
    SetArgs (args !!! "opts");
    SendInfo "to_adela";
    ToAdela (args !!! "release_json") (args !!! "save_to") (args !!! "serialize") ].
End Main.

(** Every word of the command line is covered by the model. *)
Definition covered (decls : list argument) (argv : list string) : Prop :=
  Forall (fun tok => classify decls tok <> Other) argv.

End ToAdelaCmd.

Module SfnetFacts.
Import Sfnet.

Lemma bdim_refl a : bdim a a = Some a.
Proof. unfold bdim. by rewrite Nat.eqb_refl. Qed.

Lemma bdim_1_r a : bdim a 1 = Some a.
Proof.
  unfold bdim. destruct (a =? 1) eqn:E; [by apply Nat.eqb_eq in E; subst|done].
Qed.

Lemma op_Some t s : shape_of t = Some s -> op t = Some t.
Proof. unfold op. by intros ->. Qed.

Section GridFacts.
Context {R : Type}.
Variables (radd rdiv : R -> R -> R) (rofnat : nat -> R).
Variable linspace_at : nat -> nat -> R.
Variable oracle : texp -> list nat -> R.

Lemma base_grid_shape n out_h out_w :
  shape_of (AlignedModule.base_grid n out_h out_w) = Some [n; out_h; out_w; 2].
Proof.
  unfold AlignedModule.base_grid. cbn.
  rewrite ?Nat.mul_1_r, ?Nat.add_0_r, ?Nat.eqb_refl. cbn.
  by rewrite ?Nat.mul_1_r, ?Nat.add_0_r.
Qed.

Lemma plane_grid_shape out_h out_w :
  shape_of (TCat 2 [TUnsqueeze 2 (TRepeat [out_h; 1] (TLinspace out_w));
                    TUnsqueeze 2 (TRepeat [1; out_w] (TViewCol (TLinspace out_h)))])
  = Some [out_h; out_w; 2].
Proof.
  cbn. rewrite ?Nat.mul_1_r, ?Nat.add_0_r, ?Nat.eqb_refl. cbn.
  by rewrite ?Nat.mul_1_r, ?Nat.add_0_r.
Qed.

Lemma broadcast_row n a b k : broadcast [n; a; b; k] [1; 1; 1; k] = Some [n; a; b; k].
Proof.
  unfold broadcast. cbn [rev app broadcast_rev].
  by rewrite bdim_refl, !bdim_1_r.
Qed.

Lemma broadcast_same4 n a b k : broadcast [n; a; b; k] [n; a; b; k] = Some [n; a; b; k].
Proof.
  unfold broadcast. cbn [rev app broadcast_rev].
  by rewrite !bdim_refl.
Qed.

Lemma permuted_flow_shape flow n out_h out_w :
  shape_of flow = Some [n; 2; out_h; out_w] ->
  shape_of (TPermute [0; 2; 3; 1] flow) = Some [n; out_h; out_w; 2].
Proof. intros H. cbn [shape_of]. by rewrite H. Qed.

Lemma scaled_flow_shape flow n out_h out_w :
  shape_of flow = Some [n; 2; out_h; out_w] ->
  shape_of (TDiv (TPermute [0; 2; 3; 1] flow) (TLiteral4 [out_w; out_h]))
  = Some [n; out_h; out_w; 2].
Proof.
  intros H. change (shape_of (TDiv ?x ?y)) with
    (s1 ← shape_of x; s2 ← shape_of y; broadcast s1 s2).
  rewrite (permuted_flow_shape _ _ _ _ H). cbn [shape_of mbind option_bind length].
  apply broadcast_row.
Qed.

Lemma sampling_grid_shape flow n out_h out_w :
  shape_of flow = Some [n; 2; out_h; out_w] ->
  shape_of (AlignedModule.sampling_grid n out_h out_w flow) = Some [n; out_h; out_w; 2].
Proof.
  intros H. unfold AlignedModule.sampling_grid.
  change (shape_of (TAdd ?x ?y)) with
    (s1 ← shape_of x; s2 ← shape_of y; broadcast s1 s2).
  rewrite base_grid_shape, (scaled_flow_shape _ _ _ _ H).
  cbn [mbind option_bind]. apply broadcast_same4.
Qed.

Lemma flow_warp_grid_ok input flow n c hi wi out_h out_w :
  shape_of input = Some [n; c; hi; wi] ->
  shape_of flow = Some [n; 2; out_h; out_w] ->
  AlignedModule.flow_warp_grid input flow (out_h, out_w)
    = Some (AlignedModule.sampling_grid n out_h out_w flow).
Proof.
  intros Hin Hflow.
  unfold AlignedModule.flow_warp_grid, size_4. rewrite Hin.
  cbn [mbind option_bind].
  rewrite (op_Some (TViewCol _) [numel [out_h]; 1]) by done.
  cbn [mbind option_bind].
  rewrite (op_Some (TRepeat [1; out_w] _) [1 * numel [out_h]; out_w * 1]) by done.
  rewrite (op_Some (TRepeat [out_h; 1] _) [out_h * 1; 1 * out_w]) by done.
  cbn [mbind option_bind].
  rewrite (op_Some (TUnsqueeze 2 (TRepeat [out_h; 1] _)) [out_h * 1; 1 * out_w; 1]) by done.
  rewrite (op_Some (TUnsqueeze 2 (TRepeat [1; out_w] _)) [1 * numel [out_h]; out_w * 1; 1]) by done.
  cbn [mbind option_bind].
  rewrite (op_Some _ _ (plane_grid_shape out_h out_w)).
  cbn [mbind option_bind].
  pose proof (base_grid_shape n out_h out_w) as Hb. unfold AlignedModule.base_grid in Hb.
  rewrite (op_Some _ _ Hb).
  cbn [mbind option_bind].
  rewrite (op_Some _ _ (permuted_flow_shape _ _ _ _ Hflow)).
  cbn [mbind option_bind].
  rewrite (op_Some _ _ (scaled_flow_shape _ _ _ _ Hflow)).
  cbn [mbind option_bind].
  apply (op_Some _ _ (sampling_grid_shape _ _ _ _ Hflow)).
Qed.

Lemma bidx_lt (s : shape) (idx : list nat) :
  Forall2 lt idx s -> bidx s idx = idx.
Proof.
  intros H. unfold bidx.
  rewrite (Forall2_length _ _ _ H), Nat.sub_diag, drop_0.
  induction H as [|i d idx s Hlt _ IH]; [done|].
  cbn [zip_with]. rewrite IH. f_equal.
  destruct (Nat.eqb_spec d 1); lia.
Qed.

Local Arguments Nat.modulo : simpl never.
Local Arguments Nat.div : simpl never.

Lemma shape_or_nil_Some t s : shape_of t = Some s -> shape_or_nil t = s.
Proof. unfold shape_or_nil. by intros ->. Qed.

Lemma eval_base_grid n out_h out_w b i j :
  b < n -> i < out_h -> j < out_w ->
  eval radd rdiv rofnat linspace_at oracle (AlignedModule.base_grid n out_h out_w) [b; i; j; 0]
    = linspace_at out_w j
  /\ eval radd rdiv rofnat linspace_at oracle (AlignedModule.base_grid n out_h out_w) [b; i; j; 1]
    = linspace_at out_h i.
Proof.
  intros Hb Hi Hj. unfold AlignedModule.base_grid.
  cbn [eval].
  rewrite (shape_or_nil_Some _ _ (plane_grid_shape out_h out_w)).
  cbn. change (0 mod 2) with 0. change (1 mod 2) with 1. cbn.
  rewrite ?Nat.mul_1_r, ?Nat.div_1_r.
  by rewrite !(Nat.mod_small j out_w), !(Nat.mod_small i out_h) by lia.
Qed.

Lemma eval_scaled_flow flow n out_h out_w b i j :
  shape_of flow = Some [n; 2; out_h; out_w] ->
  b < n -> i < out_h -> j < out_w ->
  let q := TDiv (TPermute [0; 2; 3; 1] flow) (TLiteral4 [out_w; out_h]) in
  eval radd rdiv rofnat linspace_at oracle q [b; i; j; 0]
    = rdiv (eval radd rdiv rofnat linspace_at oracle flow [b; 0; i; j]) (rofnat out_w)
  /\ eval radd rdiv rofnat linspace_at oracle q [b; i; j; 1]
    = rdiv (eval radd rdiv rofnat linspace_at oracle flow [b; 1; i; j]) (rofnat out_h).
Proof.
  intros Hflow Hb Hi Hj q. subst q.
  cbn [eval].
  rewrite (shape_or_nil_Some _ _ (permuted_flow_shape _ _ _ _ Hflow)).
  rewrite (bidx_lt [n; out_h; out_w; 2] [b; i; j; 0]) by (repeat constructor; lia).
  rewrite (bidx_lt [n; out_h; out_w; 2] [b; i; j; 1]) by (repeat constructor; lia).
  by cbn.
Qed.

Lemma eval_sampling_grid flow n out_h out_w b i j :
  shape_of flow = Some [n; 2; out_h; out_w] ->
  b < n -> i < out_h -> j < out_w ->
  eval radd rdiv rofnat linspace_at oracle (AlignedModule.sampling_grid n out_h out_w flow) [b; i; j; 0]
    = radd (linspace_at out_w j)
           (rdiv (eval radd rdiv rofnat linspace_at oracle flow [b; 0; i; j])
                 (rofnat out_w))
  /\ eval radd rdiv rofnat linspace_at oracle (AlignedModule.sampling_grid n out_h out_w flow) [b; i; j; 1]
    = radd (linspace_at out_h i)
           (rdiv (eval radd rdiv rofnat linspace_at oracle flow [b; 1; i; j])
                 (rofnat out_h)).
Proof.
  intros Hflow Hb Hi Hj. unfold AlignedModule.sampling_grid.
  cbn [eval].
  rewrite (shape_or_nil_Some _ _ (base_grid_shape n out_h out_w)).
  rewrite (shape_or_nil_Some _ _ (scaled_flow_shape _ _ _ _ Hflow)).
  rewrite (bidx_lt [n; out_h; out_w; 2] [b; i; j; 0]) by (repeat constructor; lia).
  rewrite (bidx_lt [n; out_h; out_w; 2] [b; i; j; 1]) by (repeat constructor; lia).
  destruct (eval_base_grid n out_h out_w b i j Hb Hi Hj) as [-> ->].
  destruct (eval_scaled_flow flow n out_h out_w b i j Hflow Hb Hi Hj) as [E0 E1].
  cbn zeta in E0, E1. cbn [eval] in E0, E1. by rewrite E0, E1.
Qed.

End GridFacts.

(** *** Shapes of convolutions *)

Lemma conv_out_size_pad1 i k :
  0 < k -> k <= i + 2 -> conv_out_size i k 1 1 1 = Some (i + 3 - k).
Proof.
  intros Hk Hi. unfold conv_out_size.
  destruct (Nat.ltb_spec 0 k); [|lia].
  destruct (Nat.leb_spec (1 * (k - 1) + 1) (i + 2 * 1)); [|lia].
  cbn [andb Nat.ltb Nat.leb]. rewrite Nat.div_1_r. f_equal. lia.
Qed.

Lemma conv_out_size_pointwise i : 0 < i -> conv_out_size i 1 1 0 1 = Some i.
Proof.
  intros Hi. unfold conv_out_size.
  destruct (Nat.leb_spec (1 * (1 - 1) + 1) (i + 2 * 0)); [|lia].
  cbn [andb Nat.ltb Nat.leb]. rewrite Nat.div_1_r. f_equal. lia.
Qed.

Lemma shape_of_cat dim xs :
  shape_of (TCat dim xs) = ss ← mapM shape_of xs; cat_shape dim ss.
Proof.
  reflexivity.
Qed.

Lemma same_except_channels n c c' h w :
  same_except 1 [n; c; h; w] [n; c'; h; w] = true.
Proof. unfold same_except. cbn. by rewrite !Nat.eqb_refl. Qed.

Lemma cat_shape_channels n h w c cs :
  cat_shape 1 (map (fun c => [n; c; h; w]) (c :: cs))
  = Some [n; foldr Nat.add 0 (c :: cs); h; w].
Proof.
  unfold cat_shape. cbn [map length Nat.ltb Nat.leb andb].
  replace (forallb _ _) with true.
  - cbn [insert list_insert]. do 3 f_equal.
    change (foldr (fun s acc => s !!! 1 + acc) 0
                  (map (fun c => [n; c; h; w]) (c :: cs)) = foldr Nat.add 0 (c :: cs)).
    generalize (c :: cs). intros l.
    induction l as [|c' l IH]; [done|]. cbn. by rewrite IH.
  - symmetry. apply forallb_forall. intros s [c' [<- _]]%in_map_iff.
    apply same_except_channels.
Qed.

(** *** Shape of each operator applied to a well-shaped operand *)

Lemma ltb_0 k : 0 < k -> (0 <? k) = true.
Proof. intros. by apply Nat.ltb_lt. Qed.

Lemma shape_conv c x n ch h w h' w' :
  shape_of x = Some [n; ch; h; w] ->
  ch = in_channels c ->
  0 < out_channels c ->
  conv_out_size h (kernel_size c) (stride c) (padding c) (dilation c) = Some h' ->
  conv_out_size w (kernel_size c) (stride c) (padding c) (dilation c) = Some w' ->
  shape_of (TConv c x) = Some [n; out_channels c; h'; w'].
Proof.
  intros Hx -> Hout Hh Hw. cbn [shape_of]. rewrite Hx. cbn [mbind option_bind].
  unfold conv2d_shape. by rewrite Nat.eqb_refl, (ltb_0 _ Hout), Hh, Hw.
Qed.

(** A convolution without output channels raises on every input. *)
Lemma conv_no_output c x : out_channels c = 0 -> op (TConv c x) = None.
Proof.
  intros H0. unfold op. cbn [shape_of]. destruct (shape_of x) as [s|]; [|done].
  cbn [mbind option_bind]. unfold conv2d_shape. rewrite H0.
  destruct s as [|n [|ch [|h [|w [|? ?]]]]]; try done.
  by rewrite andb_false_r.
Qed.

Lemma shape_norm b x n ch h w :
  shape_of x = Some [n; ch; h; w] -> ch = num_features b ->
  shape_of (TNorm b x) = Some [n; ch; h; w].
Proof.
  intros Hx ->. cbn [shape_of]. rewrite Hx. cbn [mbind option_bind].
  unfold norm_shape. by rewrite Nat.eqb_refl.
Qed.

Lemma shape_relu x s : shape_of x = Some s -> shape_of (TReLU x) = Some s.
Proof. done. Qed.

Lemma shape_dropout x s : shape_of x = Some s -> shape_of (TDropout2d x) = Some s.
Proof. done. Qed.

Lemma shape_pool oh ow x n ch h w :
  shape_of x = Some [n; ch; h; w] -> 0 < h -> 0 < w ->
  shape_of (TAdaptiveAvgPool2d oh ow x) = Some [n; ch; oh; ow].
Proof.
  intros Hx Hh Hw. cbn [shape_of]. rewrite Hx. cbn [mbind option_bind].
  unfold pool_shape. by rewrite !ltb_0.
Qed.

Lemma shape_interp oh ow x n ch h w :
  shape_of x = Some [n; ch; h; w] -> 0 < h -> 0 < w -> 0 < oh -> 0 < ow ->
  shape_of (TInterp oh ow x) = Some [n; ch; oh; ow].
Proof.
  intros Hx Hh Hw Hoh How. cbn [shape_of]. rewrite Hx. cbn [mbind option_bind].
  unfold interp_shape. by rewrite !ltb_0.
Qed.

Lemma shape_add_same x y n ch h w :
  shape_of x = Some [n; ch; h; w] -> shape_of y = Some [n; ch; h; w] ->
  shape_of (TAdd x y) = Some [n; ch; h; w].
Proof.
  intros Hx Hy. cbn [shape_of]. rewrite Hx, Hy. cbn [mbind option_bind].
  unfold broadcast. cbn [rev app broadcast_rev]. by rewrite !bdim_refl.
Qed.

Lemma shape_cat_channels xs n h w cs :
  cs <> [] ->
  Forall2 (fun x c => shape_of x = Some [n; c; h; w]) xs cs ->
  shape_of (TCat 1 xs) = Some [n; foldr Nat.add 0 cs; h; w].
Proof.
  intros Hne H. rewrite shape_of_cat.
  assert (E : mapM shape_of xs = Some (map (fun c => [n; c; h; w]) cs)).
  { apply mapM_Some. clear Hne. induction H; constructor; auto. }
  rewrite E. destruct cs as [|c cs]; [done|]. apply cat_shape_channels.
Qed.

(** *** PSPModule *)

Lemma make_stage_priors (f : nat -> path) inplanes out_planes sizes :
  map PSPModule.prior
      (imap (fun i size => PSPModule._make_stage (f i) inplanes out_planes size) sizes)
  = sizes.
Proof.
  revert f. induction sizes as [|z l IH]; intros f; [done|].
  cbn. f_equal. apply (IH (fun i => f (S i))).
Qed.

Section PSPFacts.
Variables (p : path) (inplanes out_planes : nat) (sizes : list nat).
Variables (feats : texp) (n h w : nat).
Hypothesis Hfeats : shape_of feats = Some [n; inplanes; h; w].
Hypothesis Hh : 0 < h.
Hypothesis Hw : 0 < w.
Hypothesis Hsizes : Forall (lt 0) sizes.
Hypothesis Hout : 0 < out_planes.

Let psp_branch := PSPModule.branch feats h w.

Lemma psp_branch_ok q size :
  0 < size ->
  let st := PSPModule._make_stage q inplanes out_planes size in
  (x ← PSPModule.run_stage st feats; op (TInterp h w x)) = Some (psp_branch st)
  /\ shape_of (psp_branch st) = Some [n; out_planes; h; w].
Proof.
  intros Hsz st.
  pose proof (shape_pool size size feats _ _ _ _ Hfeats Hh Hw) as H1.
  pose proof (shape_conv (PSPModule.conv st) _ _ _ _ _ size size H1 eq_refl Hout
                (conv_out_size_pointwise _ Hsz) (conv_out_size_pointwise _ Hsz)) as H2.
  pose proof (shape_norm (PSPModule.bn st) _ _ _ _ _ H2 eq_refl) as H3.
  pose proof (shape_interp h w _ _ _ _ _ H3 Hsz Hsz Hh Hw) as H4.
  split; [|exact H4].
  unfold PSPModule.run_stage, psp_branch, PSPModule.branch in *.
  change (PSPModule.prior st) with size in *.
  rewrite (op_Some _ _ H1). cbn [mbind option_bind].
  rewrite (op_Some _ _ H2). cbn [mbind option_bind].
  rewrite (op_Some _ _ H3). cbn [mbind option_bind].
  apply (op_Some _ _ H4).
Qed.

Let m := PSPModule.init p inplanes out_planes sizes.
Let branches := map psp_branch (PSPModule.stages m).
Let psp_output := PSPModule.output m feats h w.

Lemma psp_stage_made st :
  st ∈ PSPModule.stages m ->
  exists q size, st = PSPModule._make_stage q inplanes out_planes size /\ 0 < size.
Proof.
  intros [i Hi]%list_elem_of_lookup.
  apply list_lookup_imap_Some in Hi as (size & Hsz & ->).
  eexists _, size. split; [done|].
  eapply Forall_lookup_1 in Hsizes; eauto.
Qed.

Lemma psp_stage_priors : map PSPModule.prior (PSPModule.stages m) = sizes.
Proof. apply make_stage_priors. Qed.

Lemma psp_branches_built :
  mapM (fun st => x ← PSPModule.run_stage st feats; op (TInterp h w x))
       (PSPModule.stages m) = Some branches.
Proof.
  apply mapM_Some. subst branches.
  apply Forall2_fmap_r, Forall_Forall2_diag, Forall_forall.
  intros st (q & size & -> & Hsz)%psp_stage_made.
  by apply psp_branch_ok.
Qed.

Lemma psp_branches_shape :
  Forall (fun b => shape_of b = Some [n; out_planes; h; w]) branches.
Proof.
  subst branches. apply Forall_fmap, Forall_forall.
  intros st (q & size & -> & Hsz)%psp_stage_made.
  by apply psp_branch_ok.
Qed.

Lemma psp_branches_length : length branches = length sizes.
Proof.
  subst branches m. by rewrite length_map; cbn; rewrite length_imap.
Qed.

Lemma psp_priors : PSPModule.priors m feats = Some (branches ++ [feats]).
Proof.
  unfold PSPModule.priors, size_at. rewrite Hfeats. cbn [mbind option_bind lookup list_lookup].
  by rewrite psp_branches_built.
Qed.

Lemma foldr_add_replicate k c r : foldr Nat.add r (replicate k c) = k * c + r.
Proof. induction k as [|k IH]; cbn; [done|]. rewrite IH. lia. Qed.

Lemma psp_cat_shape :
  shape_of (TCat 1 (branches ++ [feats]))
  = Some [n; inplanes + length sizes * out_planes; h; w].
Proof.
  rewrite (shape_cat_channels _ n h w (replicate (length sizes) out_planes ++ [inplanes])).
  - rewrite foldr_app, foldr_add_replicate. cbn. do 3 f_equal. lia.
  - by destruct (replicate _ _).
  - apply Forall2_app; [|by repeat constructor].
    rewrite <- psp_branches_length.
    generalize psp_branches_shape. generalize branches. clear.
    induction 1; cbn; constructor; auto.
Qed.

Lemma psp_bottleneck :
  PSPModule.bottleneck m (TCat 1 (branches ++ [feats])) = Some psp_output
  /\ shape_of psp_output = Some [n; out_planes; h + 2; w + 2].
Proof.
  pose proof (shape_conv (PSPModule.bottleneck_conv m) _ _ _ _ _ (h + 2) (w + 2)
                psp_cat_shape eq_refl Hout) as H1.
  specialize (H1 ltac:(rewrite conv_out_size_pad1; [f_equal|..]; cbn; lia)
                 ltac:(rewrite conv_out_size_pad1; [f_equal|..]; cbn; lia)).
  pose proof (shape_norm (PSPModule.bottleneck_bn m) _ _ _ _ _ H1 eq_refl) as H2.
  pose proof (shape_relu _ _ H2) as H3.
  pose proof (shape_dropout _ _ H3) as H4.
  split; [|exact H4].
  unfold PSPModule.bottleneck.
  rewrite (op_Some _ _ H1). cbn [mbind option_bind].
  rewrite (op_Some _ _ H2). cbn [mbind option_bind].
  rewrite (op_Some _ _ H3). cbn [mbind option_bind].
  apply (op_Some _ _ H4).
Qed.

Lemma psp_forward : PSPModule.forward m feats = Some psp_output.
Proof.
  unfold PSPModule.forward. rewrite psp_priors. cbn [mbind option_bind].
  rewrite (op_Some _ _ psp_cat_shape). cbn [mbind option_bind].
  apply psp_bottleneck.
Qed.

End PSPFacts.

(** *** AlignedModule *)

Section AlignedFacts.
Variables (p : path) (inplane outplane k : nat).
Variables (low high : texp) (n h w hh hw : nat).
Hypothesis Hlow : shape_of low = Some [n; inplane; h; w].
Hypothesis Hhigh : shape_of high = Some [n; inplane; hh; hw].
Hypothesis Hh : 0 < h.
Hypothesis Hw : 0 < w.
Hypothesis Hhh : 0 < hh.
Hypothesis Hhw : 0 < hw.
Hypothesis Hk : 0 < k.
Hypothesis Hkh : k <= h + 2.
Hypothesis Hkw : k <= w + 2.
Hypothesis Hout : 0 < outplane.

Let m := AlignedModule.init p inplane outplane k.
Let flow := AlignedModule.flow_field m low high h w.

Lemma forward_flow_ok :
  AlignedModule.forward_flow m low high = Some (flow, (h, w))
  /\ shape_of flow = Some [n; 2; h + 3 - k; w + 3 - k].
Proof.
  pose proof (shape_conv (AlignedModule.down_l m) _ _ _ _ _ h w Hlow eq_refl Hout
        (conv_out_size_pointwise _ Hh) (conv_out_size_pointwise _ Hw)) as H1.
  pose proof (shape_conv (AlignedModule.down_h m) _ _ _ _ _ hh hw Hhigh eq_refl Hout
        (conv_out_size_pointwise _ Hhh) (conv_out_size_pointwise _ Hhw)) as H2.
  pose proof (shape_interp h w _ _ _ _ _ H2 Hhh Hhw Hh Hw) as H3.
  assert (H4 : shape_of (TCat 1 [TInterp h w (TConv (AlignedModule.down_h m) high);
                                 TConv (AlignedModule.down_l m) low])
               = Some [n; outplane + (outplane + 0); h; w]).
  { apply (shape_cat_channels _ n h w [outplane; outplane]); [done|].
    repeat constructor; assumption. }
  assert (H5 : shape_of flow = Some [n; 2; h + 3 - k; w + 3 - k]).
  { apply (shape_conv (AlignedModule.flow_make m) _ _ _ _ _ _ _ H4).
    - cbn. lia.
    - cbn. lia.
    - by apply conv_out_size_pad1.
    - by apply conv_out_size_pad1. }
  split; [|exact H5].
  unfold AlignedModule.forward_flow, size_2. rewrite Hlow.
  cbn [mbind option_bind drop].
  rewrite (op_Some _ _ H1). cbn [mbind option_bind].
  rewrite (op_Some _ _ H2). cbn [mbind option_bind].
  rewrite (op_Some _ _ H3). cbn [mbind option_bind].
  rewrite (op_Some _ _ H4). cbn [mbind option_bind].
  unfold flow, AlignedModule.flow_field in *. by rewrite (op_Some _ _ H5).
Qed.

Hypothesis Hk3 : k = AlignedModule.default_kernel_size.

Lemma forward_flow_default_size : shape_of flow = Some [n; 2; h; w].
Proof.
  destruct forward_flow_ok as [_ ->]. rewrite Hk3.
  unfold AlignedModule.default_kernel_size. do 4 f_equal; [|f_equal]; lia.
Qed.

Lemma aligned_forward_ok :
  let out := TGridSample high (AlignedModule.sampling_grid n h w flow) in
  AlignedModule.forward m (low, high) = Some out
  /\ shape_of out = Some [n; inplane; h; w].
Proof.
  intros out.
  assert (Ho : shape_of out = Some [n; inplane; h; w]).
  { subst out. cbn [shape_of]. rewrite Hhigh.
    rewrite (sampling_grid_shape _ _ _ _ forward_flow_default_size).
    cbn [mbind option_bind]. unfold grid_sample_shape.
    by rewrite !Nat.eqb_refl, !ltb_0. }
  split; [|exact Ho].
  unfold AlignedModule.forward. destruct forward_flow_ok as [-> _].
  cbn [mbind option_bind]. unfold AlignedModule.flow_warp.
  rewrite (flow_warp_grid_ok _ _ _ _ _ _ _ _ Hhigh forward_flow_default_size).
  cbn [mbind option_bind]. apply (op_Some _ _ Ho).
Qed.

End AlignedFacts.

(** *** AlignHead *)

Section HeadFacts.
Variable m : AlignHead.t.

Lemma top_down_app conv_out l1 l2 st :
  AlignHead.top_down m conv_out (l1 ++ l2) st
  = st' ← AlignHead.top_down m conv_out l1 st; AlignHead.top_down m conv_out l2 st'.
Proof.
  revert st. induction l1 as [|i l1 IH]; intros st; [done|].
  cbn [app AlignHead.top_down].
  destruct (AlignHead.level_step m conv_out i st) as [st'|]; [|done].
  cbn [mbind option_bind]. apply IH.
Qed.

Lemma pyramid_cons i x y rest :
  AlignHead.pyramid m i (x :: y :: rest)
  = '(f, coarser) ← AlignHead.pyramid m (S i) (y :: rest);
      '(f, o) ← AlignHead.level m i x f;
      Some (f, o :: coarser).
Proof. reflexivity. Qed.

Lemma top_down_pyramid xs pre :
  (coarsest ← last xs;
     psp_out ← PSPModule.forward (AlignHead.ppm m) coarsest;
     AlignHead.top_down m (pre ++ xs) (rev (seq (length pre) (length xs - 1)))
            (psp_out, [psp_out]))
  = '(f, ps) ← AlignHead.pyramid m (length pre) xs; Some (f, rev ps).
Proof.
  revert pre. induction xs as [|x rest IH]; intros pre; [done|].
  destruct rest as [|y rest].
  { cbn. by destruct (PSPModule.forward _ x). }
  change (last (x :: y :: rest)) with (last (y :: rest)).
  replace (length (x :: y :: rest) - 1) with (S (length (y :: rest) - 1))
      by (cbn; lia).
  cbn [seq rev].
  specialize (IH (pre ++ [x])).
  rewrite length_app, Nat.add_1_r, <- app_assoc in IH. cbn [app] in IH.
  rewrite (pyramid_cons (length pre) x y rest).
  destruct (last (y :: rest)) as [coarsest|]; cbn [mbind option_bind] in IH |- *.
  2: { by destruct (AlignHead.pyramid m (S (length pre)) (y :: rest)) as [[??]|]. }
  destruct (PSPModule.forward _ coarsest) as [psp_out|]; cbn [mbind option_bind] in IH |- *.
  2: { by destruct (AlignHead.pyramid m (S (length pre)) (y :: rest)) as [[??]|]. }
  rewrite top_down_app, IH.
  destruct (AlignHead.pyramid m (S (length pre)) (y :: rest)) as [[f ps]|]; [|done].
  cbn [mbind option_bind AlignHead.top_down AlignHead.level_step].
  rewrite list_lookup_middle by done. cbn [mbind option_bind].
  destruct (AlignHead.level m (length pre) x f) as [[f' o]|]; [|done].
  by cbn.
Qed.

Lemma forward_pyramid conv_out :
  AlignHead.forward m conv_out
  = '(f, ps) ← AlignHead.pyramid m 0 conv_out; AlignHead.fuse m ps.
Proof.
  unfold AlignHead.forward.
  pose proof (top_down_pyramid conv_out []) as H. cbn [app length] in H.
  destruct (last conv_out) as [coarsest|]; cbn [mbind option_bind] in H |- *.
  2: { by destruct (AlignHead.pyramid m 0 conv_out) as [[??]|]. }
  destruct (PSPModule.forward _ coarsest) as [psp_out|]; cbn [mbind option_bind] in H |- *.
  2: { by destruct (AlignHead.pyramid m 0 conv_out) as [[??]|]. }
  rewrite H. destruct (AlignHead.pyramid m 0 conv_out) as [[f ps]|]; [|done].
  cbn [mbind option_bind]. by rewrite rev_involutive.
Qed.

Lemma pyramid_length xs i f ps :
  AlignHead.pyramid m i xs = Some (f, ps) -> length ps = length xs.
Proof.
  revert i f ps. induction xs as [|x rest IH]; intros i f ps H; [done|].
  destruct rest as [|y rest].
  - cbn in H. destruct (PSPModule.forward _ x); [|done]. by injection H as <- <-.
  - rewrite pyramid_cons in H.
    destruct (AlignHead.pyramid m (S i) (y :: rest)) as [[f1 ps1]|] eqn:E; [|done].
    cbn [mbind option_bind] in H.
    destruct (AlignHead.level m i x f1) as [[f2 o]|]; [|done].
    injection H as <- <-. cbn [length]. f_equal. by eapply IH.
Qed.

(** The last (coarsest) level is the pyramid-pooling output of the last
    input. *)
Lemma pyramid_coarsest xs i f ps :
  AlignHead.pyramid m i xs = Some (f, ps) ->
  exists coarsest psp_out,
    last xs = Some coarsest
    /\ PSPModule.forward (AlignHead.ppm m) coarsest = Some psp_out
    /\ last ps = Some psp_out.
Proof.
  revert i f ps. induction xs as [|x rest IH]; intros i f ps H; [done|].
  destruct rest as [|y rest].
  - cbn in H. destruct (PSPModule.forward _ x) as [psp_out|] eqn:E; [|done].
    injection H as <- <-. by exists x, psp_out.
  - rewrite pyramid_cons in H.
    destruct (AlignHead.pyramid m (S i) (y :: rest)) as [[f1 ps1]|] eqn:E; [|done].
    cbn [mbind option_bind] in H.
    destruct (AlignHead.level m i x f1) as [[f2 o]|]; [|done].
    injection H as <- <-.
    destruct (IH _ _ _ E) as (c & psp_out & Hl & Hp & Hps).
    exists c, psp_out. split; [done|]. split; [done|].
    destruct ps1; [done|]. done.
Qed.

End HeadFacts.

(** ** The claims about the decoder *)

(** C1, as stated, fails: with the default [kernel_size] on an 8x8 fine and a
    4x4 coarse feature, [forward] succeeds, but the tensor that the grid
    sample resamples is the original 4x4 coarse feature, not a feature
    upsampled to the 8x8 resolution of [low_feature]. *)
Lemma aligned_forward_warps_original :
  let m := AlignedModule.init [] 4 2 AlignedModule.default_kernel_size in
  ~ AlignedModule.warps_upsampled_coarse m low_8x8 high_4x4
  /\ (exists out,
        AlignedModule.forward m (low_8x8, high_4x4) = Some out
        /\ AlignedModule.warped_operand out = Some high_4x4
        /\ size_2 high_4x4 = Some (4, 4)
        /\ size_2 low_8x8 = Some (8, 8)).
Proof.
  intros m. split.
  - intros (out & h & w & x & Hf & Hs & Hop).
    vm_compute in Hf. injection Hf as <-. cbn in Hop. discriminate.
  - eexists. split; [vm_compute; reflexivity|]. by vm_compute.
Qed.

(** C1, amended: for well-shaped inputs, positive [inplane] and [outplane]
    and the default [kernel_size], [forward] computes the flow field from the channel-wise concatenation of
    the 1x1-convolved coarse feature, bilinearly upsampled to the fine
    resolution, and the 1x1-convolved fine feature; the grid-sample warp is
    applied to the original coarse feature [h_feature_orign] on the sampling
    grid of the fine resolution, so the output has the channels of the coarse
    feature and the spatial size of [low_feature]. *)
Theorem aligned_forward_dataflow (p : path) (inplane outplane : nat)
    (low high : texp) (n h w hh hw : nat) :
  shape_of low = Some [n; inplane; h; w] ->
  shape_of high = Some [n; inplane; hh; hw] ->
  0 < h -> 0 < w -> 0 < hh -> 0 < hw ->
  0 < inplane -> 0 < outplane ->
  let m := AlignedModule.init p inplane outplane AlignedModule.default_kernel_size in
  let flow :=
    TConv (AlignedModule.flow_make m)
          (TCat 1 [TInterp h w (TConv (AlignedModule.down_h m) high);
                   TConv (AlignedModule.down_l m) low]) in
  let out := TGridSample high (AlignedModule.sampling_grid n h w flow) in
  AlignedModule.forward_flow m low high = Some (flow, (h, w))
  /\ AlignedModule.forward m (low, high) = Some out
  /\ AlignedModule.warped_operand out = Some high
  /\ shape_of flow = Some [n; 2; h; w]
  /\ shape_of out = Some [n; inplane; h; w].
Proof.
  intros Hlow Hhigh Hh Hw Hhh Hhw _ Hout m flow out.
  assert (Hk : 0 < AlignedModule.default_kernel_size)
    by (unfold AlignedModule.default_kernel_size; lia).
  assert (Hkh : AlignedModule.default_kernel_size <= h + 2)
    by (unfold AlignedModule.default_kernel_size; lia).
  assert (Hkw : AlignedModule.default_kernel_size <= w + 2)
    by (unfold AlignedModule.default_kernel_size; lia).
  destruct (forward_flow_ok p inplane outplane _ low high n h w hh hw
              Hlow Hhigh Hh Hw Hhh Hhw Hk Hkh Hkw Hout) as [Hflow _].
  destruct (aligned_forward_ok p inplane outplane _ low high n h w hh hw
              Hlow Hhigh Hh Hw Hhh Hhw Hk Hkh Hkw Hout eq_refl) as [Hfwd Hshape].
  pose proof (forward_flow_default_size p inplane outplane _ low high n h w hh hw
                Hlow Hhigh Hh Hw Hhh Hhw Hk Hkh Hkw Hout eq_refl) as Hsz.
  done.
Qed.

Lemma aligned_forward_dataflow_witness :
  shape_of low_8x8 = Some [1; 4; 8; 8]
  /\ shape_of high_4x4 = Some [1; 4; 4; 4]
  /\ 0 < 4 /\ 0 < 2
  /\ (let m := AlignedModule.init [] 4 2 AlignedModule.default_kernel_size in
      let flow :=
        TConv (AlignedModule.flow_make m)
              (TCat 1 [TInterp 8 8 (TConv (AlignedModule.down_h m) high_4x4);
                       TConv (AlignedModule.down_l m) low_8x8]) in
      let out := TGridSample high_4x4 (AlignedModule.sampling_grid 1 8 8 flow) in
      AlignedModule.forward_flow m low_8x8 high_4x4 = Some (flow, (8, 8))
      /\ AlignedModule.forward m (low_8x8, high_4x4) = Some out
      /\ AlignedModule.warped_operand out = Some high_4x4
      /\ shape_of flow = Some [1; 2; 8; 8]
      /\ shape_of out = Some [1; 4; 8; 8]).
Proof.
  split; [reflexivity|]. split; [reflexivity|]. split; [lia|]. split; [lia|].
  apply (aligned_forward_dataflow [] 4 2 low_8x8 high_4x4 1 8 8 4 4);
    first [reflexivity | lia].
Defined.

(** Without output channels the 1x1 convolutions of the module raise. *)
Example aligned_forward_no_outplane :
  AlignedModule.forward (AlignedModule.init [] 4 0 AlignedModule.default_kernel_size)
                        (low_8x8, high_4x4) = None.
Proof. by vm_compute. Qed.

(** The flow field of a module built with [kernel_size = k] has spatial size
    [(h + 3 - k, w + 3 - k)]: the padding of [flow_make] is the constant 1. *)
Lemma flow_size_any_kernel (p : path) (inplane outplane k : nat)
    (low high : texp) (n h w hh hw : nat) :
  shape_of low = Some [n; inplane; h; w] ->
  shape_of high = Some [n; inplane; hh; hw] ->
  0 < h -> 0 < w -> 0 < hh -> 0 < hw ->
  0 < k -> k <= h + 2 -> k <= w + 2 ->
  0 < outplane ->
  exists flow,
    AlignedModule.forward_flow (AlignedModule.init p inplane outplane k) low high
    = Some (flow, (h, w))
    /\ shape_of flow = Some [n; 2; h + 3 - k; w + 3 - k].
Proof.
  intros. eexists. by apply forward_flow_ok with (hh := hh) (hw := hw).
Qed.

(** C2 at [kernel_size = 1]: the flow passed to [flow_warp] is 10x10 while
    [low_feature] is 8x8, and [flow_warp] then fails on the addition of the
    8x8 grid and the 10x10 flow. *)
Lemma flow_size_kernel_1 :
  let m := AlignedModule.init [] 4 2 1 in
  (exists flow,
     AlignedModule.forward_flow m low_8x8 high_4x4 = Some (flow, (8, 8))
     /\ shape_of low_8x8 = Some [1; 4; 8; 8]
     /\ shape_of flow = Some [1; 2; 10; 10])
  /\ AlignedModule.forward m (low_8x8, high_4x4) = None.
Proof.
  intros m. split; [|by vm_compute].
  eexists. split; [vm_compute; reflexivity|]. by vm_compute.
Qed.

(** Iteration [k] of [reversed(range(n))] visits index [n - 1 - k]. *)
Lemma reversed_range_lookup n k : k < n -> rev (seq 0 n) !! k = Some (n - 1 - k).
Proof.
  intros Hk. replace (rev (seq 0 n)) with (reverse (seq 0 n))
    by (unfold reverse; by rewrite <- rev_alt).
  rewrite reverse_lookup by (by rewrite length_seq).
  rewrite length_seq, lookup_seq_lt by lia. f_equal. lia.
Qed.

(** C3: [AlignHead.forward] processes the pyramid from the coarsest level to
    the finest: its loop over [reversed(range(len(conv_out) - 1))] followed
    by the reversal of [fpn_feature_list] computes exactly the level-by-level
    pyramid in which level [len(conv_out) - 1] is the pyramid pooling of
    [conv_out[-1]] and level [i] is built from [conv_out[i]] and level
    [i + 1]; the list handed to the final fusion is in finest-first order,
    one feature per level. *)
Theorem align_head_coarse_to_fine (m : AlignHead.t) (conv_out : list texp) :
  AlignHead.forward m conv_out
  = ('(f, ps) ← AlignHead.pyramid m 0 conv_out; AlignHead.fuse m ps)
  /\ AlignHead.forward m conv_out
     = (coarsest ← last conv_out;
        psp_out ← PSPModule.forward (AlignHead.ppm m) coarsest;
        '(f, l) ← AlignHead.top_down m conv_out
                    (rev (seq 0 (length conv_out - 1))) (psp_out, [psp_out]);
        AlignHead.fuse m (rev l))
  /\ (forall k, k < length conv_out - 1 ->
        rev (seq 0 (length conv_out - 1)) !! k = Some (length conv_out - 2 - k))
  /\ (forall f ps,
        AlignHead.pyramid m 0 conv_out = Some (f, ps) ->
        length ps = length conv_out
        /\ exists coarsest psp_out,
             last conv_out = Some coarsest
             /\ PSPModule.forward (AlignHead.ppm m) coarsest = Some psp_out
             /\ last ps = Some psp_out).
Proof.
  split; [apply forward_pyramid|]. split; [reflexivity|].
  split.
  { intros k Hk. rewrite reversed_range_lookup by done. f_equal. lia. }
  intros f ps H. split; [by eapply pyramid_length|by eapply pyramid_coarsest].
Qed.

Lemma align_head_coarse_to_fine_witness :
  let head := SFSegDecoder.head 512 64 19 in
  AlignHead.forward head [x3; x4; x5]
  = ('(f, ps) ← AlignHead.pyramid head 0 [x3; x4; x5]; AlignHead.fuse head ps)
  /\ rev (seq 0 (length [x3; x4; x5] - 1)) !! 0 = Some 1
  /\ rev (seq 0 (length [x3; x4; x5] - 1)) !! 1 = Some 0.
Proof.
  intros head.
  destruct (align_head_coarse_to_fine head [x3; x4; x5]) as (H1 & _ & H3 & _).
  split; [exact H1|].
  split; [apply (H3 0) | apply (H3 1)]; cbn; lia.
Defined.

(** The head of the decoder on three features of 16x16, 8x8 and 4x4: the
    loop visits index 1, then index 0, and the prediction has the finest
    resolution. *)
Example align_head_three_levels :
  rev (seq 0 (length [x3; x4; x5] - 1)) = [1; 0]
  /\ (r ← AlignHead.forward (SFSegDecoder.head 512 64 19) [x3; x4; x5]; shape_of r)
     = Some [2; 19; 16; 16].
Proof. split; by vm_compute. Qed.

(** C4: the grid passed to [grid_sample] is the normalised base grid
    ([linspace(-1, 1)] along each axis, the [x] coordinate first) plus the
    flow, moved to channels-last, divided by [out_w] in the [x] component
    and by [out_h] in the [y] component. *)
Theorem flow_warp_sampling_grid {R : Type} (radd rdiv : R -> R -> R)
    (rofnat : nat -> R) (linspace_at : nat -> nat -> R)
    (oracle : texp -> list nat -> R)
    (input flow : texp) (n c hi wi out_h out_w : nat) :
  shape_of input = Some [n; c; hi; wi] ->
  0 < hi -> 0 < wi ->
  shape_of flow = Some [n; 2; out_h; out_w] ->
  let value := eval radd rdiv rofnat linspace_at oracle in
  exists grid,
    AlignedModule.flow_warp_grid input flow (out_h, out_w) = Some grid
    /\ AlignedModule.flow_warp input flow (out_h, out_w) = Some (TGridSample input grid)
    /\ shape_of grid = Some [n; out_h; out_w; 2]
    /\ forall b i j, b < n -> i < out_h -> j < out_w ->
         value grid [b; i; j; 0]
         = radd (linspace_at out_w j) (rdiv (value flow [b; 0; i; j]) (rofnat out_w))
         /\ value grid [b; i; j; 1]
         = radd (linspace_at out_h i) (rdiv (value flow [b; 1; i; j]) (rofnat out_h)).
Proof.
  intros Hin Hhi Hwi Hflow value.
  exists (AlignedModule.sampling_grid n out_h out_w flow).
  pose proof (flow_warp_grid_ok input flow n c hi wi out_h out_w Hin Hflow) as Hg.
  pose proof (sampling_grid_shape flow n out_h out_w Hflow) as Hs.
  split; [done|]. split.
  - unfold AlignedModule.flow_warp. rewrite Hg. cbn [mbind option_bind].
    apply (op_Some _ [n; c; out_h; out_w]).
    cbn [shape_of]. rewrite Hin, Hs. cbn [mbind option_bind].
    unfold grid_sample_shape. by rewrite !Nat.eqb_refl, !ltb_0.
  - split; [done|]. intros b i j Hb Hi Hj. by apply eval_sampling_grid.
Qed.

Lemma flow_warp_sampling_grid_witness :
  shape_of high_4x4 = Some [1; 4; 4; 4]
  /\ 0 < 4
  /\ shape_of flow_8x8 = Some [1; 2; 8; 8]
  /\ (let value := eval Qplus Qdiv (fun k => inject_Z (Z.of_nat k)) linspace_Q
                        (fun _ _ => 0%Q) in
      exists grid,
        AlignedModule.flow_warp_grid high_4x4 flow_8x8 (8, 8) = Some grid
        /\ AlignedModule.flow_warp high_4x4 flow_8x8 (8, 8)
           = Some (TGridSample high_4x4 grid)
        /\ shape_of grid = Some [1; 8; 8; 2]
        /\ forall b i j, b < 1 -> i < 8 -> j < 8 ->
             value grid [b; i; j; 0]
             = Qplus (linspace_Q 8 j)
                     (Qdiv (value flow_8x8 [b; 0; i; j]) (inject_Z (Z.of_nat 8)))
             /\ value grid [b; i; j; 1]
             = Qplus (linspace_Q 8 i)
                     (Qdiv (value flow_8x8 [b; 1; i; j]) (inject_Z (Z.of_nat 8)))).
Proof.
  split; [reflexivity|]. split; [lia|]. split; [reflexivity|].
  apply (flow_warp_sampling_grid Qplus Qdiv (fun k => inject_Z (Z.of_nat k)) linspace_Q
           (fun _ _ => 0%Q) high_4x4 flow_8x8 1 4 4 4 8 8);
    first [reflexivity | lia].
Defined.

(** The corner of the grid: at the last row and column of a 3x5 target the
    base grid is [(1, 1)], and the flow is divided by 5 and by 3. *)
Example sampling_grid_corner :
  (g ← AlignedModule.flow_warp_grid high_4x4 (TInput "flow" [1; 2; 3; 5]) (3, 5);
   Some (map (fun idx =>
                Qred (eval Qplus Qdiv (fun k => inject_Z (Z.of_nat k)) linspace_Q
                           (fun t _ => match t with TInput _ _ => 10 | _ => 0 end)%Q
                           g idx))
             [[0; 2; 4; 0]; [0; 2; 4; 1]]))
  = Some [3; 13 # 3]%Q.
Proof. by vm_compute. Qed.

(** C7: for [inplanes > 0] and [out_planes > 0], every pooling stage yields an
    [out_planes]-channel branch upsampled back to [(h, w)]; the branches and
    then the input are concatenated along the channels, so that the
    bottleneck receives [inplanes + len(sizes) * out_planes] channels. *)
Theorem psp_forward_concatenates (p : path) (inplanes out_planes : nat)
    (sizes : list nat) (feats : texp) (n h w : nat) :
  shape_of feats = Some [n; inplanes; h; w] ->
  0 < h -> 0 < w -> Forall (lt 0) sizes ->
  0 < inplanes -> 0 < out_planes ->
  let m := PSPModule.init p inplanes out_planes sizes in
  let branches := map (PSPModule.branch feats h w) (PSPModule.stages m) in
  PSPModule.priors m feats = Some (branches ++ [feats])
  /\ map PSPModule.prior (PSPModule.stages m) = sizes
  /\ length branches = length sizes
  /\ Forall (fun b => shape_of b = Some [n; out_planes; h; w]) branches
  /\ shape_of (TCat 1 (branches ++ [feats]))
     = Some [n; inplanes + length sizes * out_planes; h; w]
  /\ in_channels (PSPModule.bottleneck_conv m) = inplanes + length sizes * out_planes
  /\ PSPModule.forward m feats = PSPModule.bottleneck m (TCat 1 (branches ++ [feats])).
Proof.
  intros Hfeats Hh Hw Hsizes _ Hout m branches. subst m branches.
  split; [exact (psp_priors p _ _ _ _ n _ _ Hfeats Hh Hw Hsizes Hout)|].
  split; [apply psp_stage_priors|].
  split; [apply psp_branches_length|].
  split; [exact (psp_branches_shape p _ _ _ _ n _ _ Hfeats Hh Hw Hsizes Hout)|].
  split; [exact (psp_cat_shape p _ _ _ _ n _ _ Hfeats Hh Hw Hsizes Hout)|].
  split; [done|].
  unfold PSPModule.forward.
  rewrite (psp_priors p inplanes out_planes sizes feats n h w Hfeats Hh Hw Hsizes Hout).
  cbn [mbind option_bind].
  by rewrite (op_Some _ _ (psp_cat_shape p inplanes out_planes sizes feats n h w
                             Hfeats Hh Hw Hsizes Hout)).
Qed.

Lemma psp_forward_concatenates_witness :
  shape_of x5 = Some [2; 512; 4; 4]
  /\ 0 < 4
  /\ Forall (lt 0) [1; 2; 3; 6]
  /\ 0 < 512 /\ 0 < 64
  /\ (let m := PSPModule.init [] 512 64 [1; 2; 3; 6] in
      let branches := map (PSPModule.branch x5 4 4) (PSPModule.stages m) in
      PSPModule.priors m x5 = Some (branches ++ [x5])
      /\ map PSPModule.prior (PSPModule.stages m) = [1; 2; 3; 6]
      /\ length branches = 4
      /\ Forall (fun b => shape_of b = Some [2; 64; 4; 4]) branches
      /\ shape_of (TCat 1 (branches ++ [x5])) = Some [2; 512 + 4 * 64; 4; 4]
      /\ in_channels (PSPModule.bottleneck_conv m) = 512 + 4 * 64
      /\ PSPModule.forward m x5 = PSPModule.bottleneck m (TCat 1 (branches ++ [x5]))).
Proof.
  split; [reflexivity|]. split; [lia|].
  assert (Hs : Forall (lt 0) [1; 2; 3; 6]) by (repeat constructor; lia).
  split; [exact Hs|]. split; [lia|]. split; [lia|].
  apply (psp_forward_concatenates [] 512 64 [1; 2; 3; 6] x5 2 4 4);
    first [reflexivity | lia | exact Hs].
Defined.

(** C8: for [inplanes > 0] and [out_planes > 0], the tensor returned by
    [PSPModule.forward] has spatial size [(h + 2, w + 2)]: the 1x1 bottleneck convolution pads
    by 1. *)
Theorem psp_forward_grows_by_two (p : path) (inplanes out_planes : nat)
    (sizes : list nat) (feats : texp) (n h w : nat) :
  shape_of feats = Some [n; inplanes; h; w] ->
  0 < h -> 0 < w -> Forall (lt 0) sizes ->
  0 < inplanes -> 0 < out_planes ->
  let m := PSPModule.init p inplanes out_planes sizes in
  kernel_size (PSPModule.bottleneck_conv m) = 1
  /\ padding (PSPModule.bottleneck_conv m) = 1
  /\ exists out,
       PSPModule.forward m feats = Some out
       /\ shape_of out = Some [n; out_planes; h + 2; w + 2].
Proof.
  intros Hfeats Hh Hw Hsizes _ Hout m. split; [done|]. split; [done|].
  exists (PSPModule.output m feats h w). split.
  - exact (psp_forward p _ _ _ _ n _ _ Hfeats Hh Hw Hsizes Hout).
  - exact (proj2 (psp_bottleneck p _ _ _ _ n _ _ Hfeats Hh Hw Hsizes Hout)).
Qed.

Lemma psp_forward_grows_by_two_witness :
  shape_of x5 = Some [2; 512; 4; 4]
  /\ 0 < 4
  /\ Forall (lt 0) [1; 2; 3; 6]
  /\ 0 < 512 /\ 0 < 64
  /\ (let m := PSPModule.init [] 512 64 [1; 2; 3; 6] in
      kernel_size (PSPModule.bottleneck_conv m) = 1
      /\ padding (PSPModule.bottleneck_conv m) = 1
      /\ exists out,
           PSPModule.forward m x5 = Some out
           /\ shape_of out = Some [2; 64; 4 + 2; 4 + 2]).
Proof.
  split; [reflexivity|]. split; [lia|].
  assert (Hs : Forall (lt 0) [1; 2; 3; 6]) by (repeat constructor; lia).
  split; [exact Hs|]. split; [lia|]. split; [lia|].
  apply (psp_forward_grows_by_two [] 512 64 [1; 2; 3; 6] x5 2 4 4);
    first [reflexivity | lia | exact Hs].
Defined.

(** Without output channels the stage convolutions raise. *)
Example psp_forward_no_out_planes :
  PSPModule.forward (PSPModule.init [] 512 0 [1; 2; 3; 6]) x5 = None.
Proof. by vm_compute. Qed.

End SfnetFacts.

(** * Facts about the initialisers *)

Module InitializerFacts.
Import Initializer.

Section MonadFacts.
Context {S : Type}.

Lemma supported_ret {A} (a : A) : supported (mret a : M S A).
Proof. by intros s e s' [=]. Qed.

Lemma supported_bind {A B} (m : M S A) (k : A -> M S B) :
  supported m -> (forall a, supported (k a)) -> supported (m ≫= k).
Proof.
  intros Hm Hk s e s' H. unfold mbind, M_bind in H.
  destruct (m s) as [[e1|a] s1] eqn:E.
  - injection H as <- <-. by eapply Hm.
  - by eapply Hk.
Qed.

Lemma supported_raise {A} (e : exn) :
  (forall msg, e <> NotImplementedError msg) -> supported (raise e : M S A).
Proof. by intros He s e' s' [= <- <-]. Qed.

Lemma supported_lift_option {A} (e : exn) (o : option A) :
  (forall msg, e <> NotImplementedError msg) -> supported (lift_option e o : M S A).
Proof.
  intros He. destruct o; [apply supported_ret | by apply supported_raise].
Qed.

Lemma supported_for_each {A} (f : A -> M S unit) (l : list A) :
  (forall x, supported (f x)) -> supported (for_each f l).
Proof.
  intros Hf. induction l as [|x l IH]; cbn [for_each].
  - apply supported_ret.
  - apply supported_bind; auto.
Qed.

Lemma supported_total {A} (f : S -> A * S) :
  supported (fun s => let '(a, s') := f s in (inr a, s')).
Proof. intros s e s' H. by destruct (f s). Qed.
End MonadFacts.

Section TorchFacts.
Context {F G : Type} `{RT : Runtime F G}.

Lemma supported_data_of p : supported (S := tstate F G) (data_of p).
Proof. by intros s e s' [=]. Qed.

Lemma supported_set_data p t : supported (S := tstate F G) (set_data p t).
Proof. by intros s e s' [=]. Qed.

Lemma supported_constant_ p v : supported (S := tstate F G) (constant_ p v).
Proof.
  apply supported_bind; [apply supported_data_of|]. intros t. apply supported_set_data.
Qed.

Lemma supported_normal_ p mean std : supported (S := tstate F G) (normal_ p mean std).
Proof.
  unfold normal_. destruct (std_ok std).
  - intros s e s' H. by destruct (draws _ _).
  - by apply supported_raise.
Qed.

Lemma supported_focal_constant p : supported (S := tstate F G) (focal_constant p).
Proof.
  intros s e s' [= He <-] msg. unfold focal_value in He.
  destruct (py_div _ _); [|by injection He as <-].
  destruct (py_log _); [done|by injection He as <-].
Qed.

Lemma supported_range_step n step : supported (S := tstate F G) (range_step n step).
Proof.
  unfold range_step. destruct (step =? 0)%Z; [by apply supported_raise|].
  destruct (step <? 0)%Z; apply supported_ret.
Qed.

Lemma supported_softmax_slot b p nc i : supported (S := tstate F G) (softmax_slot b p nc i).
Proof.
  apply supported_bind; [apply supported_data_of|]. intros t.
  apply supported_bind; [by apply supported_lift_option|]. intros v.
  apply supported_bind; [apply supported_data_of|]. intros t'.
  apply supported_set_data.
Qed.

Lemma supported_bias_data m : supported (S := tstate F G) (bias_data m).
Proof. by apply supported_lift_option. Qed.

(** Neither recognised branch raises [NotImplementedError]. *)
Lemma supported_sigmoid module p nc :
  supported (S := tstate F G) (init_bias_focal module "sigmoid" p nc).
Proof.
  cbn. apply supported_for_each. intros m. unfold sigmoid_layer.
  destruct (is_conv_linear (kind m)); [|apply supported_ret].
  apply supported_bind; [apply supported_bias_data|]. intros b.
  apply supported_bind; [apply supported_focal_constant|]. intros c.
  apply supported_bind; [apply supported_normal_|]. intros _.
  apply supported_bind; [apply supported_focal_constant|]. intros c'.
  apply supported_constant_.
Qed.

Lemma supported_softmax module p nc :
  supported (S := tstate F G) (init_bias_focal module "softmax" p nc).
Proof.
  cbn. apply supported_for_each. intros m. unfold softmax_layer.
  destruct (is_conv_linear (kind m)); [|apply supported_ret].
  apply supported_bind; [apply supported_bias_data|]. intros b.
  apply supported_bind; [apply supported_normal_|]. intros _.
  apply supported_bind; [apply supported_data_of|]. intros t.
  apply supported_bind; [apply supported_range_step|]. intros idxs.
  apply supported_for_each. intros i. apply supported_softmax_slot.
Qed.

Lemma unsupported_raises module cls p nc s :
  cls <> "sigmoid" -> cls <> "softmax" ->
  init_bias_focal module cls p nc s
  = (inl (NotImplementedError (String.append cls " is not supported")), s).
Proof.
  intros H1 H2. unfold init_bias_focal.
  destruct (String.eqb_spec cls "sigmoid"); [done|].
  by destruct (String.eqb_spec cls "softmax").
Qed.

(** *** The sigmoid branch *)

Lemma for_each_cons {S A} (f : A -> M S unit) x l s :
  for_each f (x :: l) s
  = match f x s with
    | (inr _, s1) => for_each f l s1
    | (inl e, s1) => (inl e, s1)
    end.
Proof. reflexivity. Qed.

Lemma draws_length k (g : G) : length (draws k g).1 = k.
Proof.
  revert g. induction k as [|k IH]; intros g; [done|].
  cbn [draws]. destruct (gauss g) as [z g1]. specialize (IH g1).
  destruct (draws k g1) as [zs g2]. cbn in *. by rewrite IH.
Qed.

(** What one iteration of the sigmoid loop does to the state. *)
Lemma sigmoid_layer_run p m (s : tstate F G) :
  sigmoid_layer p m s =
  if is_conv_linear (kind m) then
    match bias m with
    | None => (inl none_has_no_data, s)
    | Some b =>
        match focal_value p with
        | inl e => (inl e, s)
        | inr c =>
            if std_ok p
            then (inr (),
                  mkTState (<[b := fill c (params s !!! b)]> (params s))
                           (draws (length (tdata (params s !!! b))) (gen s)).2)
            else (inl RuntimeError, s)
        end
    end
  else (inr (), s).
Proof.
  unfold sigmoid_layer. destruct (is_conv_linear (kind m)); [|done].
  unfold bias_data. destruct (bias m) as [b|]; [|done].
  unfold mbind, M_bind, lift_option, mret, M_ret, focal_constant.
  destruct (focal_value p) as [e|c]; [done|].
  unfold normal_. destruct (std_ok p); [|done].
  pose proof (draws_length (length (tdata (params s !!! b))) (gen s)) as Hlen.
  destruct (draws _ _) as [zs g]. cbn in Hlen |- *.
  unfold constant_, mbind, M_bind, data_of, set_data. cbn.
  rewrite lookup_total_insert_eq, insert_insert_eq. unfold fill. cbn.
  by rewrite length_map, Hlen.
Qed.

Lemma fill_layout c (t t0 : tensor F) :
  tshape t = tshape t0 -> length (tdata t) = length (tdata t0) -> fill c t = fill c t0.
Proof. unfold fill. by intros -> ->. Qed.

Lemma same_layout_fill (c : F) (ps0 ps : gmap nat (tensor F)) b :
  same_layout ps0 ps -> same_layout ps0 (<[b := fill c (ps !!! b)]> ps).
Proof.
  intros H b'. destruct (decide (b = b')) as [<-|Hne].
  - rewrite lookup_total_insert_eq. cbn. rewrite length_replicate. apply H.
  - rewrite lookup_total_insert_ne by done. apply H.
Qed.

Lemma sigmoid_loop_filled p c module :
  focal_value p = inr c ->
  forall (s s' : tstate F G) (ps0 : gmap nat (tensor F)),
    for_each (sigmoid_layer p) module s = (inr (), s') ->
    same_layout ps0 (params s) ->
    same_layout ps0 (params s')
    /\ (forall b, params s !! b = Some (fill c (ps0 !!! b)) ->
                  params s' !! b = Some (fill c (ps0 !!! b)))
    /\ (forall m, m ∈ module -> is_conv_linear (kind m) = true ->
          exists b, bias m = Some b /\ params s' !! b = Some (fill c (ps0 !!! b))).
Proof.
  intros Hc. induction module as [|m module IH]; intros s s' ps0 Hrun Hlay.
  { injection Hrun as <-. split; [done|]. split; [done|]. by intros m ?%elem_of_nil. }
  rewrite for_each_cons, sigmoid_layer_run in Hrun.
  destruct (is_conv_linear (kind m)) eqn:Hk.
  - destruct (bias m) as [b|] eqn:Hb; [|done]. rewrite Hc in Hrun.
    destruct (std_ok p); [|done].
    destruct (IH _ _ ps0 Hrun) as (Hlay' & Hkeep & Hall).
    { by apply same_layout_fill. }
    assert (Hnew : params s' !! b = Some (fill c (ps0 !!! b))).
    { apply Hkeep. cbn. rewrite lookup_insert_eq. f_equal.
      apply fill_layout; apply Hlay. }
    split; [done|]. split.
    + intros b' Hb'. apply Hkeep. cbn.
      destruct (decide (b = b')) as [<-|Hne].
      * rewrite lookup_insert_eq. f_equal. apply fill_layout; apply Hlay.
      * by rewrite lookup_insert_ne.
    + intros m' [->|Hin]%elem_of_cons Hk'; [by exists b|by apply Hall].
  - destruct (IH _ _ ps0 Hrun Hlay) as (Hlay' & Hkeep & Hall).
    split; [done|]. split; [done|].
    intros m' [->|Hin]%elem_of_cons Hk'; [congruence|by apply Hall].
Qed.

(** The outcome and the parameters do not depend on the generator. *)
Lemma sigmoid_loop_generator p module (s : tstate F G) g :
  let r := for_each (sigmoid_layer p) module s in
  let r' := for_each (sigmoid_layer p) module (mkTState (params s) g) in
  r'.1 = r.1 /\ params r'.2 = params r.2.
Proof.
  revert s g. induction module as [|m module IH]; intros s g; [done|].
  cbn zeta. rewrite !for_each_cons, !sigmoid_layer_run. cbn [params gen].
  destruct (is_conv_linear (kind m)); [|apply IH].
  destruct (bias m) as [b|]; [|done].
  destruct (focal_value p) as [e|c]; [done|].
  destruct (std_ok p); [|done].
  apply (IH (mkTState _ _)).
Qed.

(** *** Configuration dictionaries *)

Section CfgFacts.
Variable registry : gmap string (initializer (F := F) (G := G)).

Lemma lift_t_heap {A} (m : M (tstate F G) A) (w : @world F G) :
  heap (lift_t m w).2 = heap w.
Proof. unfold lift_t. by destruct (m (tensors w)). Qed.

Lemma fresh_cfg_address (w : @world F G) a d :
  heap w !! a = Some d -> fresh (dom (heap w)) <> a.
Proof.
  intros H Heq. apply (is_fresh (dom (heap w))). rewrite Heq.
  apply elem_of_dom. by exists d.
Qed.

(** A configuration without ['method']: the copy is made, [pop] raises, and
    nothing else happens. *)
Lemma missing_method_run model (w : @world F G) a d :
  heap w !! a = Some d -> d !! "method" = None ->
  initialize_from_cfg registry model (Some a) w
  = (inl (KeyError "method"),
     mkWorld (tensors w) (<[fresh (dom (heap w)) := d]> (heap w))).
Proof.
  intros Ha Hd. unfold initialize_from_cfg, mbind, M_bind, deepcopy, dict_pop.
  cbn [heap tensors]. rewrite lookup_total_insert_eq.
  rewrite (lookup_total_correct _ _ _ Ha). by rewrite Hd.
Qed.

(** The dictionary passed by the caller is the same after the call. *)
Lemma caller_cfg_kept model (w : @world F G) a d :
  heap w !! a = Some d ->
  heap (initialize_from_cfg registry model (Some a) w).2 !! a = Some d.
Proof.
  intros Ha. pose proof (fresh_cfg_address w a d Ha) as Hfresh.
  unfold initialize_from_cfg, mbind, M_bind, deepcopy, dict_pop, dict_items.
  cbn [heap tensors]. rewrite lookup_total_insert_eq.
  rewrite (lookup_total_correct _ _ _ Ha).
  destruct (d !! "method") as [method|].
  - cbn [heap tensors]. rewrite insert_insert_eq, lookup_total_insert_eq.
    case_bool_decide.
    + cbn. by rewrite lookup_insert_ne.
    + rewrite lift_t_heap. cbn. by rewrite lookup_insert_ne.
  - cbn. by rewrite lookup_insert_ne.
Qed.

Lemma none_cfg_heap model (w : @world F G) :
  heap (initialize_from_cfg registry model None w).2 = heap w.
Proof. apply lift_t_heap. Qed.
End CfgFacts.

End TorchFacts.

(** ** The claims about the initialisers *)

(** C5: [init_bias_focal] raises [NotImplementedError] if and only if
    [cls_loss_type] is neither ['sigmoid'] nor ['softmax']; the error names
    the given string and the state is the one before the call. *)
Theorem focal_unsupported_loss_type {F G : Type} `{RT : Runtime F G}
    (module : list submodule) (cls_loss_type : string) (init_prior : F)
    (num_classes : Z) (s : tstate F G) :
  ((exists msg s',
      init_bias_focal module cls_loss_type init_prior num_classes s
      = (inl (NotImplementedError msg), s'))
   <-> (cls_loss_type <> "sigmoid" /\ cls_loss_type <> "softmax"))
  /\ (cls_loss_type <> "sigmoid" /\ cls_loss_type <> "softmax" ->
      init_bias_focal module cls_loss_type init_prior num_classes s
      = (inl (NotImplementedError (String.append cls_loss_type " is not supported")), s)).
Proof.
  split.
  - split.
    + intros (msg & s' & Hrun).
      destruct (decide (cls_loss_type = "sigmoid")) as [->|H1].
      { by destruct (supported_sigmoid module init_prior num_classes _ _ _ Hrun msg). }
      destruct (decide (cls_loss_type = "softmax")) as [->|H2]; [|done].
      by destruct (supported_softmax module init_prior num_classes _ _ _ Hrun msg).
    + intros [H1 H2]. eexists _, _. by apply unsupported_raises.
  - intros [H1 H2]. by apply unsupported_raises.
Qed.

Lemma focal_unsupported_loss_type_witness :
  init_bias_focal example_model "focal" example_prior 80 example_state
  = (inl (NotImplementedError "focal is not supported"), example_state).
Proof.
  apply (proj2 (focal_unsupported_loss_type example_model "focal" example_prior 80
                  example_state)).
  split; discriminate.
Defined.

(** The sigmoid and softmax branches on the example model, and an unknown
    loss type, which leaves the state as it was.  With three classes both
    biases (of two and of three elements) have a value after each slot; with
    two, slot 2 of the three-element bias takes the logarithm of an empty
    sum; with [init_prior = 1] the sigmoid branch takes the logarithm of
    zero. *)
Example focal_on_example_model :
  (init_bias_focal (RT := symbolic_runtime) example_model "sigmoid"
                   example_prior 80 example_state).1 = inr ()
  /\ (init_bias_focal (RT := symbolic_runtime) example_model "softmax"
                      example_prior 3 example_state).1 = inr ()
  /\ (init_bias_focal (RT := symbolic_runtime) example_model "softmax"
                      example_prior 2 example_state).1 = inl ValueError
  /\ (init_bias_focal (RT := symbolic_runtime) example_model "sigmoid"
                      (FLit 1) 80 example_state).1 = inl ValueError
  /\ (init_bias_focal (RT := symbolic_runtime) example_model "sigmoid"
                      (FLit 0) 80 example_state).1 = inl ZeroDivisionError
  /\ init_bias_focal (RT := symbolic_runtime) example_model "focal"
                     example_prior 80 example_state
     = (inl (NotImplementedError "focal is not supported"), example_state).
Proof. repeat split; by vm_compute. Qed.

Lemma focal_value_inr {F G : Type} `{RT : Runtime F G} (init_prior c : F) :
  focal_value init_prior = inr c ->
  exists q l, py_div (lit 1) init_prior = Some q
              /\ py_log (fsub q (lit 1)) = Some l
              /\ c = fneg l.
Proof.
  unfold focal_value. destruct (py_div _ _) as [q|]; [|done].
  destruct (py_log (fsub q (lit 1))) as [l|] eqn:Hl; [|done].
  intros [= <-]. by exists q, l.
Qed.

(** C9: after [init_bias_focal] returns in the sigmoid case, the bias of
    every [Conv2d] and [Linear] sub-module holds the constant
    [-log(1.0 / init_prior - 1.0)] in every element: the quotient [q] of
    [1.0] by [init_prior], the logarithm [l] of [q - 1.0], negated; and this
    whatever the state of the random generator was. *)
Theorem focal_sigmoid_bias_constant {F G : Type} `{RT : Runtime F G}
    (module : list submodule) (init_prior : F) (num_classes : Z)
    (s : tstate F G) (m : submodule) :
  (init_bias_focal module "sigmoid" init_prior num_classes s).1 = inr () ->
  m ∈ module ->
  is_conv_linear (kind m) = true ->
  let s' := (init_bias_focal module "sigmoid" init_prior num_classes s).2 in
  exists b q l,
    bias m = Some b
    /\ py_div (lit 1) init_prior = Some q
    /\ py_log (fsub q (lit 1)) = Some l
    /\ tdata (params s' !!! b)
       = replicate (length (tdata (params s !!! b))) (fneg l)
    /\ tshape (params s' !!! b) = tshape (params s !!! b)
    /\ forall g : G,
         let r := init_bias_focal module "sigmoid" init_prior num_classes
                                  (mkTState (params s) g) in
         r.1 = inr () /\ params r.2 = params s'.
Proof.
  intros Hok Hm Hk s'. subst s'.
  change (init_bias_focal module "sigmoid" init_prior num_classes)
    with (for_each (sigmoid_layer init_prior) module) in *.
  destruct (for_each (sigmoid_layer init_prior) module s) as [r s'] eqn:Hrun.
  cbn [fst snd] in Hok |- *. subst r.
  assert (Hc : exists c, focal_value init_prior = inr c).
  { clear -Hrun Hm Hk. revert s Hrun.
    induction module as [|m0 module IH]; intros s Hrun; [by apply elem_of_nil in Hm|].
    rewrite for_each_cons, sigmoid_layer_run in Hrun.
    apply elem_of_cons in Hm as [->|Hm].
    - rewrite Hk in Hrun. destruct (bias m0); [|done].
      destruct (focal_value init_prior) as [e|c]; [done|by exists c].
    - destruct (is_conv_linear (kind m0)); [|by eapply IH].
      destruct (bias m0); [|done].
      destruct (focal_value init_prior) as [e|c]; [done|by exists c]. }
  destruct Hc as [c Hc].
  destruct (sigmoid_loop_filled init_prior c module Hc s s' (params s) Hrun)
    as (Hlay & _ & Hall); [done|].
  destruct (Hall m Hm Hk) as (b & Hb & Hfill).
  destruct (focal_value_inr init_prior c Hc) as (q & l & Hq & Hl & ->).
  exists b, q, l. split; [done|]. split; [done|]. split; [done|].
  rewrite (lookup_total_correct _ _ _ Hfill). split; [done|]. split; [done|].
  intros g.
  pose proof (sigmoid_loop_generator init_prior module s g) as Hgen.
  cbn zeta in Hgen. rewrite Hrun in Hgen. exact Hgen.
Qed.

Lemma focal_sigmoid_bias_constant_witness :
  (init_bias_focal (RT := symbolic_runtime) example_model "sigmoid"
                   example_prior 80 example_state).1 = inr ()
  /\ (mkSub Linear (Some 4) (Some 5) ∈ example_model)
  /\ is_conv_linear Linear = true
  /\ (let s' := (init_bias_focal (RT := symbolic_runtime) example_model "sigmoid"
                                 example_prior 80 example_state).2 in
      exists b q l,
        Some 5 = Some b
        /\ py_div (Runtime := symbolic_runtime) (lit 1) example_prior = Some q
        /\ py_log (Runtime := symbolic_runtime) (fsub q (lit 1)) = Some l
        /\ tdata (params s' !!! b)
           = replicate (length (tdata (params example_state !!! b))) (fneg l)
        /\ tshape (params s' !!! b) = tshape (params example_state !!! b)
        /\ forall g : nat,
             let r := init_bias_focal (RT := symbolic_runtime) example_model "sigmoid"
                                      example_prior 80
                                      (mkTState (params example_state) g) in
             r.1 = inr () /\ params r.2 = params s').
Proof.
  assert (Hin : mkSub Linear (Some 4) (Some 5) ∈ example_model).
  { unfold example_model. repeat constructor. }
  split; [vm_compute; reflexivity|]. split; [exact Hin|]. split; [reflexivity|].
  apply (focal_sigmoid_bias_constant (RT := symbolic_runtime) example_model
           example_prior 80 example_state (mkSub Linear (Some 4) (Some 5)));
    [vm_compute; reflexivity | exact Hin | reflexivity].
Defined.

(** The constant on the example: [-log(1.0 / 0.01 - 1.0)], in both biases. *)
Example focal_sigmoid_example :
  let s' := (init_bias_focal (RT := symbolic_runtime) example_model "sigmoid"
                             example_prior 80 example_state).2 in
  let c := FNeg (FLog (FSub (FDiv (FLit 1) (FLit (1 # 100))) (FLit 1))) in
  tdata (params s' !!! 1) = [c; c]
  /\ tdata (params s' !!! 5) = [c; c; c]
  /\ tdata (params s' !!! 3) = [FLit 0; FLit 0]
  /\ gen s' = 5.
Proof. repeat split; by vm_compute. Qed.

(** C10: [initialize_from_cfg] leaves the dictionary of the caller as it
    was: [pop] acts on the deep copy. *)
Theorem initialize_from_cfg_keeps_cfg {F G : Type} `{RT : Runtime F G}
    (registry : gmap string (initializer (F := F) (G := G)))
    (model : list submodule) (w : @world F G) (a : nat)
    (d : gmap string (pyval F)) :
  heap w !! a = Some d ->
  heap (initialize_from_cfg registry model (Some a) w).2 !! a = Some d.
Proof. apply caller_cfg_kept. Qed.

Lemma initialize_from_cfg_keeps_cfg_witness :
  heap (example_world example_cfg_focal) !! 7 = Some example_cfg_focal
  /\ heap (initialize_from_cfg example_registry example_model (Some 7)
                               (example_world example_cfg_focal)).2 !! 7
     = Some example_cfg_focal.
Proof.
  split; [reflexivity|].
  apply (initialize_from_cfg_keeps_cfg (RT := symbolic_runtime) example_registry
           example_model (example_world example_cfg_focal) 7 example_cfg_focal).
  reflexivity.
Defined.

(** On the example the focal initialiser runs on the model, and the copy
    that lost ['method'] is a different dictionary. *)
Example initialize_from_cfg_example :
  let r := initialize_from_cfg example_registry example_model (Some 7)
                               (example_world example_cfg_focal) in
  r.1 = inr ()
  /\ heap r.2 !! 8 = Some (delete "method" example_cfg_focal)
  /\ tdata (params (tensors r.2) !!! 5)
     = replicate 3 (FNeg (FLog (FSub (FDiv (FLit 1) (FLit (1 # 100))) (FLit 1)))).
Proof. repeat split; by vm_compute. Qed.

End InitializerFacts.

(** * Facts about the [to_adela] sub-command *)

Module ToAdelaFacts.
Import ToAdelaCmd.

Lemma config_is_required :
  exists c, find_flag add_subparser "--config" = Some c
            /\ required c = true /\ dest c = "config".
Proof. eexists. by vm_compute. Qed.

Lemma flag_of_config d tok :
  find_flag add_subparser tok = Some d -> tok <> "--config" -> dest d <> "config".
Proof.
  unfold find_flag, add_subparser. cbn [find flag].
  repeat match goal with
         | |- context [String.eqb ?a tok] =>
             destruct (String.eqb_spec a tok) as [<-|_];
             [intros [= <-] Hne; cbn; first [congruence | discriminate] | ]
         end.
  done.
Qed.

Lemma find_flag_spec decls tok d :
  find_flag decls tok = Some d -> d ∈ decls /\ flag d = tok.
Proof.
  unfold find_flag. intros [Hin Heq]%find_some.
  split; [by apply list_elem_of_In|by apply String.eqb_eq].
Qed.

Lemma classify_flag decls tok d :
  classify decls tok = Flag d -> find_flag decls tok = Some d.
Proof.
  unfold classify. destruct (find_flag decls tok) as [d'|]; [by intros [= ->]|].
  by destruct (_ && _).
Qed.

(** The scan writes only destinations of flags that occur on the command
    line. *)
Lemma scan_untouched decls k argv :
  (forall tok d, tok ∈ argv -> find_flag decls tok = Some d -> dest d <> k) ->
  forall ns extras ns' extras',
    scan decls argv ns extras = Done (ns', extras') -> ns' !! k = ns !! k.
Proof.
  induction argv as [argv IH] using (induction_ltof1 _ (@length string)).
  unfold ltof in IH. intros Hk ns extras ns' extras' Hscan.
  destruct argv as [|tok rest]; [by injection Hscan as <- <-|].
  cbn [scan] in Hscan.
  destruct (classify decls tok) as [d| |] eqn:Hc; [| |done].
  - apply classify_flag in Hc.
    assert (Hdest : dest d <> k) by (apply (Hk tok); [by left|done]).
    destruct (act d).
    + destruct (arity d).
      * destruct rest as [|v rest']; [done|].
        destruct (classify decls v); [done| |done].
        rewrite (IH rest' ltac:(cbn; lia) ltac:(intros t d' Ht; apply Hk; by do 2 right)
                   _ _ _ _ Hscan).
        by apply lookup_insert_ne.
      * injection Hscan as <- <-. by apply lookup_insert_ne.
    + rewrite (IH rest ltac:(cbn; lia) ltac:(intros t d' Ht; apply Hk; by right)
                 _ _ _ _ Hscan).
      by apply lookup_insert_ne.
  - apply (IH rest ltac:(cbn; lia) ltac:(intros t d' Ht; apply Hk; by right)
              _ _ _ _ Hscan).
Qed.

(** Whatever the scan stores under [config] is a string. *)
Lemma scan_config_is_string argv :
  forall ns extras ns' extras',
    (forall v, ns !! "config" = Some v -> exists p, v = AStr p) ->
    scan add_subparser argv ns extras = Done (ns', extras') ->
    forall v, ns' !! "config" = Some v -> exists p, v = AStr p.
Proof.
  induction argv as [argv IH] using (induction_ltof1 _ (@length string)).
  unfold ltof in IH. intros ns extras ns' extras' Hns Hscan.
  destruct argv as [|tok rest]; [by injection Hscan as <- <-|].
  cbn [scan] in Hscan.
  destruct (classify add_subparser tok) as [d| |] eqn:Hc; [| |done].
  - apply classify_flag in Hc.
    destruct (decide (tok = "--config")) as [->|Hne].
    + change (find_flag add_subparser "--config")
        with (Some (mkArg "--config" "config" true ANone Store OneValue)) in Hc.
      injection Hc as <-. cbn [act arity dest] in Hscan.
      destruct rest as [|p rest']; [done|].
      destruct (classify add_subparser p); [done| |done].
      apply (IH rest' ltac:(cbn; lia) _ _ _ _) with (2 := Hscan).
      intros v. rewrite lookup_insert_eq. intros [= <-]. by exists p.
    + pose proof (flag_of_config d tok Hc Hne) as Hdest.
      destruct (act d).
      * destruct (arity d).
        -- destruct rest as [|p rest']; [done|].
           destruct (classify add_subparser p); [done| |done].
           apply (IH rest' ltac:(cbn; lia) _ _ _ _) with (2 := Hscan).
           intros v. rewrite lookup_insert_ne by done. apply Hns.
        -- injection Hscan as <- <-. intros v. rewrite lookup_insert_ne by done.
           apply Hns.
      * apply (IH rest ltac:(cbn; lia) _ _ _ _) with (2 := Hscan).
        intros v. rewrite lookup_insert_ne by done. apply Hns.
  - by apply (IH rest ltac:(cbn; lia) _ _ _ _) with (2 := Hscan).
Qed.

(** The scan leaves the model only at a word that is [Other], and its only
    usage error is a flag without its value. *)
Lemma scan_outside decls argv :
  forall ns extras t,
    scan decls argv ns extras = Outside t -> t ∈ argv /\ classify decls t = Other.
Proof.
  induction argv as [argv IH] using (induction_ltof1 _ (@length string)).
  unfold ltof in IH. intros ns extras t Hscan.
  destruct argv as [|tok rest]; [done|].
  cbn [scan] in Hscan.
  destruct (classify decls tok) as [d| |] eqn:Hc.
  - destruct (act d).
    + destruct (arity d); [|done].
      destruct rest as [|v rest']; [done|].
      destruct (classify decls v) eqn:Hv; [done| |].
      * destruct (IH rest' ltac:(cbn; lia) _ _ _ Hscan) as [Hin Ht].
        split; [by do 2 right|done].
      * injection Hscan as <-. split; [right; by left|done].
    + destruct (IH rest ltac:(cbn; lia) _ _ _ Hscan) as [Hin Ht].
      split; [by right|done].
  - destruct (IH rest ltac:(cbn; lia) _ _ _ Hscan) as [Hin Ht].
    split; [by right|done].
  - injection Hscan as <-. split; [by left|done].
Qed.

Lemma scan_usage decls argv :
  forall ns extras e,
    scan decls argv ns extras = Usage e ->
    exists tok, tok ∈ argv /\ e = ExpectedOneArgument tok.
Proof.
  induction argv as [argv IH] using (induction_ltof1 _ (@length string)).
  unfold ltof in IH. intros ns extras e Hscan.
  destruct argv as [|tok rest]; [done|].
  cbn [scan] in Hscan.
  destruct (classify decls tok) as [d| |] eqn:Hc; [| |done].
  - destruct (act d).
    + destruct (arity d); [|done].
      destruct rest as [|v rest']; [injection Hscan as <-; exists tok; by split; [left|]|].
      destruct (classify decls v) eqn:Hv; [| |done].
      * injection Hscan as <-. exists tok. by split; [left|].
      * destruct (IH rest' ltac:(cbn; lia) _ _ _ Hscan) as (t & Hin & ->).
        exists t. split; [by do 2 right|done].
    + destruct (IH rest ltac:(cbn; lia) _ _ _ Hscan) as (t & Hin & ->).
      exists t. split; [by right|done].
  - destruct (IH rest ltac:(cbn; lia) _ _ _ Hscan) as (t & Hin & ->).
    exists t. split; [by right|done].
Qed.

Lemma covered_find decls argv :
  covered decls argv -> find (fun tok => is_other (classify decls tok)) argv = None.
Proof.
  induction 1 as [|tok argv Htok _ IH]; [done|].
  cbn [find]. by destruct (classify decls tok).
Qed.

(** A covered command line without [--config] is rejected before [_main]
    runs: a flag lacks its value, or [--config] is reported missing. *)
Lemma parse_without_config argv :
  covered add_subparser argv -> "--config" ∉ argv ->
  exists e, parse_args add_subparser argv = Usage e
            /\ (e = MissingRequired ["--config"]
                \/ exists tok, tok ∈ argv /\ e = ExpectedOneArgument tok).
Proof.
  intros Hcov Hnot. unfold parse_args. rewrite (covered_find _ _ Hcov).
  destruct (scan add_subparser argv ∅ []) as [[ns extras]|e|t] eqn:Hscan.
  - assert (Hns : ns !! "config" = None).
    { rewrite (scan_untouched add_subparser "config" argv) with (ns := ∅) (extras := [])
        (extras' := extras); [apply lookup_empty| |done].
      intros tok d Htok Hd. apply (flag_of_config d tok Hd). by intros ->. }
    unfold add_subparser at 1. cbn [List.filter required dest andb].
    rewrite Hns. cbn. eexists. split; [done|by left].
  - destruct (scan_usage _ _ _ _ _ Hscan) as (tok & Hin & ->).
    eexists. split; [done|]. right. by exists tok.
  - destruct (scan_outside _ _ _ _ _ Hscan) as [Hin Ht].
    by eapply Forall_forall in Hcov.
Qed.

Section MainFacts.
Context {E : Type}.
Variable path_exists : argval -> option bool.
Variable raises : list event -> option E.

Lemma main_asserts_path args config h :
  args !! "config" = Some config ->
  path_exists config = Some false ->
  main path_exists raises args h = (inl (AssertionError config), h).
Proof.
  intros Hc He. unfold main, attr, mbind, R_bind, mret, R_ret, fail.
  by rewrite Hc, He.
Qed.

(** When every attribute is there and the path exists, [main] makes the
    calls of [plan args] in turn. *)
Lemma main_runs_plan args h :
  (forall name, name ∈ ["config"; "cfg_type"; "opts"; "release_json"; "save_to";
                        "serialize"] -> is_Some (args !! name)) ->
  path_exists (args !!! "config") = Some true ->
  main path_exists raises args h = run_calls raises (plan args) h.
Proof.
  intros Hall Hex.
  assert (Hget : forall name,
             name ∈ ["config"; "cfg_type"; "opts"; "release_json"; "save_to"; "serialize"] ->
             args !! name = Some (args !!! name)).
  { intros name [v Hv]%Hall. by rewrite (lookup_total_correct _ _ _ Hv). }
  unfold main, plan, run_calls, attr.
  rewrite !Hget by (repeat constructor).
  unfold mbind, R_bind, mret, R_ret. rewrite Hex.
  destruct (call raises (LoadYaml _ _) h) as [[e|[]] h1]; [done|].
  destruct (call raises (SetArgs _) h1) as [[e|[]] h2]; [done|].
  destruct (call raises (SendInfo _) h2) as [[e|[]] h3]; [done|].
  by destruct (call raises (ToAdela _ _ _) h3) as [[e|[]] h4].
Qed.

(** The history after a plan: the calls made are a prefix of the plan, all
    of it when the run returns; a run that fails was stopped by the last
    call made. *)
Lemma run_calls_trace calls :
  forall h r evs,
    run_calls raises calls h = (r, evs) ->
    exists k, k <= length calls
              /\ evs = h ++ take k calls
              /\ (r = inr () -> k = length calls)
              /\ (forall f, r = inl f ->
                            0 < k /\ exists e, f = Raised e /\ raises evs = Some e).
Proof.
  induction calls as [|ev calls IH]; intros h r evs Hrun.
  { injection Hrun as <- <-. exists 0. split; [done|].
    split; [by rewrite app_nil_r|]. split; [done|]. by intros f. }
  cbn [run_calls] in Hrun. unfold mbind, R_bind, call in Hrun.
  destruct (raises (h ++ [ev])) as [e|] eqn:He.
  - injection Hrun as <- <-. exists 1. split; [cbn; lia|].
    split; [by destruct calls|]. split; [done|].
    intros f [= <-]. split; [lia|]. by exists e.
  - destruct (IH _ _ _ Hrun) as (k & Hk & -> & Hok & Hfail).
    exists (S k). split; [cbn; lia|].
    split; [by rewrite <- app_assoc|].
    split; [intros Hr; cbn; f_equal; by apply Hok|].
    intros f Hf. destruct (Hfail f Hf) as [_ Hex]. split; [lia|done].
Qed.
End MainFacts.

(** C6: missing required configuration raises at once.  A configuration
    dictionary without ['method'] makes [initialize_from_cfg] raise
    [KeyError] from [pop] with every parameter and the generator untouched;
    [--config] is declared required, so a command line of full flags and
    plain words without it is rejected by the parser with a usage error,
    before [_main] runs; and [main] asserts that the configuration path
    exists before it makes any call. *)
Theorem missing_config_raises {F G : Type} `{RT : Initializer.Runtime F G} {E : Type}
    (registry : gmap string (Initializer.initializer (F := F) (G := G)))
    (model : list Initializer.submodule) (w : @Initializer.world F G) (a : nat)
    (d : gmap string (Initializer.pyval F))
    (argv : list string) (path_exists : argval -> option bool)
    (raises : list event -> option E)
    (args : gmap string argval) (config : string) (h : list event) :
  Initializer.heap w !! a = Some d ->
  d !! "method" = None ->
  covered add_subparser argv ->
  "--config" ∉ argv ->
  args !! "config" = Some (AStr config) ->
  path_exists (AStr config) = Some false ->
  (exists w',
     Initializer.initialize_from_cfg registry model (Some a) w
     = (inl (Initializer.KeyError "method"), w')
     /\ Initializer.tensors w' = Initializer.tensors w
     /\ Initializer.heap w' !! a = Some d)
  /\ (exists c, find_flag add_subparser "--config" = Some c
                /\ required c = true /\ dest c = "config")
  /\ (exists e, parse_args add_subparser argv = Usage e
                /\ run path_exists raises argv = Usage e
                /\ (e = MissingRequired ["--config"]
                    \/ exists tok, tok ∈ argv /\ e = ExpectedOneArgument tok))
  /\ main path_exists raises args h = (inl (AssertionError (AStr config)), h).
Proof.
  intros Ha Hd Hcov Hargv Hcfg Hex.
  split.
  { eexists. split; [by apply InitializerFacts.missing_method_run|].
    split; [done|]. cbn.
    rewrite lookup_insert_ne; [done|].
    by apply (InitializerFacts.fresh_cfg_address w a d). }
  split; [apply config_is_required|].
  split.
  { destruct (parse_without_config argv Hcov Hargv) as (e & He & Hkind).
    exists e. split; [done|]. split; [|done]. unfold run. by rewrite He. }
  by apply main_asserts_path.
Qed.

Lemma missing_config_raises_witness :
  let w := Initializer.example_world Initializer.example_cfg_without_method in
  let argv := ["--serialize"; "--cfg_type"; "up"] in
  let args : gmap string argval := {[ "config" := AStr "missing.yaml" ]} in
  let path_exists := fun _ : argval => Some false in
  let raises := fun _ : list event => @None string in
  Initializer.heap w !! 7 = Some Initializer.example_cfg_without_method
  /\ Initializer.example_cfg_without_method !! "method" = None
  /\ covered add_subparser argv
  /\ ("--config" ∉ argv)
  /\ args !! "config" = Some (AStr "missing.yaml")
  /\ path_exists (AStr "missing.yaml") = Some false
  /\ ((exists w',
         Initializer.initialize_from_cfg Initializer.example_registry
           Initializer.example_model (Some 7) w
         = (inl (Initializer.KeyError "method"), w')
         /\ Initializer.tensors w' = Initializer.tensors w
         /\ Initializer.heap w' !! 7 = Some Initializer.example_cfg_without_method)
      /\ (exists c, find_flag add_subparser "--config" = Some c
                    /\ required c = true /\ dest c = "config")
      /\ (exists e, parse_args add_subparser argv = Usage e
                    /\ run path_exists raises argv = Usage e
                    /\ (e = MissingRequired ["--config"]
                        \/ exists tok, tok ∈ argv /\ e = ExpectedOneArgument tok))
      /\ main path_exists raises args [] = (inl (AssertionError (AStr "missing.yaml")), [])).
Proof.
  intros w argv args path_exists raises.
  assert (Hcov : covered add_subparser argv).
  { unfold argv. repeat constructor; by vm_compute. }
  assert (Hargv : "--config" ∉ argv).
  { unfold argv. intros H. repeat (apply elem_of_cons in H as [H|H]; [discriminate|]).
    by apply elem_of_nil in H. }
  split; [reflexivity|]. split; [reflexivity|]. split; [exact Hcov|].
  split; [exact Hargv|]. split; [reflexivity|]. split; [reflexivity|].
  apply (missing_config_raises (RT := Initializer.symbolic_runtime)
           Initializer.example_registry Initializer.example_model w 7
           Initializer.example_cfg_without_method argv path_exists raises args
           "missing.yaml" []);
    first [reflexivity | exact Hargv | exact Hcov].
Defined.

(** Command lines: one without [--config]; one with a stray word, reported
    only once [--config] is there; one that names a missing and one that
    names an existing file; and two that the model leaves out. *)
Example to_adela_command_lines :
  let raises := fun _ : list event => @None string in
  run (fun _ => Some true) raises ["--serialize"; "--cfg_type"; "up"]
  = Usage (MissingRequired ["--config"])
  /\ run (fun _ => Some true) raises ["stray"; "--serialize"]
     = Usage (MissingRequired ["--config"])
  /\ run (fun _ => Some true) raises ["stray"; "--config"; "a.yaml"]
     = Usage (UnrecognizedArguments ["stray"])
  /\ run (fun _ => Some true) raises ["--config"; "--serialize"]
     = Usage (ExpectedOneArgument "--config")
  /\ run (fun _ => Some false) raises ["--config"; "a.yaml"]
     = Done (inl (AssertionError (AStr "a.yaml")), [InitLog])
  /\ run (fun _ => Some true) raises ["--config"; "a.yaml"; "--opts"; "x"; "--config"]
     = Done (inr (),
             [ InitLog;
               LoadYaml (AStr "a.yaml") (AStr "up");
               SetArgs (AList ["x"; "--config"]);
               SendInfo "to_adela";
               ToAdela (AStr "release.json") ANone (ABool false) ])
  /\ run (fun _ => Some true) raises ["--config=a.yaml"] = Outside "--config=a.yaml"
  /\ run (fun _ => Some true) raises ["--config"; "a.yaml"; "--ser"] = Outside "--ser".
Proof. repeat split; by vm_compute. Qed.

End ToAdelaFacts.

(** * More about the decoder: shapes end to end, and rejected inputs *)

Module DecoderShapes.
Import Sfnet SfnetFacts.

Lemma lateral_shape (l : Conv2d * Norm) x n c h w :
  shape_of x = Some [n; c; h; w] -> 0 < h -> 0 < w ->
  in_channels l.1 = c -> kernel_size l.1 = 1 -> stride l.1 = 1 ->
  padding l.1 = 0 -> dilation l.1 = 1 -> num_features l.2 = out_channels l.1 ->
  0 < out_channels l.1 ->
  exists y, AlignHead.lateral l x = Some y
            /\ shape_of y = Some [n; out_channels l.1; h; w].
Proof.
  intros Hx Hh Hw Hc Hk Hs Hp Hd Hn Hout.
  assert (H1 : shape_of (TConv l.1 x) = Some [n; out_channels l.1; h; w]).
  { apply (shape_conv _ _ _ _ _ _ _ _ Hx); [done|done|..];
      rewrite Hk, Hs, Hp, Hd; by apply conv_out_size_pointwise. }
  pose proof (shape_norm l.2 _ _ _ _ _ H1 (eq_sym Hn)) as H2.
  pose proof (shape_relu _ _ H2) as H3.
  eexists. split; [|exact H3]. unfold AlignHead.lateral.
  rewrite (op_Some _ _ H1). cbn [mbind option_bind].
  rewrite (op_Some _ _ H2). cbn [mbind option_bind].
  apply (op_Some _ _ H3).
Qed.

(** [ConvBnRelu(in_planes, out_planes, 1)] changes the channels and keeps
    the spatial size. *)
Lemma conv_bn_relu_shape q cin cout x n h w :
  shape_of x = Some [n; cin; h; w] -> 0 < h -> 0 < w -> 0 < cout ->
  exists y, ConvBnRelu.forward (ConvBnRelu.init_default q cin cout 1) x = Some y
            /\ shape_of y = Some [n; cout; h; w].
Proof.
  intros Hx Hh Hw Hout.
  set (m := ConvBnRelu.init_default q cin cout 1).
  assert (H1 : shape_of (TConv (ConvBnRelu.conv m) x) = Some [n; cout; h; w]).
  { apply (shape_conv (ConvBnRelu.conv m) _ _ _ _ _ _ _ Hx); [done|done|..];
      by apply conv_out_size_pointwise. }
  pose proof (shape_norm (mkNorm (q ++ [Attr "bn"]) cout) _ _ _ _ _ H1 eq_refl) as H2.
  pose proof (shape_relu _ _ H2) as H3.
  eexists. split; [|exact H3]. unfold ConvBnRelu.forward.
  rewrite (op_Some _ _ H1). cbn [mbind option_bind ConvBnRelu.bn m ConvBnRelu.init_default
                                  ConvBnRelu.init ConvBnRelu.has_relu].
  rewrite (op_Some _ _ H2). cbn [mbind option_bind].
  apply (op_Some _ _ H3).
Qed.

Lemma removelast_lookup {A} (l : list A) i :
  i < length l - 1 -> removelast l !! i = l !! i.
Proof.
  revert i. induction l as [|a l IH]; intros i Hi; [done|].
  destruct l as [|b l]; [cbn in Hi; lia|].
  change (removelast (a :: b :: l)) with (a :: removelast (b :: l)).
  destruct i as [|i]; [done|]. cbn [lookup list_lookup]. apply IH. cbn in *. lia.
Qed.

Lemma sum_replicate k c : foldr Nat.add 0 (replicate k c) = k * c.
Proof. induction k as [|k IH]; cbn; [done|]. by rewrite IH. Qed.

Section HeadShapes.
Variables (p : path) (inplane num_class : nat) (fpn_inplanes : list nat) (fpn_dim : nat).
Hypothesis Hdim : 2 <= fpn_dim.
Hypothesis Hnc : 0 < num_class.

Let head := AlignHead.init p inplane num_class fpn_inplanes fpn_dim.

Lemma head_fpn_in i c :
  i < length fpn_inplanes - 1 -> fpn_inplanes !! i = Some c ->
  exists l, AlignHead.fpn_in head !! i = Some l
            /\ in_channels l.1 = c /\ out_channels l.1 = fpn_dim
            /\ kernel_size l.1 = 1 /\ stride l.1 = 1 /\ padding l.1 = 0
            /\ dilation l.1 = 1 /\ num_features l.2 = fpn_dim.
Proof.
  intros Hi Hc. subst head. cbn [AlignHead.fpn_in AlignHead.init].
  rewrite list_lookup_imap, removelast_lookup, Hc by done.
  eexists. split; [reflexivity|]. by cbn.
Qed.

Lemma head_fpn_out i :
  i < length fpn_inplanes - 1 ->
  exists q, AlignHead.fpn_out head !! i
            = Some (ConvBnRelu.init_default q fpn_dim fpn_dim 1).
Proof.
  intros Hi. subst head. cbn [AlignHead.fpn_out AlignHead.init].
  rewrite list_lookup_fmap, lookup_seq_lt by done. by eexists.
Qed.

Lemma head_fpn_out_align i :
  i < length fpn_inplanes - 1 ->
  exists q, AlignHead.fpn_out_align head !! i
            = Some (AlignedModule.init q fpn_dim (fpn_dim / 2)
                                       AlignedModule.default_kernel_size).
Proof.
  intros Hi. subst head. cbn [AlignHead.fpn_out_align AlignHead.init].
  rewrite list_lookup_fmap, lookup_seq_lt by done. by eexists.
Qed.

(** One level of the top-down path: both the running feature and the
    feature kept for the fusion have [fpn_dim] channels and the size of the
    lateral input. *)
Lemma level_shape i c conv_x f n h w hh hw :
  i < length fpn_inplanes - 1 -> fpn_inplanes !! i = Some c ->
  shape_of conv_x = Some [n; c; h; w] -> 0 < h -> 0 < w ->
  shape_of f = Some [n; fpn_dim; hh; hw] -> 0 < hh -> 0 < hw ->
  exists f' o,
    AlignHead.level head i conv_x f = Some (f', o)
    /\ shape_of f' = Some [n; fpn_dim; h; w]
    /\ shape_of o = Some [n; fpn_dim; h; w].
Proof.
  intros Hi Hc Hx Hh Hw Hf Hhh Hhw.
  destruct (head_fpn_in i c Hi Hc) as (l & Hl & Hin & Hout & Hk & Hs & Hp & Hd & Hn).
  destruct (head_fpn_out i Hi) as (qo & Ho).
  destruct (head_fpn_out_align i Hi) as (qa & Ha).
  destruct (lateral_shape l conv_x n c h w Hx Hh Hw Hin Hk Hs Hp Hd)
    as (lat & Hlat & Hlats); [congruence|lia|]. rewrite Hout in Hlats.
  assert (Hk3 : 0 < AlignedModule.default_kernel_size)
    by (unfold AlignedModule.default_kernel_size; lia).
  assert (Hhalf : 0 < fpn_dim / 2).
  { apply Nat.div_str_pos. lia. }
  destruct (aligned_forward_ok qa fpn_dim (fpn_dim / 2) _ lat f n h w hh hw
              Hlats Hf Hh Hw Hhh Hhw Hk3) as [Hal Hals];
    [unfold AlignedModule.default_kernel_size; lia..|done|done|].
  pose proof (shape_add_same _ _ _ _ _ _ Hlats Hals) as Hadd.
  destruct (conv_bn_relu_shape qo fpn_dim fpn_dim _ n h w Hadd Hh Hw) as (o & Hfo & Hos);
    [lia|].
  eexists _, o. split; [|split; [exact Hadd|exact Hos]].
  unfold AlignHead.level. rewrite Hl. cbn [mbind option_bind].
  rewrite Hlat. cbn [mbind option_bind]. rewrite Ha. cbn [mbind option_bind].
  rewrite Hal. cbn [mbind option_bind].
  rewrite (op_Some _ _ Hadd). cbn [mbind option_bind].
  rewrite Ho. cbn [mbind option_bind]. by rewrite Hfo.
Qed.
Lemma well_shaped_tail n x xs c chans s sizes :
  well_shaped n (x :: xs) (c :: chans) (s :: sizes) -> well_shaped n xs chans sizes.
Proof.
  intros (Hc & Hs & Hall). split; [cbn in Hc; lia|]. split; [cbn in Hs; lia|].
  intros k y c' s' Hx Hc' Hs'. by apply (Hall (S k)).
Qed.

Lemma pyramid_shape n xs :
  forall i chans sizes,
    i + length xs = length fpn_inplanes ->
    well_shaped n xs chans sizes ->
    (forall k c, S k < length xs -> chans !! k = Some c ->
                 fpn_inplanes !! (i + k) = Some c) ->
    last chans = Some inplane ->
    exists f ps s0,
      AlignHead.pyramid head i xs = Some (f, ps)
      /\ Forall2 (fun o s => shape_of o = Some [n; fpn_dim; s.1; s.2]
                              /\ 0 < s.1 /\ 0 < s.2)
                 ps (pyramid_sizes sizes)
      /\ pyramid_sizes sizes !! 0 = Some s0
      /\ shape_of f = Some [n; fpn_dim; s0.1; s0.2]
      /\ 0 < s0.1 /\ 0 < s0.2.
Proof.
  induction xs as [|x rest IH]; intros i chans sizes Hlen Hws Hch Hlast.
  { destruct Hws as (Hc & _). by destruct chans. }
  destruct chans as [|c chans]; [by destruct Hws|].
  destruct sizes as [|s sizes]; [by destruct Hws as (_ & ? & _)|].
  destruct (proj2 (proj2 Hws) 0 x c s eq_refl eq_refl eq_refl) as (Hx & _ & Hh & Hw).
  destruct rest as [|y rest].
  - destruct Hws as (Hc & Hs & _).
    destruct chans; [|done]. destruct sizes; [|done].
    injection Hlast as ->.
    assert (Hsz : Forall (lt 0) PSPModule.default_sizes)
      by (repeat constructor; lia).
    assert (Hpos : 0 < fpn_dim) by lia.
    pose proof (psp_forward (p ++ [Attr "ppm"]) inplane fpn_dim _ x n _ _
                  Hx Hh Hw Hsz Hpos) as Hpsp.
    pose proof (proj2 (psp_bottleneck (p ++ [Attr "ppm"]) inplane fpn_dim _ x n _ _
                         Hx Hh Hw Hsz Hpos)) as Hshape.
    eexists _, _, (s.1 + 2, s.2 + 2).
    split; [cbn [AlignHead.pyramid]; subst head; cbn [AlignHead.ppm AlignHead.init];
            rewrite Hpsp; reflexivity|].
    split; [repeat constructor; cbn; first [done | lia]|].
    split; [done|]. split; [done|]. cbn. lia.
  - pose proof (well_shaped_tail _ _ _ _ _ _ _ Hws) as Hws'.
    destruct chans as [|c' chans]; [by destruct Hws'|].
    destruct sizes as [|s' sizes]; [by destruct Hws' as (_ & ? & _)|].
    destruct (IH (S i) (c' :: chans) (s' :: sizes)) as (f & ps & s0 & Hp & Hps & Hs0 & Hf & H1 & H2).
    { cbn in Hlen |- *. lia. }
    { done. }
    { intros k ck Hk Hck. replace (S i + k) with (i + S k) by lia.
      apply Hch; [cbn in Hk |- *; lia|done]. }
    { done. }
    assert (Hi : i < length fpn_inplanes - 1) by (cbn in Hlen; lia).
    assert (Hci : fpn_inplanes !! i = Some c).
    { replace i with (i + 0) by lia. apply Hch; [cbn; lia|done]. }
    destruct (level_shape i c x f n _ _ _ _ Hi Hci Hx Hh Hw Hf H1 H2)
      as (f' & o & Hlev & Hf' & Ho).
    exists f', (o :: ps), s.
    split.
    { rewrite pyramid_cons, Hp. cbn [mbind option_bind]. by rewrite Hlev. }
    split; [by constructor|]. done.
Qed.

Lemma length_removelast {A} (l : list A) : length (removelast l) = length l - 1.
Proof.
  induction l as [|a l IH]; [done|]. destruct l as [|b l]; [done|].
  change (removelast (a :: b :: l)) with (a :: removelast (b :: l)).
  cbn [length] in *. lia.
Qed.

(** The fusion of a pyramid of [fpn_dim]-channel features, one per entry
    of [fpn_inplanes]. *)
Lemma fuse_shape n ps szs s0 :
  Forall2 (fun o s => shape_of o = Some [n; fpn_dim; s.1; s.2]
                      /\ 0 < s.1 /\ 0 < s.2) ps szs ->
  szs !! 0 = Some s0 ->
  length ps = length fpn_inplanes ->
  exists y, AlignHead.fuse head ps = Some y
            /\ shape_of y = Some [n; num_class; s0.1; s0.2].
Proof.
  intros Hall Hs0 Hlen.
  destruct Hall as [|first s ps' szs' (Hfirst & Hh & Hw) Hrest]; [done|].
  injection Hs0 as ->.
  set (rest := map (TInterp s0.1 s0.2) ps').
  assert (Hrest' : Forall (fun o => shape_of o = Some [n; fpn_dim; s0.1; s0.2]) rest).
  { subst rest. apply Forall_fmap. clear -Hrest Hh Hw.
    induction Hrest as [|o s ps' szs' (Ho & ? & ?) _ IH]; [constructor|].
    constructor; [|done]. cbn [compose]. by eapply (shape_interp _ _ _ _ _ s.1 s.2). }
  assert (Hmap : mapM (fun x => op (TInterp s0.1 s0.2 x)) ps' = Some rest).
  { apply mapM_Some. subst rest. apply Forall2_fmap_r, Forall_Forall2_diag.
    clear -Hrest Hh Hw.
    induction Hrest as [|o s ps' szs' (Ho & ? & ?) _ IH]; [constructor|].
    constructor; [|done]. eapply op_Some. by eapply (shape_interp _ _ _ _ _ s.1 s.2). }
  assert (Hcat : shape_of (TCat 1 (first :: rest))
                 = Some [n; length fpn_inplanes * fpn_dim; s0.1; s0.2]).
  { rewrite (shape_cat_channels _ n s0.1 s0.2 (replicate (length (first :: rest)) fpn_dim)).
    - rewrite sum_replicate. do 3 f_equal.
      subst rest. cbn [length]. rewrite length_map. cbn [length] in Hlen. lia.
    - done.
    - cbn [length replicate]. constructor; [done|].
      clear -Hrest'. induction Hrest'; cbn; constructor; auto. }
  destruct (conv_bn_relu_shape (p ++ [Attr "conv_last"; Idx 0])
              (length fpn_inplanes * fpn_dim) fpn_dim _ n _ _ Hcat Hh Hw)
    as (y1 & Hy1 & Hy1s); [lia|].
  assert (Hy : shape_of (TConv (AlignHead.conv_last head).2 y1)
               = Some [n; num_class; s0.1; s0.2]).
  { apply (shape_conv (AlignHead.conv_last head).2 _ _ _ _ _ _ _ Hy1s); [done|done|..];
      by apply conv_out_size_pointwise. }
  eexists. split; [|exact Hy].
  unfold AlignHead.fuse. cbn [lookup list_lookup mbind option_bind].
  unfold size_2. rewrite Hfirst. cbn [mbind option_bind drop].
  rewrite drop_0, Hmap. cbn [mbind option_bind].
  rewrite (op_Some _ _ Hcat). cbn [mbind option_bind].
  subst head. cbn [AlignHead.conv_last AlignHead.init fst snd] in *.
  rewrite Hy1. cbn [mbind option_bind]. apply (op_Some _ _ Hy).
Qed.

Lemma head_forward_shape n conv_out sizes s0 :
  length conv_out = length fpn_inplanes ->
  well_shaped n conv_out (expected_channels inplane fpn_inplanes) sizes ->
  pyramid_sizes sizes !! 0 = Some s0 ->
  exists y, AlignHead.forward head conv_out = Some y
            /\ shape_of y = Some [n; num_class; s0.1; s0.2].
Proof.
  intros Hlen Hws Hs0.
  destruct (pyramid_shape n conv_out 0 (expected_channels inplane fpn_inplanes) sizes
              Hlen Hws)
    as (f & ps & s0' & Hp & Hps & Hs0' & _).
  { intros k c Hk Hc. cbn [Nat.add]. unfold expected_channels in Hc.
    rewrite lookup_app_l in Hc by (rewrite length_removelast; lia).
    rewrite removelast_lookup in Hc by lia. done. }
  { apply last_snoc. }
  rewrite Hs0 in Hs0'. injection Hs0' as <-.
  assert (Hl : length ps = length fpn_inplanes).
  { rewrite <- Hlen. by eapply pyramid_length. }
  destruct (fuse_shape n ps _ s0 Hps Hs0 Hl) as (y & Hy & Hys).
  exists y. split; [|done].
  rewrite forward_pyramid, Hp. exact Hy.
Qed.

End HeadShapes.

Lemma pyramid_sizes_first s s' sizes :
  pyramid_sizes (s :: s' :: sizes) !! 0 = Some s.
Proof. reflexivity. Qed.

(** X1: for [fpn_dim >= 2] and [num_class > 0], given as many feature maps
    as [fpn_inplanes] has entries (at least two), of one batch size, with
    channels [fpn_inplanes[:-1]] followed by [inplane], none of them zero,
    and non-empty spatial sizes, [AlignHead.forward] returns a tensor with [num_class] channels
    and the spatial size of [conv_out[0]], whatever the sizes of the coarser
    levels. *)
Theorem align_head_output_shape (p : path) (inplane num_class : nat)
    (fpn_inplanes : list nat) (fpn_dim n : nat) (conv_out : list texp)
    (sizes : list (nat * nat)) (s0 : nat * nat) :
  2 <= fpn_dim ->
  0 < num_class ->
  2 <= length conv_out ->
  length conv_out = length fpn_inplanes ->
  well_shaped n conv_out (expected_channels inplane fpn_inplanes) sizes ->
  sizes !! 0 = Some s0 ->
  exists y,
    AlignHead.forward (AlignHead.init p inplane num_class fpn_inplanes fpn_dim) conv_out
    = Some y
    /\ shape_of y = Some [n; num_class; s0.1; s0.2].
Proof.
  intros Hdim Hnc H2 Hlen Hws Hs0.
  apply (head_forward_shape p inplane num_class fpn_inplanes fpn_dim Hdim Hnc n conv_out
           sizes);
    [done..|].
  destruct Hws as (_ & Hsz & _).
  destruct sizes as [|s [|s' sizes]]; [done|cbn in Hsz; lia|].
  by rewrite pyramid_sizes_first.
Qed.

Lemma three_levels_well_shaped :
  well_shaped 2 [x3; x4; x5] (expected_channels 512 [128; 256; 512])
              [(16, 16); (8, 8); (4, 4)].
Proof.
  split; [reflexivity|]. split; [reflexivity|].
  intros k x c s Hx Hc Hs.
  repeat (destruct k as [|k];
          [injection Hx as <-; injection Hc as <-; injection Hs as <-;
           split; [reflexivity|cbn; lia] |]).
  done.
Defined.

Lemma align_head_output_shape_witness :
  2 <= 64
  /\ 0 < 19
  /\ 2 <= length [x3; x4; x5]
  /\ length [x3; x4; x5] = length [128; 256; 512]
  /\ well_shaped 2 [x3; x4; x5] (expected_channels 512 [128; 256; 512])
                 [(16, 16); (8, 8); (4, 4)]
  /\ [(16, 16); (8, 8); (4, 4)] !! 0 = Some (16, 16)
  /\ exists y,
       AlignHead.forward (AlignHead.init [Attr "head"] 512 19 [128; 256; 512] 64)
                         [x3; x4; x5] = Some y
       /\ shape_of y = Some [2; 19; 16; 16].
Proof.
  split; [lia|]. split; [lia|]. split; [cbn; lia|]. split; [reflexivity|].
  split; [exact three_levels_well_shaped|]. split; [reflexivity|].
  apply (align_head_output_shape [Attr "head"] 512 19 [128; 256; 512] 64 2
           [x3; x4; x5] [(16, 16); (8, 8); (4, 4)] (16, 16));
    first [exact three_levels_well_shaped | reflexivity | cbn; lia].
Defined.

(** X2: for [fpn_dim >= 2], [num_class > 0] and [inplane > 0], a head built
    for a single level returns a prediction two larger than its input in each spatial
    direction: the only level is the output of the pyramid pooling module,
    whose bottleneck pads by one. *)
Theorem align_head_single_level (p : path) (inplane num_class c fpn_dim n h w : nat)
    (x : texp) :
  2 <= fpn_dim ->
  0 < num_class ->
  shape_of x = Some [n; inplane; h; w] ->
  0 < inplane -> 0 < h -> 0 < w ->
  exists y,
    AlignHead.forward (AlignHead.init p inplane num_class [c] fpn_dim) [x] = Some y
    /\ shape_of y = Some [n; num_class; h + 2; w + 2].
Proof.
  intros Hdim Hnc Hx Hin Hh Hw.
  apply (head_forward_shape p inplane num_class [c] fpn_dim Hdim Hnc n [x] [(h, w)]
           (h + 2, w + 2));
    [done| |done].
  split; [done|]. split; [done|].
  intros k y c' s Hy Hc Hs. destruct k as [|k]; [|done].
  injection Hy as <-. injection Hc as <-. injection Hs as <-. done.
Qed.

Lemma align_head_single_level_witness :
  2 <= 64
  /\ 0 < 19
  /\ shape_of x5 = Some [2; 512; 4; 4]
  /\ 0 < 512 /\ 0 < 4
  /\ exists y,
       AlignHead.forward (AlignHead.init [] 512 19 [512] 64) [x5] = Some y
       /\ shape_of y = Some [2; 19; 4 + 2; 4 + 2].
Proof.
  split; [lia|]. split; [lia|]. split; [reflexivity|]. split; [lia|]. split; [lia|].
  apply (align_head_single_level [] 512 19 512 64 2 4 4 x5);
    first [reflexivity | lia].
Defined.

(** Without classes the last convolution of the head raises. *)
Example align_head_no_class :
  AlignHead.forward (AlignHead.init [] 512 0 [512] 64) [x5] = None.
Proof. by vm_compute. Qed.

Lemma decoder_pred_shape (inplanes inner_planes num_classes n : nat)
    (f3 f4 f5 : texp) (h3 w3 h4 w4 h5 w5 oh ow : nat) :
  2 <= inner_planes -> 0 < num_classes -> 0 < inplanes ->
  shape_of f3 = Some [n; 128; h3; w3] ->
  shape_of f4 = Some [n; 256; h4; w4] ->
  shape_of f5 = Some [n; inplanes; h5; w5] ->
  0 < h3 -> 0 < w3 -> 0 < h4 -> 0 < w4 -> 0 < h5 -> 0 < w5 ->
  0 < oh -> 0 < ow ->
  exists y,
    SFSegDecoder.blob_pred (SFSegDecoder.head inplanes inner_planes num_classes)
                           [f3; f4; f5] (oh, ow) = Some y
    /\ shape_of y = Some [n; num_classes; oh; ow].
Proof.
  intros Hdim Hnc Hin H3 H4 H5 ? ? ? ? ? ? Hoh How.
  destruct (head_forward_shape [Attr "head"] inplanes num_classes [128; 256; 512]
              inner_planes Hdim Hnc n [f3; f4; f5] [(h3, w3); (h4, w4); (h5, w5)] (h3, w3))
    as (pred & Hpred & Hs); [done| |done|].
  { split; [done|]. split; [done|].
    intros k x c s Hx Hc Hs.
    repeat (destruct k as [|k];
            [injection Hx as <-; injection Hc as <-; injection Hs as <-;
             split; [done|cbn; lia] |]).
    done. }
  pose proof (shape_interp oh ow pred _ _ _ _ Hs ltac:(done) ltac:(done) Hoh How) as Hy.
  exists (TInterp oh ow pred). split; [|exact Hy].
  unfold SFSegDecoder.blob_pred, SFSegDecoder.head. rewrite Hpred.
  cbn [mbind option_bind fst snd]. apply (op_Some _ _ Hy).
Qed.

(** [x['gt_seg']] is read in every mode: without it [forward] raises. *)
Lemma decoder_reads_gt_seg {G L : Type} (loss : texp -> G -> option L) (training : bool)
    (hd : AlignHead.t) (x : SFSegDecoder.input G) :
  SFSegDecoder.gt_seg x = None -> SFSegDecoder.forward loss training hd x = None.
Proof.
  intros Hgt. unfold SFSegDecoder.forward. rewrite Hgt.
  destruct (SFSegDecoder.features x); [|done]. by destruct (SFSegDecoder.size x).
Qed.

(** X3: [SFSegDecoder.forward] on a dictionary that holds three features
    with 128, 256 and [inplanes] channels, a target size and a ground truth
    ([inner_planes >= 2], [num_classes > 0], [inplanes > 0]): the prediction has
    [num_classes] channels at the requested size, whatever the spatial sizes
    of the three features; in evaluation mode the result is
    [{'blob_pred': pred}]; in training mode [self.loss(pred, gt_seg)] is
    called, and the result holds its value under ['SFSegDecoder.loss'] if it
    returns one. *)
Theorem decoder_prediction_shape {G L : Type} (loss : texp -> G -> option L)
    (training : bool) (inplanes inner_planes num_classes n : nat)
    (x : SFSegDecoder.input G) (gt : G)
    (f3 f4 f5 : texp) (h3 w3 h4 w4 h5 w5 oh ow : nat) :
  2 <= inner_planes ->
  0 < num_classes ->
  0 < inplanes ->
  SFSegDecoder.features x = Some [f3; f4; f5] ->
  SFSegDecoder.size x = Some (oh, ow) ->
  SFSegDecoder.gt_seg x = Some gt ->
  shape_of f3 = Some [n; 128; h3; w3] ->
  shape_of f4 = Some [n; 256; h4; w4] ->
  shape_of f5 = Some [n; inplanes; h5; w5] ->
  0 < h3 -> 0 < w3 -> 0 < h4 -> 0 < w4 -> 0 < h5 -> 0 < w5 ->
  0 < oh -> 0 < ow ->
  exists pred,
    shape_of pred = Some [n; num_classes; oh; ow]
    /\ SFSegDecoder.forward loss training
         (SFSegDecoder.head inplanes inner_planes num_classes) x
       = if training then
           l ← loss pred gt;
           Some {[ "SFSegDecoder.loss" := SFSegDecoder.Loss l;
                   "blob_pred" := SFSegDecoder.Tensor pred ]}
         else Some {[ "blob_pred" := SFSegDecoder.Tensor pred ]}.
Proof.
  intros Hdim Hnc Hin Hf Hsz Hgt H3 H4 H5 ? ? ? ? ? ? Hoh How.
  destruct (decoder_pred_shape inplanes inner_planes num_classes n f3 f4 f5
              h3 w3 h4 w4 h5 w5 oh ow) as (pred & Hpred & Hs); [done..|].
  exists pred. split; [done|].
  unfold SFSegDecoder.forward. rewrite Hf, Hsz, Hgt. cbn [mbind option_bind].
  rewrite Hpred. cbn [mbind option_bind]. by destruct training.
Qed.

Lemma decoder_prediction_shape_witness :
  let x := SFSegDecoder.mkInput (Some [x3; x4; x5]) (Some (64, 64)) (Some 7) in
  let loss := fun (_ : texp) (gt : nat) => Some (gt + 1) in
  2 <= 64
  /\ 0 < 19
  /\ 0 < 512
  /\ SFSegDecoder.features x = Some [x3; x4; x5]
  /\ SFSegDecoder.size x = Some (64, 64)
  /\ SFSegDecoder.gt_seg x = Some 7
  /\ shape_of x3 = Some [2; 128; 16; 16]
  /\ shape_of x4 = Some [2; 256; 8; 8]
  /\ shape_of x5 = Some [2; 512; 4; 4]
  /\ 0 < 16 /\ 0 < 8 /\ 0 < 4 /\ 0 < 64
  /\ exists pred,
       shape_of pred = Some [2; 19; 64; 64]
       /\ SFSegDecoder.forward loss true (SFSegDecoder.head 512 64 19) x
          = (l ← loss pred 7;
             Some {[ "SFSegDecoder.loss" := SFSegDecoder.Loss l;
                     "blob_pred" := SFSegDecoder.Tensor pred ]}).
Proof.
  intros x loss.
  do 3 (split; [lia|]). do 6 (split; [reflexivity|]). do 4 (split; [lia|]).
  apply (decoder_prediction_shape loss true 512 64 19 2 x 7 x3 x4 x5 16 16 8 8 4 4 64 64);
    first [reflexivity | lia].
Defined.

(** The same call in evaluation mode, and on a dictionary without
    ['gt_seg']. *)
Example decoder_eval_mode :
  let loss := fun (_ : texp) (gt : nat) => Some (gt + 1) in
  (r ← SFSegDecoder.forward loss false (SFSegDecoder.head 512 64 19)
         (SFSegDecoder.mkInput (Some [x3; x4; x5]) (Some (64, 64)) (Some 7));
   Some (map fst (map_to_list r)))
  = Some ["blob_pred"]
  /\ SFSegDecoder.forward loss false (SFSegDecoder.head 512 64 19)
       (SFSegDecoder.mkInput (Some [x3; x4; x5]) (Some (64, 64)) None)
     = None.
Proof. split; by vm_compute. Qed.

(** *** What a successful call tells about its operands *)

Lemma op_inv t y : op t = Some y -> y = t /\ exists s, shape_of t = Some s.
Proof.
  unfold op. destruct (shape_of t) as [s|]; [|done]. intros [= <-]. eauto.
Qed.

Lemma conv2d_shape_inv c s s' :
  conv2d_shape c s = Some s' ->
  exists n h w h' w',
    s = [n; in_channels c; h; w] /\ s' = [n; out_channels c; h'; w'].
Proof.
  unfold conv2d_shape. destruct s as [|n [|ch [|h [|w [|]]]]]; try done.
  destruct (Nat.eqb_spec ch (in_channels c)) as [->|]; [|done].
  destruct (0 <? out_channels c); [|done]. cbn [andb].
  destruct (conv_out_size h _ _ _ _) as [h'|]; [|done].
  destruct (conv_out_size w _ _ _ _) as [w'|]; [|done].
  intros [= <-]. by exists n, h, w, h', w'.
Qed.

Lemma norm_shape_inv b s s' : norm_shape b s = Some s' -> s' = s.
Proof.
  unfold norm_shape. destruct s as [|n [|ch [|h [|w [|]]]]]; try done.
  destruct (ch =? num_features b); [|done]. by intros [= <-].
Qed.

Lemma conv_bn_relu_inv q cin cout k x y :
  ConvBnRelu.forward (ConvBnRelu.init_default q cin cout k) x = Some y ->
  exists n h w h' w',
    shape_of x = Some [n; cin; h; w] /\ shape_of y = Some [n; cout; h'; w'].
Proof.
  unfold ConvBnRelu.forward, ConvBnRelu.init_default, ConvBnRelu.init.
  cbn [ConvBnRelu.conv ConvBnRelu.bn ConvBnRelu.has_relu].
  intros H.
  destruct (op (TConv _ x)) as [y1|] eqn:H1; [|done].
  apply op_inv in H1 as [-> [s1 Hs1]]. cbn [mbind option_bind] in H.
  destruct (op (TNorm _ _)) as [y2|] eqn:H2; [|done].
  apply op_inv in H2 as [-> [s2 Hs2]]. cbn [mbind option_bind] in H.
  apply op_inv in H as [-> [s3 Hs3]].
  cbn [shape_of] in Hs1, Hs2, Hs3 |- *.
  destruct (shape_of x) as [sx|]; [|done]. cbn [mbind option_bind] in *.
  destruct (conv2d_shape_inv _ _ _ Hs1) as (n & h & w & h' & w' & -> & ->).
  rewrite Hs1 in Hs2 |- *. cbn [mbind option_bind] in *.
  pose proof (norm_shape_inv _ _ _ Hs2) as ->.
  rewrite Hs2. by exists n, h, w, h', w'.
Qed.

Lemma psp_forward_inv q inplanes out_planes sizes feats y :
  PSPModule.forward (PSPModule.init q inplanes out_planes sizes) feats = Some y ->
  exists n h w, shape_of y = Some [n; out_planes; h; w].
Proof.
  unfold PSPModule.forward. intros H.
  destruct (PSPModule.priors _ feats) as [ps|]; [|done]. cbn [mbind option_bind] in H.
  destruct (op (TCat 1 ps)) as [c|]; [|done]. cbn [mbind option_bind] in H.
  unfold PSPModule.bottleneck in H.
  destruct (op (TConv _ c)) as [y1|] eqn:H1; [|done].
  apply op_inv in H1 as [-> [s1 Hs1]]. cbn [mbind option_bind] in H.
  destruct (op (TNorm _ _)) as [y2|] eqn:H2; [|done].
  apply op_inv in H2 as [-> [s2 Hs2]]. cbn [mbind option_bind] in H.
  destruct (op (TReLU _)) as [y3|] eqn:H3; [|done].
  apply op_inv in H3 as [-> _]. cbn [mbind option_bind] in H.
  apply op_inv in H as [-> _].
  cbn [shape_of] in Hs1, Hs2 |- *.
  destruct (shape_of c) as [sc|]; [|done]. cbn [mbind option_bind] in *.
  destruct (conv2d_shape_inv _ _ _ Hs1) as (n & h & w & h' & w' & -> & ->).
  rewrite Hs1 in Hs2 |- *. cbn [mbind option_bind] in *.
  pose proof (norm_shape_inv _ _ _ Hs2) as ->.
  rewrite Hs2. by exists n, h', w'.
Qed.

Lemma cat_channels_sum c ss s :
  Forall (fun s => exists n h w, s = [n; c; h; w]) ss ->
  cat_shape 1 ss = Some s ->
  s !! 1 = Some (length ss * c).
Proof.
  intros Hall. unfold cat_shape. destruct ss as [|s0 rest]; [done|].
  destruct (_ && _); [|done]. intros [= <-].
  apply Forall_cons in Hall as [(n & h & w & ->) Hrest].
  cbn [foldr insert list_insert lookup list_lookup lookup_total list_lookup_total
       length Nat.mul].
  do 2 f_equal.
  induction Hrest as [|s1 l (n1 & h1 & w1 & ->) _ IH]; [reflexivity|].
  cbn [foldr length Nat.mul lookup_total list_lookup_total]. by rewrite IH.
Qed.

Section HeadArity.
Variables (p : path) (inplane num_class : nat) (fpn_inplanes : list nat) (fpn_dim : nat).

Let head := AlignHead.init p inplane num_class fpn_inplanes fpn_dim.

(** Every feature of a pyramid that was built has [fpn_dim] channels. *)
Lemma pyramid_channels xs :
  forall i f ps,
    AlignHead.pyramid head i xs = Some (f, ps) -> Forall (four_d fpn_dim) ps.
Proof.
  induction xs as [|x rest IH]; intros i f ps H; [done|].
  destruct rest as [|y rest].
  - cbn [AlignHead.pyramid] in H.
    destruct (PSPModule.forward _ x) as [psp_out|] eqn:Hpsp; [|done].
    injection H as <- <-. constructor; [|done].
    subst head. cbn [AlignHead.ppm AlignHead.init] in Hpsp.
    by apply psp_forward_inv in Hpsp.
  - rewrite pyramid_cons in H.
    destruct (AlignHead.pyramid head (S i) (y :: rest)) as [[f1 ps1]|] eqn:E; [|done].
    cbn [mbind option_bind] in H.
    destruct (AlignHead.level head i x f1) as [[f2 o]|] eqn:Hlev; [|done].
    injection H as <- <-. constructor; [|by eapply IH].
    unfold AlignHead.level in Hlev.
    destruct (AlignHead.fpn_in head !! i); [|done]. cbn [mbind option_bind] in Hlev.
    destruct (AlignHead.lateral _ x); [|done]. cbn [mbind option_bind] in Hlev.
    destruct (AlignHead.fpn_out_align head !! i); [|done]. cbn [mbind option_bind] in Hlev.
    destruct (AlignedModule.forward _ _); [|done]. cbn [mbind option_bind] in Hlev.
    destruct (op (TAdd _ _)) as [fsum|]; [|done]. cbn [mbind option_bind] in Hlev.
    destruct (AlignHead.fpn_out head !! i) as [fo|] eqn:Hfo; [|done].
    cbn [mbind option_bind] in Hlev.
    destruct (ConvBnRelu.forward fo fsum) as [o'|] eqn:Ho; [|done].
    injection Hlev as <- <-.
    subst head. cbn [AlignHead.fpn_out AlignHead.init] in Hfo.
    apply list_lookup_fmap_Some in Hfo as (j & -> & _).
    apply conv_bn_relu_inv in Ho as (n & h & w & h' & w' & _ & Ho).
    by exists n, h', w'.
Qed.

(** The fusion succeeds only on as many features as [conv_last] was built
    for. *)
Lemma fuse_arity ps y :
  0 < fpn_dim ->
  Forall (four_d fpn_dim) ps ->
  AlignHead.fuse head ps = Some y ->
  length ps = length fpn_inplanes.
Proof.
  intros Hdim Hall H. unfold AlignHead.fuse in H.
  destruct ps as [|first ps']; [done|]. cbn [lookup list_lookup mbind option_bind] in H.
  destruct (size_2 first) as [[oh ow]|]; [|done]. cbn [mbind option_bind drop] in H.
  rewrite drop_0 in H.
  destruct (mapM _ ps') as [rest|] eqn:Hmap; [|done]. cbn [mbind option_bind] in H.
  destruct (op (TCat 1 (first :: rest))) as [fusion_out|] eqn:Hcat; [|done].
  apply op_inv in Hcat as [-> [sc Hsc]]. cbn [mbind option_bind] in H.
  destruct (ConvBnRelu.forward _ _) as [x1|] eqn:Hx1; [|done].
  subst head. cbn [AlignHead.conv_last AlignHead.init fst] in Hx1.
  apply conv_bn_relu_inv in Hx1 as (n & h & w & _ & _ & Hin & _).
  rewrite Hsc in Hin. injection Hin as ->.
  rewrite shape_of_cat in Hsc.
  destruct (mapM shape_of (first :: rest)) as [ss|] eqn:Hss; [|done].
  cbn [mbind option_bind] in Hsc.
  apply mapM_Some in Hss.
  assert (Hrest : Forall (four_d fpn_dim) rest).
  { apply mapM_Some in Hmap. apply Forall_inv_tail in Hall. clear -Hmap Hall.
    induction Hmap as [|x r ps' rest Hop _ IH]; [constructor|].
    apply Forall_cons in Hall as [(n & h & w & Hx) Hall].
    constructor; [|by apply IH].
    apply op_inv in Hop as [-> [s Hs]]. cbn [shape_of] in Hs |- *.
    unfold four_d. cbn [shape_of]. rewrite Hx in Hs |- *. cbn [mbind option_bind] in *.
    unfold interp_shape in *. destruct (_ && _); [|done]. by exists n, oh, ow. }
  assert (Hss' : Forall (fun s => exists n h w, s = [n; fpn_dim; h; w]) ss).
  { assert (Hfr : Forall (four_d fpn_dim) (first :: rest))
      by (constructor; [by apply Forall_inv in Hall|done]).
    clear -Hss Hfr. induction Hss as [|x s xs ss Hx _ IH]; [constructor|].
    apply Forall_cons in Hfr as [(n & h & w & Hx') Hfr].
    constructor; [|by apply IH]. rewrite Hx in Hx'. injection Hx' as ->. eauto. }
  pose proof (cat_channels_sum _ _ _ Hss' Hsc) as Hch. cbn [lookup list_lookup] in Hch.
  injection Hch as Hch.
  apply Forall2_length in Hss. apply mapM_Some, Forall2_length in Hmap.
  cbn [length] in *. unfold shape in *. apply Nat.mul_cancel_r in Hch; lia.
Qed.
End HeadArity.

(** X4: [AlignHead.forward] returns a result only when it is given exactly
    as many feature maps as [fpn_inplanes] has entries: with more, a lateral
    branch is missing; with fewer, [conv_last] rejects the concatenation. *)
Theorem align_head_arity (p : path) (inplane num_class : nat)
    (fpn_inplanes : list nat) (fpn_dim : nat) (conv_out : list texp) :
  0 < fpn_dim ->
  is_Some (AlignHead.forward (AlignHead.init p inplane num_class fpn_inplanes fpn_dim)
                             conv_out) ->
  length conv_out = length fpn_inplanes.
Proof.
  intros Hdim [y Hy]. rewrite forward_pyramid in Hy.
  destruct (AlignHead.pyramid _ 0 conv_out) as [[f ps]|] eqn:Hp; [|done].
  cbn [mbind option_bind] in Hy.
  rewrite <- (pyramid_length _ _ _ _ _ Hp).
  eapply fuse_arity; [done| |done]. by eapply pyramid_channels.
Qed.

Lemma align_head_arity_witness :
  0 < 64
  /\ is_Some (AlignHead.forward (AlignHead.init [Attr "head"] 512 19 [128; 256; 512] 64)
                                [x3; x4; x5])
  /\ length [x3; x4; x5] = length [128; 256; 512].
Proof.
  assert (H : is_Some (AlignHead.forward
                         (AlignHead.init [Attr "head"] 512 19 [128; 256; 512] 64)
                         [x3; x4; x5])).
  { eexists. vm_compute. reflexivity. }
  split; [lia|]. split; [exact H|].
  apply (align_head_arity [Attr "head"] 512 19 [128; 256; 512] 64 [x3; x4; x5]);
    [lia | exact H].
Defined.

(** Two of the three features, or the three features and one more, are
    rejected by the head of the decoder. *)
Example align_head_wrong_arity :
  AlignHead.forward (SFSegDecoder.head 512 64 19) [x4; x5] = None
  /\ AlignHead.forward (SFSegDecoder.head 512 64 19) [x3; x3; x4; x5] = None
  /\ AlignHead.forward (SFSegDecoder.head 512 64 19) [] = None.
Proof. repeat split; by vm_compute. Qed.

(** X5: [PSPModule.forward] rejects an input whose channel count differs
    from [inplanes], whatever the pooling sizes are. *)
Theorem psp_rejects_channels (q : path) (inplanes out_planes : nat) (sizes : list nat)
    (feats : texp) (n c h w : nat) :
  shape_of feats = Some [n; c; h; w] ->
  c <> inplanes ->
  PSPModule.forward (PSPModule.init q inplanes out_planes sizes) feats = None.
Proof.
  intros Hx Hc. unfold PSPModule.forward, PSPModule.priors, size_at.
  rewrite Hx. cbn [mbind option_bind lookup list_lookup].
  destruct sizes as [|sz sizes].
  - cbn [PSPModule.stages PSPModule.init imap mapM mbind option_bind mret option_ret app].
    assert (Hcat : shape_of (TCat 1 [feats]) = Some [n; c + 0; h; w]).
    { by apply (shape_cat_channels _ n h w [c]); [|repeat constructor]. }
    rewrite (op_Some _ _ Hcat). cbn [mbind option_bind].
    unfold PSPModule.bottleneck, op.
    change (shape_of (TConv ?b ?x)) with (s ← shape_of x; conv2d_shape b s).
    rewrite Hcat. cbn [mbind option_bind]. unfold conv2d_shape.
    cbn [PSPModule.bottleneck_conv PSPModule.init in_channels length].
    destruct (Nat.eqb_spec (c + 0) (inplanes + 0 * out_planes)); [lia|done].
  - assert (Hst : (x ← PSPModule.run_stage
                         (PSPModule._make_stage (q ++ [Attr "stages"; Idx 0])
                                                inplanes out_planes sz) feats;
                   op (TInterp h w x)) = None).
    { unfold PSPModule.run_stage.
      destruct (op (TAdaptiveAvgPool2d _ _ feats)) as [pooled|] eqn:Hp; [|done].
      apply op_inv in Hp as [-> [sp Hsp]]. cbn [mbind option_bind].
      remember (TAdaptiveAvgPool2d _ _ feats) as pooled eqn:Hpooled.
      assert (Hsp' : exists oh ow, sp = [n; c; oh; ow]).
      { rewrite Hpooled in Hsp. cbn [shape_of] in Hsp. rewrite Hx in Hsp. cbn [mbind option_bind] in Hsp.
        unfold pool_shape in Hsp. destruct (_ && _); [|done].
        injection Hsp as <-. eauto. }
      destruct Hsp' as (oh & ow & ->).
      assert (Hconv : op (TConv (PSPModule.conv
                                   (PSPModule._make_stage (q ++ [Attr "stages"; Idx 0])
                                                          inplanes out_planes sz))
                                pooled) = None).
      { unfold op.
        change (shape_of (TConv ?b ?x)) with (s ← shape_of x; conv2d_shape b s).
        rewrite Hsp. cbn [mbind option_bind].
        unfold conv2d_shape. cbn [PSPModule.conv PSPModule._make_stage in_channels].
        by destruct (Nat.eqb_spec c inplanes). }
      by rewrite Hconv. }
    cbn [PSPModule.stages PSPModule.init imap].
    change (mapM ?f (?a :: ?l)) with (y ← f a; k ← mapM f l; mret (y :: k)).
    cbv beta. by rewrite Hst.
Qed.

Lemma psp_rejects_channels_witness :
  shape_of x4 = Some [2; 256; 8; 8]
  /\ 256 <> 512
  /\ PSPModule.forward (PSPModule.init [] 512 64 [1; 2; 3; 6]) x4 = None.
Proof.
  split; [reflexivity|]. split; [lia|].
  apply (psp_rejects_channels [] 512 64 [1; 2; 3; 6] x4 2 256 8 8); [reflexivity|lia].
Defined.

(** X6: an [AlignedModule] built with a [kernel_size] other than 3 raises in
    [flow_warp] on every well-shaped input pair whose fine feature has at
    least two rows (and [kernel_size <> h + 2]): the flow then has
    [h + 3 - kernel_size] rows and cannot be added to the grid of [h] rows. *)
Theorem aligned_forward_other_kernel (p : path) (inplane outplane k : nat)
    (low high : texp) (n h w hh hw : nat) :
  shape_of low = Some [n; inplane; h; w] ->
  shape_of high = Some [n; inplane; hh; hw] ->
  0 < h -> 0 < w -> 0 < hh -> 0 < hw ->
  0 < k -> k <= h + 2 -> k <= w + 2 ->
  k <> 3 -> 1 < h -> k <> h + 2 ->
  AlignedModule.forward (AlignedModule.init p inplane outplane k) (low, high) = None.
Proof.
  intros Hlow Hhigh Hh Hw Hhh Hhw Hk Hkh Hkw Hk3 Hh1 Hkh2.
  destruct (Nat.eq_dec outplane 0) as [->|Hpos].
  { unfold AlignedModule.forward, AlignedModule.forward_flow, size_2.
    rewrite Hlow. cbn [mbind option_bind drop].
    by rewrite (conv_no_output (AlignedModule.down_l _) low). }
  destruct (forward_flow_ok p inplane outplane k low high n h w hh hw
              Hlow Hhigh Hh Hw Hhh Hhw Hk Hkh Hkw ltac:(lia)) as [Hflow Hfs].
  unfold AlignedModule.forward. rewrite Hflow. cbn [mbind option_bind].
  set (flow := AlignedModule.flow_field _ low high h w) in *.
  unfold AlignedModule.flow_warp, AlignedModule.flow_warp_grid, size_4.
  rewrite Hhigh. cbn [mbind option_bind].
  rewrite (op_Some (TViewCol _) [numel [h]; 1]) by done.
  cbn [mbind option_bind].
  rewrite (op_Some (TRepeat [1; w] _) [1 * numel [h]; w * 1]) by done.
  rewrite (op_Some (TRepeat [h; 1] _) [h * 1; 1 * w]) by done.
  cbn [mbind option_bind].
  rewrite (op_Some (TUnsqueeze 2 (TRepeat [h; 1] _)) [h * 1; 1 * w; 1]) by done.
  rewrite (op_Some (TUnsqueeze 2 (TRepeat [1; w] _)) [1 * numel [h]; w * 1; 1]) by done.
  cbn [mbind option_bind].
  rewrite (op_Some _ _ (plane_grid_shape h w)).
  cbn [mbind option_bind].
  pose proof (base_grid_shape n h w) as Hb. unfold AlignedModule.base_grid in Hb.
  rewrite (op_Some _ _ Hb).
  cbn [mbind option_bind].
  pose proof (permuted_flow_shape _ _ _ _ Hfs) as Hperm.
  rewrite (op_Some _ _ Hperm).
  cbn [mbind option_bind].
  assert (Hq : shape_of (TDiv (TPermute [0; 2; 3; 1] flow) (TLiteral4 [w; h]))
               = Some [n; h + 3 - k; w + 3 - k; 2]).
  { change (shape_of (TDiv ?x ?y)) with
      (s1 ← shape_of x; s2 ← shape_of y; broadcast s1 s2).
    rewrite Hperm. cbn [shape_of mbind option_bind length]. apply broadcast_row. }
  rewrite (op_Some _ _ Hq). cbn [mbind option_bind].
  assert (Hadd : op (TAdd
                   (TRepeat [n; 1; 1; 1]
                      (TCat 2 [TUnsqueeze 2 (TRepeat [h; 1] (TLinspace w));
                               TUnsqueeze 2 (TRepeat [1; w] (TViewCol (TLinspace h)))]))
                   (TDiv (TPermute [0; 2; 3; 1] flow) (TLiteral4 [w; h]))) = None).
  { unfold op.
    change (shape_of (TAdd ?x ?y)) with
      (s1 ← shape_of x; s2 ← shape_of y; broadcast s1 s2).
    rewrite Hb, Hq. cbn [mbind option_bind].
    unfold broadcast. cbn [rev app broadcast_rev mbind option_bind].
    rewrite bdim_refl. cbn [mbind option_bind].
    destruct (bdim w (w + 3 - k)); [|done]. cbn [mbind option_bind].
    unfold bdim.
    destruct (Nat.eqb_spec h (h + 3 - k)); [lia|].
    destruct (Nat.eqb_spec h 1); [lia|].
    by destruct (Nat.eqb_spec (h + 3 - k) 1); [lia|]. }
  by rewrite Hadd.
Qed.

Lemma aligned_forward_other_kernel_witness :
  shape_of low_8x8 = Some [1; 4; 8; 8]
  /\ shape_of high_4x4 = Some [1; 4; 4; 4]
  /\ 0 < 8 /\ 0 < 4 /\ 0 < 5 /\ 5 <= 8 + 2 /\ 5 <> 3 /\ 1 < 8 /\ 5 <> 8 + 2
  /\ AlignedModule.forward (AlignedModule.init [] 4 2 5) (low_8x8, high_4x4) = None.
Proof.
  do 2 (split; [reflexivity|]). do 7 (split; [lia|]).
  apply (aligned_forward_other_kernel [] 4 2 5 low_8x8 high_4x4 1 8 8 4 4);
    first [reflexivity | lia].
Defined.

End DecoderShapes.

(** * More about the initialisers *)

Module InitializerFrames.
Import Initializer InitializerFacts.

Section Frames.
Context {F G : Type} `{RT : Runtime F G}.

Local Abbreviation T := (M (tstate F G)).

Lemma touches_ret {A} ids (a : A) : touches_only ids (mret a : T A).
Proof. by intros s p _. Qed.

Lemma touches_raise {A} ids e : touches_only ids (raise e : T A).
Proof. by intros s p _. Qed.

Lemma touches_lift_option {A} ids e (o : option A) :
  touches_only ids (lift_option e o : T A).
Proof. destruct o; [apply touches_ret|apply touches_raise]. Qed.

Lemma touches_bind {A B} ids (m : T A) (k : A -> T B) :
  touches_only ids m -> (forall a, touches_only ids (k a)) ->
  touches_only ids (m ≫= k).
Proof.
  intros Hm Hk s p Hp. unfold mbind, M_bind.
  specialize (Hm s p Hp). destruct (m s) as [[e|a] s1]; [done|].
  cbn [snd] in Hm. rewrite <- Hm. by apply Hk.
Qed.

Lemma touches_for_each {A} ids (f : A -> T unit) (l : list A) :
  (forall x, x ∈ l -> touches_only ids (f x)) -> touches_only ids (for_each f l).
Proof.
  induction l as [|x l IH]; intros Hf; [apply touches_ret|].
  cbn [for_each]. apply touches_bind.
  - apply Hf. by left.
  - intros _. apply IH. intros y Hy. apply Hf. by right.
Qed.

Lemma touches_data_of ids p : touches_only (F := F) (G := G) ids (data_of p).
Proof. by intros s q _. Qed.

Lemma touches_set_data ids p t :
  p ∈ ids -> touches_only (F := F) (G := G) ids (set_data p t).
Proof.
  intros Hp s q Hq. cbn. apply lookup_insert_ne. by intros ->.
Qed.

Lemma touches_constant_ ids p v :
  p ∈ ids -> touches_only (F := F) (G := G) ids (constant_ p v).
Proof.
  intros Hp. apply touches_bind; [apply touches_data_of|].
  intros t. by apply touches_set_data.
Qed.

Lemma touches_normal_ ids p mean std :
  p ∈ ids -> touches_only (F := F) (G := G) ids (normal_ p mean std).
Proof.
  intros Hp. unfold normal_. destruct (std_ok std); [|apply touches_raise].
  intros s q Hq. destruct (draws _ _). cbn. apply lookup_insert_ne. by intros ->.
Qed.

Lemma touches_xavier_normal_ ids p :
  p ∈ ids -> touches_only (F := F) (G := G) ids (xavier_normal_ p).
Proof.
  intros Hp. apply touches_bind; [apply touches_data_of|]. intros t.
  apply touches_bind; [apply touches_lift_option|]. intros std.
  by apply touches_normal_.
Qed.

Lemma touches_kaiming_normal_ ids p :
  p ∈ ids -> touches_only (F := F) (G := G) ids (kaiming_normal_ p).
Proof.
  intros Hp. apply touches_bind; [apply touches_data_of|]. intros t.
  apply touches_bind; [apply touches_lift_option|]. intros std.
  by apply touches_normal_.
Qed.

Lemma owned_elem sel field module m p :
  m ∈ module -> sel (kind m) = true -> field m = Some p ->
  p ∈ owned sel field module.
Proof.
  intros Hm Hsel Hf. unfold owned. apply list_elem_of_omap. exists m. split; [|done].
  apply list_elem_of_In, filter_In. split; [by apply list_elem_of_In|done].
Qed.

Lemma conv_like_weight module m p :
  m ∈ module -> is_conv_linear_deconv (kind m) = true -> weight m = Some p ->
  p ∈ conv_like_params module.
Proof. intros. apply elem_of_app. left. by eapply owned_elem. Qed.

Lemma conv_like_bias module m p :
  m ∈ module -> is_conv_linear_deconv (kind m) = true -> bias m = Some p ->
  p ∈ conv_like_params module.
Proof. intros. apply elem_of_app. right. by eapply owned_elem. Qed.

Lemma touches_zero_bias module m :
  m ∈ module -> is_conv_linear_deconv (kind m) = true ->
  touches_only (F := F) (G := G) (conv_like_params module) (zero_bias m).
Proof.
  intros Hm Hk. unfold zero_bias. destruct (bias m) as [b|] eqn:Hb; [|apply touches_ret].
  apply touches_constant_. by eapply conv_like_bias.
Qed.

Lemma touches_bind_lift {A B} ids e (o : option A) (k : A -> T B) :
  (forall a, o = Some a -> touches_only ids (k a)) ->
  touches_only ids (lift_option e o ≫= k).
Proof.
  intros Hk. destruct o as [a|]; intros s p Hp; [|done].
  exact (Hk a eq_refl s p Hp).
Qed.

Lemma touches_conv_like_layer module m (body : nat -> T unit) :
  m ∈ module ->
  (forall w, weight m = Some w -> is_conv_linear_deconv (kind m) = true ->
             touches_only (conv_like_params module) (body w)) ->
  touches_only (conv_like_params module)
    (if is_conv_linear_deconv (kind m)
     then w ← weight_data m; _ ← body w; zero_bias m
     else mret ()).
Proof.
  intros Hm Hbody.
  destruct (is_conv_linear_deconv (kind m)) eqn:Hk; [|apply touches_ret].
  apply touches_bind_lift. intros w Hw.
  apply touches_bind; [by apply Hbody|]. intros _. by apply touches_zero_bias.
Qed.

Lemma touches_constant module val :
  touches_only (F := F) (G := G) (conv_like_params module)
               (init_weights_constant module val).
Proof.
  apply touches_for_each. intros m Hm.
  destruct (is_conv_linear_deconv (kind m)) eqn:Hk; [|apply touches_ret].
  apply touches_bind_lift. intros w Hw.
  apply touches_bind; [apply touches_constant_; by eapply conv_like_weight|]. intros _.
  apply touches_bind_lift. intros b Hb.
  apply touches_constant_. by eapply conv_like_bias.
Qed.

Lemma touches_normal module std :
  touches_only (F := F) (G := G) (conv_like_params module)
               (init_weights_normal module std).
Proof.
  apply touches_for_each. intros m Hm. apply touches_conv_like_layer; [done|].
  intros w Hw Hk. apply touches_normal_. by eapply conv_like_weight.
Qed.

Lemma touches_xavier module :
  touches_only (F := F) (G := G) (conv_like_params module) (init_weights_xavier module).
Proof.
  apply touches_for_each. intros m Hm. apply touches_conv_like_layer; [done|].
  intros w Hw Hk. apply touches_xavier_normal_. by eapply conv_like_weight.
Qed.

Lemma touches_msra module :
  touches_only (F := F) (G := G) (conv_like_params module) (init_weights_msra module).
Proof.
  apply touches_for_each. intros m Hm. apply touches_conv_like_layer; [done|].
  intros w Hw Hk. apply touches_kaiming_normal_. by eapply conv_like_weight.
Qed.

Lemma touches_softmax_slot ids b p nc i :
  b ∈ ids -> touches_only (F := F) (G := G) ids (softmax_slot b p nc i).
Proof.
  intros Hb. apply touches_bind; [apply touches_data_of|]. intros t.
  apply touches_bind; [apply touches_lift_option|]. intros v.
  apply touches_bind; [apply touches_data_of|]. intros t'.
  by apply touches_set_data.
Qed.

Lemma touches_range_step ids n step :
  touches_only (F := F) (G := G) ids (range_step n step).
Proof.
  unfold range_step. destruct (step =? 0)%Z; [apply touches_raise|].
  destruct (step <? 0)%Z; apply touches_ret.
Qed.

Lemma touches_focal_constant ids p :
  touches_only (F := F) (G := G) ids (focal_constant p).
Proof. by intros s q _. Qed.

Lemma touches_focal module cls p nc :
  touches_only (F := F) (G := G) (focal_biases module) (init_bias_focal module cls p nc).
Proof.
  unfold init_bias_focal.
  destruct (String.eqb cls "sigmoid"); [|destruct (String.eqb cls "softmax")].
  - apply touches_for_each. intros m Hm. unfold sigmoid_layer.
    destruct (is_conv_linear (kind m)) eqn:Hk; [|apply touches_ret].
    apply touches_bind_lift. intros b Hb.
    assert (Hin : b ∈ focal_biases module) by by eapply owned_elem.
    apply touches_bind; [apply touches_focal_constant|]. intros c.
    apply touches_bind; [by apply touches_normal_|]. intros _.
    apply touches_bind; [apply touches_focal_constant|]. intros c'.
    by apply touches_constant_.
  - apply touches_for_each. intros m Hm. unfold softmax_layer.
    destruct (is_conv_linear (kind m)) eqn:Hk; [|apply touches_ret].
    apply touches_bind_lift. intros b Hb.
    assert (Hin : b ∈ focal_biases module) by by eapply owned_elem.
    apply touches_bind; [by apply touches_normal_|]. intros _.
    apply touches_bind; [apply touches_data_of|]. intros t.
    apply touches_bind; [apply touches_range_step|]. intros idxs.
    apply touches_for_each. intros i _. by apply touches_softmax_slot.
  - apply touches_raise.
Qed.

Lemma owned_inv sel field module p :
  p ∈ owned sel field module ->
  exists m, m ∈ module /\ sel (kind m) = true /\ field m = Some p.
Proof.
  unfold owned. intros (m & Hm & Hf)%list_elem_of_omap.
  apply list_elem_of_In, filter_In in Hm as [Hm Hsel].
  exists m. by rewrite list_elem_of_In.
Qed.

Lemma not_conv_like module p :
  (forall m, m ∈ module -> is_conv_linear_deconv (kind m) = true ->
             weight m <> Some p /\ bias m <> Some p) ->
  p ∉ conv_like_params module.
Proof.
  intros H [Hin|Hin]%elem_of_app; apply owned_inv in Hin as (m & Hm & Hk & Hf);
    destruct (H m Hm Hk); congruence.
Qed.

Lemma not_focal_bias module p :
  (forall m, m ∈ module -> is_conv_linear (kind m) = true -> bias m <> Some p) ->
  p ∉ focal_biases module.
Proof.
  intros H Hin. apply owned_inv in Hin as (m & Hm & Hk & Hf).
  by destruct (H m Hm Hk).
Qed.
End Frames.


(** X7: the four weight initialisers write only the weights and biases of
    [Conv2d], [Linear] and [ConvTranspose2d] layers: any other parameter
    (of a normalisation layer, say) is the same after the call, whether it
    returns or raises. *)
Theorem weight_initialisers_frame {F G : Type} `{RT : Runtime F G}
    (module : list submodule) (val std : F) (s : tstate F G) (p : nat) :
  (forall m, m ∈ module -> is_conv_linear_deconv (kind m) = true ->
             weight m <> Some p /\ bias m <> Some p) ->
  params (init_weights_constant module val s).2 !! p = params s !! p
  /\ params (init_weights_normal module std s).2 !! p = params s !! p
  /\ params (init_weights_xavier module s).2 !! p = params s !! p
  /\ params (init_weights_msra module s).2 !! p = params s !! p.
Proof.
  intros H. pose proof (not_conv_like module p H) as Hp.
  split; [by apply touches_constant|]. split; [by apply touches_normal|].
  split; [by apply touches_xavier|by apply touches_msra].
Qed.

Lemma example_model_frame (p : nat) :
  p = 2 \/ p = 3 ->
  forall m, m ∈ example_model -> is_conv_linear_deconv (kind m) = true ->
            weight m <> Some p /\ bias m <> Some p.
Proof.
  intros Hp m Hm Hk. unfold example_model in Hm.
  repeat (apply elem_of_cons in Hm as [->|Hm]); [..|by apply elem_of_nil in Hm];
    cbn in Hk |- *; first [discriminate | split; intros [=]; lia].
Defined.

Lemma weight_initialisers_frame_witness :
  (forall m, m ∈ example_model -> is_conv_linear_deconv (kind m) = true ->
             weight m <> Some 2 /\ bias m <> Some 2)
  /\ params (init_weights_constant example_model (FLit 1) example_state).2 !! 2
     = params example_state !! 2
  /\ params (init_weights_normal example_model (FLit (1 # 100)) example_state).2 !! 2
     = params example_state !! 2
  /\ params (init_weights_xavier example_model example_state).2 !! 2
     = params example_state !! 2
  /\ params (init_weights_msra example_model example_state).2 !! 2
     = params example_state !! 2.
Proof.
  split; [exact (example_model_frame 2 (or_introl eq_refl))|].
  apply (weight_initialisers_frame example_model (FLit 1) (FLit (1 # 100))
           example_state 2).
  exact (example_model_frame 2 (or_introl eq_refl)).
Defined.

(** X8: [init_bias_focal] writes only biases of [Conv2d] and [Linear]
    layers: every other parameter, every weight among them, is the same
    after the call, for any [cls_loss_type] and whether it returns or
    raises. *)
Theorem focal_frame {F G : Type} `{RT : Runtime F G}
    (module : list submodule) (cls_loss_type : string) (init_prior : F)
    (num_classes : Z) (s : tstate F G) (p : nat) :
  (forall m, m ∈ module -> is_conv_linear (kind m) = true -> bias m <> Some p) ->
  params (init_bias_focal module cls_loss_type init_prior num_classes s).2 !! p
  = params s !! p.
Proof.
  intros H. apply touches_focal. by apply not_focal_bias.
Qed.

Lemma example_model_weights (p : nat) :
  p = 0 \/ p = 4 ->
  forall m, m ∈ example_model -> is_conv_linear (kind m) = true -> bias m <> Some p.
Proof.
  intros Hp m Hm Hk. unfold example_model in Hm.
  repeat (apply elem_of_cons in Hm as [->|Hm]); [..|by apply elem_of_nil in Hm];
    cbn in Hk |- *; first [discriminate | intros [=]; lia].
Defined.

Lemma focal_frame_witness :
  (forall m, m ∈ example_model -> is_conv_linear (kind m) = true -> bias m <> Some 4)
  /\ params (init_bias_focal example_model "softmax" example_prior 2 example_state).2 !! 4
     = params example_state !! 4.
Proof.
  split; [exact (example_model_weights 4 (or_intror eq_refl))|].
  apply (focal_frame example_model "softmax" example_prior 2 example_state 4).
  exact (example_model_weights 4 (or_intror eq_refl)).
Defined.

Section Fills.
Context {F G : Type} `{RT : Runtime F G}.

Local Abbreviation T := (M (tstate F G)).

Lemma fills_spec (c : F) ids :
  forall ps0 ps : gmap nat (tensor F),
    same_layout ps0 ps ->
    same_layout ps0 (fills c ids ps)
    /\ (forall b, ps !! b = Some (fill c (ps0 !!! b)) ->
                  fills c ids ps !! b = Some (fill c (ps0 !!! b)))
    /\ (forall b, b ∈ ids -> fills c ids ps !! b = Some (fill c (ps0 !!! b))).
Proof.
  induction ids as [|b0 ids IH]; intros ps0 ps Hlay.
  { split; [done|]. split; [done|]. by intros b ?%elem_of_nil. }
  change (fills c (b0 :: ids) ps) with (fills c ids (<[b0 := fill c (ps !!! b0)]> ps)).
  destruct (IH ps0 (<[b0 := fill c (ps !!! b0)]> ps)) as (Hl & Hkeep & Hnew).
  { by apply same_layout_fill. }
  assert (Hb0 : <[b0 := fill c (ps !!! b0)]> ps !! b0 = Some (fill c (ps0 !!! b0))).
  { rewrite lookup_insert_eq. f_equal. apply fill_layout; apply Hlay. }
  split; [done|]. split.
  - intros b Hb. apply Hkeep. destruct (decide (b0 = b)) as [<-|Hne]; [done|].
    by rewrite lookup_insert_ne.
  - intros b [->|Hin]%elem_of_cons; [by apply Hkeep|by apply Hnew].
Qed.

(** A loop whose iterations only fill parameters with [c]. *)
Lemma loop_fills (c : F) (f : submodule -> T unit) (idsf : submodule -> list nat) :
  (forall m s s', f m s = (inr (), s') -> params s' = fills c (idsf m) (params s)) ->
  forall module (s s' : tstate F G) (ps0 : gmap nat (tensor F)),
    for_each f module s = (inr (), s') ->
    same_layout ps0 (params s) ->
    same_layout ps0 (params s')
    /\ (forall b, params s !! b = Some (fill c (ps0 !!! b)) ->
                  params s' !! b = Some (fill c (ps0 !!! b)))
    /\ (forall m b, m ∈ module -> b ∈ idsf m ->
                    params s' !! b = Some (fill c (ps0 !!! b))).
Proof.
  intros Hf. induction module as [|m module IH]; intros s s' ps0 Hrun Hlay.
  { injection Hrun as <-. split; [done|]. split; [done|]. by intros m b ?%elem_of_nil. }
  rewrite for_each_cons in Hrun.
  destruct (f m s) as [[e|[]] s1] eqn:Hm; [done|].
  pose proof (Hf _ _ _ Hm) as Hs1.
  destruct (fills_spec c (idsf m) ps0 (params s) Hlay) as (Hl1 & Hk1 & Hn1).
  rewrite <- Hs1 in Hl1, Hk1, Hn1.
  destruct (IH s1 s' ps0 Hrun Hl1) as (Hl & Hkeep & Hnew).
  split; [done|]. split; [by auto|].
  intros m' b [->|Hin]%elem_of_cons Hb; [by auto|by eauto].
Qed.

Lemma constant_layer_run val m (s : tstate F G) :
  (if is_conv_linear_deconv (kind m)
   then w ← weight_data m; _ ← constant_ w val; b ← bias_data m; constant_ b val
   else mret ()) s
  = if is_conv_linear_deconv (kind m) then
      match weight m with
      | None => (inl none_has_no_data, s)
      | Some w =>
          match bias m with
          | None => (inl none_has_no_data, mkTState (fills val [w] (params s)) (gen s))
          | Some b => (inr (), mkTState (fills val [w; b] (params s)) (gen s))
          end
      end
    else (inr (), s).
Proof.
  destruct (is_conv_linear_deconv (kind m)); [|done].
  unfold weight_data, bias_data. destruct (weight m) as [w|]; [|done].
  by destruct (bias m) as [b|].
Qed.

Lemma constant_loop_fills val :
  forall m (s s' : tstate F G),
    (if is_conv_linear_deconv (kind m)
     then w ← weight_data m; _ ← constant_ w val; b ← bias_data m; constant_ b val
     else mret ()) s = (inr (), s') ->
    params s' = fills val (layer_params m) (params s).
Proof.
  intros m s s'. rewrite constant_layer_run. unfold layer_params.
  destruct (is_conv_linear_deconv (kind m)); [|by intros [= <-]].
  destruct (weight m) as [w|]; [|done]. destruct (bias m) as [b|]; [|done].
  by intros [= <-].
Qed.

(** A successful run met a weight and a bias in every convolution-like
    layer. *)
Lemma constant_success_params val module (s : tstate F G) :
  (init_weights_constant module val s).1 = inr () ->
  forall m, m ∈ module -> is_conv_linear_deconv (kind m) = true ->
            is_Some (weight m) /\ is_Some (bias m).
Proof.
  unfold init_weights_constant. revert s.
  induction module as [|m0 module IH]; intros s Hok m Hm Hk; [by apply elem_of_nil in Hm|].
  rewrite for_each_cons, constant_layer_run in Hok.
  apply elem_of_cons in Hm as [->|Hm].
  - rewrite Hk in Hok. destruct (weight m0); [|done]. destruct (bias m0); [|done]. eauto.
  - destruct (is_conv_linear_deconv (kind m0)); [|by eapply IH].
    destruct (weight m0); [|done]. destruct (bias m0); [|done]. by eapply IH.
Qed.

End Fills.

Section Draws.
Context {F G : Type} `{RT : Runtime F G}.

Local Abbreviation T := (M (tstate F G)).

Lemma normal_frame w mean std (s : tstate F G) q :
  q <> w -> params (normal_ w mean std s).2 !! q = params s !! q.
Proof.
  intros Hq. unfold normal_. destruct (std_ok std); [|done].
  destruct (draws _ _). cbn. by apply lookup_insert_ne.
Qed.

Lemma normal_layout w mean std (s : tstate F G) ps0 :
  same_layout ps0 (params s) -> same_layout ps0 (params (normal_ w mean std s).2).
Proof.
  intros Hlay. unfold normal_. destruct (std_ok std); [|done].
  pose proof (draws_length (length (tdata (params s !!! w))) (gen s)) as Hlen.
  destruct (draws _ _) as [zs g]. cbn in Hlen |- *. intros b.
  destruct (decide (b = w)) as [->|Hne].
  - rewrite lookup_total_insert_eq. cbn. rewrite length_map, Hlen. apply Hlay.
  - rewrite lookup_total_insert_ne by done. apply Hlay.
Qed.

Lemma xavier_run w (s : tstate F G) :
  xavier_normal_ w s
  = match xavier_std (tshape (params s !!! w)) with
    | Some std => normal_ w (lit 0) std s
    | None => (inl ValueError, s)
    end.
Proof.
  unfold xavier_normal_, data_of, mbind, M_bind, lift_option.
  by destruct (xavier_std _).
Qed.

Lemma kaiming_run w (s : tstate F G) :
  kaiming_normal_ w s
  = match kaiming_std (tshape (params s !!! w)) with
    | Some std => normal_ w (lit 0) std s
    | None => (inl ValueError, s)
    end.
Proof.
  unfold kaiming_normal_, data_of, mbind, M_bind, lift_option.
  by destruct (kaiming_std _).
Qed.

Variable draw : nat -> T unit.
Hypothesis draw_frame :
  forall w s q, q <> w -> params (draw w s).2 !! q = params s !! q.
Hypothesis draw_layout :
  forall w s ps0, same_layout ps0 (params s) -> same_layout ps0 (params (draw w s).2).

Lemma drawn_layer_run m (s : tstate F G) :
  (if is_conv_linear_deconv (kind m)
   then w ← weight_data m; _ ← draw w; zero_bias m
   else mret ()) s
  = if is_conv_linear_deconv (kind m) then
      match weight m with
      | None => (inl none_has_no_data, s)
      | Some w =>
          match draw w s with
          | (inl e, s1) => (inl e, s1)
          | (inr _, s1) =>
              (inr (),
               match bias m with
               | Some b => mkTState (<[b := fill (lit 0) (params s1 !!! b)]> (params s1))
                                    (gen s1)
               | None => s1
               end)
          end
      end
    else (inr (), s).
Proof.
  destruct (is_conv_linear_deconv (kind m)); [|done].
  unfold weight_data, zero_bias, zero_, constant_, data_of, set_data, lift_option,
    mbind, M_bind, mret, M_ret.
  destruct (weight m) as [w|]; [|done].
  destruct (draw w s) as [[e|[]] s1]; [done|]. by destruct (bias m).
Qed.

(** The loop over the layers: a bias that no selected layer uses as its
    weight stays zero once it has been zeroed. *)
Lemma drawn_loop_zeroes (b : nat) :
  forall module (s s' : tstate F G) (ps0 : gmap nat (tensor F)),
    for_each (fun m =>
      if is_conv_linear_deconv (kind m)
      then w ← weight_data m; _ ← draw w; zero_bias m
      else mret ()) module s = (inr (), s') ->
    same_layout ps0 (params s) ->
    (forall m, m ∈ module -> is_conv_linear_deconv (kind m) = true ->
               weight m <> Some b) ->
    same_layout ps0 (params s')
    /\ (params s !! b = Some (fill (lit 0) (ps0 !!! b)) ->
        params s' !! b = Some (fill (lit 0) (ps0 !!! b)))
    /\ ((exists m, m ∈ module /\ is_conv_linear_deconv (kind m) = true
                   /\ bias m = Some b) ->
        params s' !! b = Some (fill (lit 0) (ps0 !!! b))).
Proof.
  induction module as [|m module IH]; intros s s' ps0 Hrun Hlay Hw.
  { injection Hrun as <-. split; [done|]. split; [done|].
    by intros (m & ?%elem_of_nil & _). }
  rewrite for_each_cons, drawn_layer_run in Hrun.
  assert (Hw' : forall m', m' ∈ module -> is_conv_linear_deconv (kind m') = true ->
                           weight m' <> Some b).
  { intros m' Hm'. apply Hw. by right. }
  destruct (is_conv_linear_deconv (kind m)) eqn:Hk.
  - destruct (weight m) as [w|] eqn:Hwm; [|done].
    assert (Hbw : b <> w).
    { intros ->. apply (Hw m); [by left|done|done]. }
    pose proof (draw_frame w s b Hbw) as Hfr.
    pose proof (draw_layout w s ps0 Hlay) as Hl1.
    destruct (draw w s) as [[e|[]] s1]; [done|]. cbn [snd] in Hfr, Hl1.
    destruct (bias m) as [b'|] eqn:Hbm.
    + assert (Hl2 : same_layout ps0 (<[b' := fill (lit 0) (params s1 !!! b')]> (params s1))).
      { by apply same_layout_fill. }
      destruct (IH _ s' ps0 Hrun Hl2 Hw') as (Hl & Hkeep & Hnew).
      cbn [params] in Hkeep.
      assert (Hfilled : b' = b -> params s' !! b = Some (fill (lit 0) (ps0 !!! b))).
      { intros ->. apply Hkeep. rewrite lookup_insert_eq. f_equal.
        apply fill_layout; apply Hl1. }
      split; [done|]. split.
      * intros Hb. destruct (decide (b' = b)) as [Heq|Hne]; [by apply Hfilled|].
        apply Hkeep. rewrite lookup_insert_ne by done. by rewrite Hfr.
      * intros (m' & [->|Hm']%elem_of_cons & Hk' & Hb').
        -- apply Hfilled. congruence.
        -- apply Hnew. by exists m'.
    + destruct (IH _ s' ps0 Hrun Hl1 Hw') as (Hl & Hkeep & Hnew).
      split; [done|]. split.
      * intros Hb. apply Hkeep. by rewrite Hfr.
      * intros (m' & [->|Hm']%elem_of_cons & Hk' & Hb'); [congruence|].
        apply Hnew. by exists m'.
  - destruct (IH _ s' ps0 Hrun Hlay Hw') as (Hl & Hkeep & Hnew).
    split; [done|]. split; [done|].
    intros (m' & [->|Hm']%elem_of_cons & Hk' & Hb'); [congruence|].
    apply Hnew. by exists m'.
Qed.
End Draws.

Section DrawnInitialisers.
Context {F G : Type} `{RT : Runtime F G}.

Lemma zeroes_normal module std (s : tstate F G) b :
  (init_weights_normal module std s).1 = inr () ->
  (forall m, m ∈ module -> is_conv_linear_deconv (kind m) = true -> weight m <> Some b) ->
  (exists m, m ∈ module /\ is_conv_linear_deconv (kind m) = true /\ bias m = Some b) ->
  params (init_weights_normal module std s).2 !! b
  = Some (fill (lit 0) (params s !!! b)).
Proof.
  intros Hok Hw Hb. destruct (init_weights_normal module std s) as [r s'] eqn:Hrun.
  cbn [fst snd] in Hok |- *. subst r.
  destruct (drawn_loop_zeroes (fun w => normal_ w (lit 0) std)
              (fun w s q => normal_frame w (lit 0) std s q)
              (fun w s ps0 => normal_layout w (lit 0) std s ps0)
              b module s s' (params s) Hrun) as (_ & _ & Hnew); [done|done|].
  by apply Hnew.
Qed.

Lemma zeroes_xavier module (s : tstate F G) b :
  (init_weights_xavier module s).1 = inr () ->
  (forall m, m ∈ module -> is_conv_linear_deconv (kind m) = true -> weight m <> Some b) ->
  (exists m, m ∈ module /\ is_conv_linear_deconv (kind m) = true /\ bias m = Some b) ->
  params (init_weights_xavier module s).2 !! b
  = Some (fill (lit 0) (params s !!! b)).
Proof.
  intros Hok Hw Hb. destruct (init_weights_xavier module s) as [r s'] eqn:Hrun.
  cbn [fst snd] in Hok |- *. subst r.
  destruct (drawn_loop_zeroes xavier_normal_) with (b := b) (module := module)
    (s := s) (s' := s') (ps0 := params s) as (_ & _ & Hnew); try done.
  - intros w s0 q Hq. rewrite xavier_run. destruct (xavier_std _); [|done].
    by apply normal_frame.
  - intros w s0 ps0 Hl. rewrite xavier_run. destruct (xavier_std _); [|done].
    by apply normal_layout.
  - by apply Hnew.
Qed.

Lemma zeroes_msra module (s : tstate F G) b :
  (init_weights_msra module s).1 = inr () ->
  (forall m, m ∈ module -> is_conv_linear_deconv (kind m) = true -> weight m <> Some b) ->
  (exists m, m ∈ module /\ is_conv_linear_deconv (kind m) = true /\ bias m = Some b) ->
  params (init_weights_msra module s).2 !! b
  = Some (fill (lit 0) (params s !!! b)).
Proof.
  intros Hok Hw Hb. destruct (init_weights_msra module s) as [r s'] eqn:Hrun.
  cbn [fst snd] in Hok |- *. subst r.
  destruct (drawn_loop_zeroes kaiming_normal_) with (b := b) (module := module)
    (s := s) (s' := s') (ps0 := params s) as (_ & _ & Hnew); try done.
  - intros w s0 q Hq. rewrite kaiming_run. destruct (kaiming_std _); [|done].
    by apply normal_frame.
  - intros w s0 ps0 Hl. rewrite kaiming_run. destruct (kaiming_std _); [|done].
    by apply normal_layout.
  - by apply Hnew.
Qed.

Lemma normal_layer_run std m (s : tstate F G) :
  (if is_conv_linear_deconv (kind m)
   then w ← weight_data m; _ ← normal_ w (lit 0) std; zero_bias m
   else mret ()) s
  = if is_conv_linear_deconv (kind m) then
      match weight m with
      | None => (inl none_has_no_data, s)
      | Some w =>
          if std_ok std
          then (inr (), (zero_bias m (normal_ w (lit 0) std s).2).2)
          else (inl RuntimeError, s)
      end
    else (inr (), s).
Proof.
  destruct (is_conv_linear_deconv (kind m)); [|done].
  unfold weight_data, normal_, lift_option, mbind, M_bind, mret, M_ret, raise.
  destruct (weight m) as [w|]; [|done].
  destruct (std_ok std); [|done]. destruct (draws _ _). cbn [snd].
  unfold zero_bias, zero_, constant_, data_of, set_data, mbind, M_bind, mret, M_ret.
  by destruct (bias m).
Qed.
End DrawnInitialisers.

Section BatchNorm.
Context {F G : Type} `{RT : Runtime F G}.

Local Abbreviation T := (M (tstate F G)).

Lemma init_bn_run m (s : tstate F G) :
  init_bn m s
  = (inr (),
     match kind m with
     | BatchNorm2d =>
         let ps1 := match weight m with
                    | Some w => <[w := fill (of_int 1) (params s !!! w)]> (params s)
                    | None => params s
                    end in
         mkTState (match bias m with
                   | Some b => <[b := fill (lit 0) (ps1 !!! b)]> ps1
                   | None => ps1
                   end) (gen s)
     | _ => s
     end).
Proof.
  unfold init_bn, zero_, constant_, data_of, set_data, mbind, M_bind, mret, M_ret.
  destruct s as [ps g]. by destruct (kind m), (weight m), (bias m).
Qed.

Lemma fill_new (ps0 ps : gmap nat (tensor F)) p c :
  same_layout ps0 ps ->
  <[p := fill c (ps !!! p)]> ps !! p = Some (fill c (ps0 !!! p)).
Proof.
  intros Hlay. rewrite lookup_insert_eq. f_equal. apply fill_layout; apply Hlay.
Qed.

(** One layer of the loop of [initialize]. *)
Lemma init_bn_layer m (s : tstate F G) (ps0 : gmap nat (tensor F)) :
  same_layout ps0 (params s) ->
  let s' := (init_bn m s).2 in
  same_layout ps0 (params s')
  /\ forall p,
       ((is_batchnorm (kind m) = true -> bias m <> Some p) ->
        (params s !! p = Some (fill (of_int 1) (ps0 !!! p))
         \/ (is_batchnorm (kind m) = true /\ weight m = Some p)) ->
        params s' !! p = Some (fill (of_int 1) (ps0 !!! p)))
       /\ ((is_batchnorm (kind m) = true -> weight m <> Some p) ->
           (params s !! p = Some (fill (lit 0) (ps0 !!! p))
            \/ (is_batchnorm (kind m) = true /\ bias m = Some p)) ->
           params s' !! p = Some (fill (lit 0) (ps0 !!! p))).
Proof.
  intros Hlay. rewrite init_bn_run. cbn [snd].
  destruct (kind m) eqn:Hk; cbn [is_batchnorm];
    try (split; [done|]; intros p; split; intros _ [?|[? _]]; done).
  destruct (weight m) as [w|] eqn:Hw; destruct (bias m) as [b|] eqn:Hb; cbn [params].
  - pose proof (same_layout_fill (of_int 1) ps0 (params s) w Hlay) as Hl1.
    split; [by apply same_layout_fill|]. intros p. split.
    + intros Hne Hp. assert (b <> p) by (intros ->; by apply Hne).
      rewrite lookup_insert_ne by done.
      destruct (decide (w = p)) as [->|Hwp]; [by apply fill_new|].
      rewrite lookup_insert_ne by done. destruct Hp as [?|[_ ?]]; [done|congruence].
    + intros Hne Hp. assert (w <> p) by (intros ->; by apply Hne).
      destruct (decide (b = p)) as [->|Hbp]; [by apply fill_new|].
      rewrite !lookup_insert_ne by done. destruct Hp as [?|[_ ?]]; [done|congruence].
  - split; [by apply same_layout_fill|]. intros p. split.
    + intros _ Hp. destruct (decide (w = p)) as [->|Hwp]; [by apply fill_new|].
      rewrite lookup_insert_ne by done. destruct Hp as [?|[_ ?]]; [done|congruence].
    + intros Hne Hp. assert (w <> p) by (intros ->; by apply Hne).
      rewrite lookup_insert_ne by done. destruct Hp as [?|[_ ?]]; [done|congruence].
  - split; [by apply same_layout_fill|]. intros p. split.
    + intros Hne Hp. assert (b <> p) by (intros ->; by apply Hne).
      rewrite lookup_insert_ne by done. destruct Hp as [?|[_ ?]]; [done|congruence].
    + intros _ Hp. destruct (decide (b = p)) as [->|Hbp]; [by apply fill_new|].
      rewrite lookup_insert_ne by done. destruct Hp as [?|[_ ?]]; [done|congruence].
  - split; [done|]. intros p. split; intros _ [?|[_ ?]]; done.
Qed.

(** The loop of [initialize] never raises; it leaves ones in the weights
    and zeros in the biases of the batch normalisations. *)
Lemma init_bn_loop model :
  forall (s : tstate F G) (ps0 : gmap nat (tensor F)),
    same_layout ps0 (params s) ->
    let r := for_each init_bn model s in
    r.1 = inr ()
    /\ same_layout ps0 (params r.2)
    /\ forall p,
         ((forall m, m ∈ model -> is_batchnorm (kind m) = true -> bias m <> Some p) ->
          (params s !! p = Some (fill (of_int 1) (ps0 !!! p))
           \/ (exists m, m ∈ model /\ is_batchnorm (kind m) = true /\ weight m = Some p)) ->
          params r.2 !! p = Some (fill (of_int 1) (ps0 !!! p)))
         /\ ((forall m, m ∈ model -> is_batchnorm (kind m) = true -> weight m <> Some p) ->
             (params s !! p = Some (fill (lit 0) (ps0 !!! p))
              \/ (exists m, m ∈ model /\ is_batchnorm (kind m) = true /\ bias m = Some p)) ->
             params r.2 !! p = Some (fill (lit 0) (ps0 !!! p))).
Proof.
  induction model as [|m model IH]; intros s ps0 Hlay.
  { cbn. split; [done|]. split; [done|]. intros p.
    split; intros _ [?|(m & ?%elem_of_nil & _)]; done. }
  cbn zeta. rewrite for_each_cons.
  destruct (init_bn_layer m s ps0 Hlay) as (Hl1 & Hstep).
  rewrite init_bn_run in Hl1, Hstep |- *. cbn [snd] in Hl1, Hstep.
  destruct (IH _ ps0 Hl1) as (Hok & Hl & Hrest).
  split; [done|]. split; [done|]. intros p.
  destruct (Hstep p) as [Hone Hzero]. destruct (Hrest p) as [Hone' Hzero'].
  split.
  - intros Hne Hp. apply Hone'; [intros m' Hm'; apply Hne; by right|].
    destruct Hp as [Hp|(m' & [->|Hm']%elem_of_cons & Hk & Hw)].
    + left. apply Hone; [apply Hne; by left|by left].
    + left. apply Hone; [apply Hne; by left|by right].
    + right. by exists m'.
  - intros Hne Hp. apply Hzero'; [intros m' Hm'; apply Hne; by right|].
    destruct Hp as [Hp|(m' & [->|Hm']%elem_of_cons & Hk & Hw)].
    + left. apply Hzero; [apply Hne; by left|by left].
    + left. apply Hzero; [apply Hne; by left|by right].
    + right. by exists m'.
Qed.

Lemma touches_mono {A} ids ids' (m : T A) :
  (forall p, p ∈ ids -> p ∈ ids') -> touches_only ids m -> touches_only ids' m.
Proof. intros Hsub Hm s p Hp. apply Hm. intros Hin. by apply Hp, Hsub. Qed.

Lemma focal_biases_conv_like module p :
  p ∈ focal_biases module -> p ∈ conv_like_params module.
Proof.
  intros (m & Hm & Hk & Hb)%owned_inv. eapply conv_like_bias; [done| |done].
  by destruct (kind m).
Qed.

Lemma touches_raising_loop {A} ids sel (attr : submodule -> T A) e module :
  (forall m, touches_only ids (attr m)) ->
  touches_only ids (raising_loop sel attr e module).
Proof.
  intros Hattr. apply touches_for_each. intros m _.
  destruct (sel (kind m)); [|apply touches_ret].
  apply touches_bind; [apply Hattr|]. intros _. apply touches_raise.
Qed.

Lemma touches_sigmoid_layer module p m :
  m ∈ module ->
  touches_only (F := F) (G := G) (focal_biases module) (sigmoid_layer p m).
Proof.
  intros Hm. unfold sigmoid_layer.
  destruct (is_conv_linear (kind m)) eqn:Hk; [|apply touches_ret].
  apply touches_bind_lift. intros b Hb.
  assert (Hin : b ∈ focal_biases module) by by eapply owned_elem.
  apply touches_bind; [apply touches_focal_constant|]. intros c.
  apply touches_bind; [by apply touches_normal_|]. intros _.
  apply touches_bind; [apply touches_focal_constant|]. intros c'.
  by apply touches_constant_.
Qed.

Lemma touches_softmax_layer module p nc m :
  m ∈ module ->
  touches_only (F := F) (G := G) (focal_biases module) (softmax_layer p nc m).
Proof.
  intros Hm. unfold softmax_layer.
  destruct (is_conv_linear (kind m)) eqn:Hk; [|apply touches_ret].
  apply touches_bind_lift. intros b Hb.
  assert (Hin : b ∈ focal_biases module) by by eapply owned_elem.
  apply touches_bind; [by apply touches_normal_|]. intros _.
  apply touches_bind; [apply touches_data_of|]. intros t.
  apply touches_bind; [apply touches_range_step|]. intros idxs.
  apply touches_for_each. intros i _. by apply touches_softmax_slot.
Qed.

Lemma touches_sigmoid_layer_dyn module p m :
  m ∈ module ->
  touches_only (F := F) (G := G) (focal_biases module) (sigmoid_layer_dyn p m).
Proof.
  intros Hm. destruct p as [e|p]; [|by apply touches_sigmoid_layer].
  cbn [sigmoid_layer_dyn]. destruct (is_conv_linear (kind m)); [|apply touches_ret].
  apply touches_bind; [apply touches_lift_option|]. intros _. apply touches_raise.
Qed.

Lemma touches_softmax_layer_dyn module p nc m :
  m ∈ module ->
  touches_only (F := F) (G := G) (focal_biases module) (softmax_layer_dyn p nc m).
Proof.
  intros Hm. destruct nc as [e|nc]; [|destruct p as [e|p]];
    [..|by apply touches_softmax_layer]; cbn [softmax_layer_dyn];
    destruct (is_conv_linear (kind m)) eqn:Hk; try apply touches_ret;
    apply touches_bind_lift; intros b Hb;
    assert (Hin : b ∈ focal_biases module) by (by eapply owned_elem);
    (apply touches_bind; [by apply touches_normal_|]); intros _.
  - apply touches_raise.
  - apply touches_bind; [apply touches_data_of|]. intros t.
    apply touches_bind; [apply touches_range_step|]. intros idxs.
    apply touches_for_each. intros i _. apply touches_raise.
Qed.

(** Every initialiser of the registry writes only parameters of
    convolution-like layers. *)
Lemma touches_registered pystr name init model kwargs :
  INITIALIZER_REGISTRY pystr !! name = Some init ->
  touches_only (F := F) (G := G) (conv_like_params model) (init model kwargs).
Proof.
  unfold INITIALIZER_REGISTRY. intros Hget.
  repeat (apply lookup_insert_Some in Hget as [[_ <-]|[_ Hget]]);
    [..|apply lookup_singleton_Some in Hget as [_ <-]].
  - unfold call_constant. destruct (binds _ _ _); [|apply touches_raise].
    destruct (as_scalar _); [|apply touches_constant].
    apply touches_raising_loop. intros m. apply touches_lift_option.
  - unfold call_normal. destruct (binds _ _ _); [|apply touches_raise].
    destruct (as_float _); [|apply touches_normal].
    apply touches_raising_loop. intros m. apply touches_lift_option.
  - unfold call_xavier. destruct (binds _ _ _); [apply touches_xavier|apply touches_raise].
  - unfold call_msra. destruct (binds _ _ _); [apply touches_msra|apply touches_raise].
  - unfold call_focal. destruct (binds _ _ _); [|apply touches_raise].
    cbv zeta.
    destruct (default VNone (kwargs !! "cls_loss_type")) as [| | | |cls];
      try apply touches_raise.
    eapply touches_mono; [apply focal_biases_conv_like|].
    destruct (String.eqb cls "sigmoid"); [|destruct (String.eqb cls "softmax")].
    + apply touches_for_each. intros m Hm. by apply touches_sigmoid_layer_dyn.
    + apply touches_for_each. intros m Hm. by apply touches_softmax_layer_dyn.
    + apply touches_raise.
Qed.

Lemma touches_initialize_call pystr model method kwargs :
  touches_only (F := F) (G := G) (conv_like_params model)
    (init_instance ← registry_get (INITIALIZER_REGISTRY pystr) method;
     init_instance model kwargs).
Proof.
  unfold registry_get. destruct method; try by intros s p _.
  apply touches_bind_lift. intros init Hget. by eapply touches_registered.
Qed.
End BatchNorm.

Section Cfg.
Context {F G : Type} `{RT : Runtime F G}.
Variable registry : gmap string (initializer (F := F) (G := G)).

(** [initialize_from_cfg] on a dictionary with a ['method'] entry, with the
    copy, the [pop] and the unpacking of [**cfg] carried out. *)
Lemma cfg_run model (w : @world F G) a d method :
  heap w !! a = Some d -> d !! "method" = Some method ->
  let r := initialize_from_cfg registry model (Some a) w in
  let r0 := initialize registry model method (delete "method" d) (tensors w) in
  if bool_decide (is_Some (delete "method" d !! "model"))
  then r.1 = inl TypeError /\ tensors r.2 = tensors w
  else r.1 = r0.1 /\ tensors r.2 = r0.2.
Proof.
  intros Ha Hd.
  unfold initialize_from_cfg, mbind, M_bind, deepcopy, dict_pop, dict_items.
  cbn [heap tensors]. rewrite lookup_total_insert_eq.
  rewrite (lookup_total_correct _ _ _ Ha), Hd.
  cbn [heap tensors]. rewrite insert_insert_eq, lookup_total_insert_eq.
  case_bool_decide; [done|].
  unfold lift_t. cbn [tensors heap].
  by destruct (initialize registry model method (delete "method" d) (tensors w)).
Qed.
End Cfg.

Section Softmax.
Context {F G : Type} `{RT : Runtime F G}.

Lemma softmax_slot_run b p nc i (s : tstate F G) :
  softmax_slot b p nc i s
  = match softmax_slot_value p nc (tdata (params s !!! b)) i with
    | None => (inl ValueError, s)
    | Some v =>
        (inr (),
         mkTState (<[b := mkTensor (tshape (params s !!! b))
                                    (<[i := v]> (tdata (params s !!! b)))]> (params s))
                  (gen s))
    end.
Proof.
  unfold softmax_slot, softmax_slot_value, data_of, set_data, lift_option,
    mbind, M_bind, mret, M_ret, raise.
  by destruct (py_log _).
Qed.

(** The slots [a * st, (a + 1) * st, ...], visited in this order: each one
    is computed from the values that follow it, which no earlier slot has
    overwritten. *)
Lemma softmax_slots_loop b p nc st :
  0 < st ->
  forall len a (s s' : tstate F G),
    for_each (softmax_slot b p nc) (map (fun k => k * st) (seq a len)) s = (inr (), s') ->
    let ds := tdata (params s !!! b) in
    let ds' := tdata (params s' !!! b) in
    length ds' = length ds
    /\ tshape (params s' !!! b) = tshape (params s !!! b)
    /\ (forall j, (forall k, a <= k < a + len -> j <> k * st) -> ds' !! j = ds !! j)
    /\ (forall k, a <= k < a + len -> k * st < length ds ->
                  exists v, softmax_slot_value p nc ds (k * st) = Some v
                            /\ ds' !! (k * st) = Some v).
Proof.
  intros Hst. induction len as [|len IH]; intros a s s' Hrun.
  { injection Hrun as <-. cbn zeta. split; [done|]. split; [done|].
    split; [done|]. intros k ?. lia. }
  cbn [seq map] in Hrun. rewrite for_each_cons, softmax_slot_run in Hrun.
  destruct (softmax_slot_value p nc (tdata (params s !!! b)) (a * st)) as [v|] eqn:Hv;
    [|done].
  destruct (IH _ _ _ Hrun) as (Hlen & Hshape & Hout & Hin).
  cbn [params] in Hlen, Hshape, Hout, Hin.
  rewrite lookup_total_insert_eq in Hlen, Hshape, Hout, Hin.
  cbn [tdata tshape] in Hlen, Hshape, Hout, Hin.
  rewrite length_insert in Hlen, Hin.
  cbn zeta. split; [done|]. split; [done|]. split.
  - intros j Hj. rewrite Hout by (intros k Hk; apply Hj; lia).
    apply list_lookup_insert_ne. intros Heq. apply (Hj a); [lia|done].
  - intros k Hk Hlt. destruct (decide (k = a)) as [->|Hne].
    + exists v. split; [done|].
      rewrite Hout by (intros k Hk'; nia). by apply list_lookup_insert_eq.
    + destruct (Hin k) as (v' & Hv' & Hget); [lia|done|].
      exists v'. split; [|done]. rewrite <- Hv'. unfold softmax_slot_value.
      rewrite drop_insert_lt by nia. done.
Qed.

Lemma normal_data b mean std (s : tstate F G) :
  std_ok std = true ->
  params (normal_ b mean std s).2 !!! b
  = mkTensor (tshape (params s !!! b))
             (map (fun z => fadd mean (fmul std z))
                  (draws (length (tdata (params s !!! b))) (gen s)).1).
Proof.
  intros Hstd. unfold normal_. rewrite Hstd. destruct (draws _ _). cbn.
  by rewrite lookup_total_insert_eq.
Qed.

Lemma softmax_layer_run p nc m (s : tstate F G) :
  softmax_layer p nc m s
  = if is_conv_linear (kind m) then
      match bias m with
      | None => (inl none_has_no_data, s)
      | Some b =>
          if std_ok (lit (1 # 100)) then
            let s1 := (normal_ b (lit 0) (lit (1 # 100)) s).2 in
            match range_step (length (tdata (params s1 !!! b))) nc s1 with
            | (inr idxs, s2) => for_each (softmax_slot b p nc) idxs s2
            | (inl e, s2) => (inl e, s2)
            end
          else (inl RuntimeError, s)
      end
    else (inr (), s).
Proof.
  unfold softmax_layer. destruct (is_conv_linear (kind m)); [|done].
  unfold bias_data. destruct (bias m) as [b|]; [|done].
  unfold mbind, M_bind, lift_option, mret, M_ret, data_of, normal_.
  destruct (std_ok (lit (1 # 100))); [|done]. by destruct (draws _ _).
Qed.

Lemma range_step_positive n nc (s : tstate F G) :
  (0 < nc)%Z ->
  range_step n nc s
  = (inr (map (fun k => k * Z.to_nat nc) (seq 0 ((n + Z.to_nat nc - 1) / Z.to_nat nc))), s).
Proof.
  intros Hnc. unfold range_step.
  destruct (Z.eqb_spec nc 0); [lia|]. by destruct (Z.ltb_spec nc 0); [lia|].
Qed.

Lemma slot_in_range n st k :
  0 < st -> k < n -> k mod st = 0 -> k / st < (n + st - 1) / st /\ k = k / st * st.
Proof.
  intros Hst Hk Hmod. pose proof (Nat.div_mod_eq k st) as Hdm. rewrite Hmod in Hdm.
  split; [|lia].
  apply (Nat.lt_le_trans _ (k / st + 1)); [lia|].
  apply Nat.div_le_lower_bound; [lia|]. nia.
Qed.
End Softmax.

(** X9: when [init_weights_constant] returns, every parameter that is the
    weight or the bias of a [Conv2d], [Linear] or [ConvTranspose2d] layer
    holds [val] in every element and has kept its shape, also when layers
    share parameters. *)
Theorem constant_fills_every_layer {F G : Type}
    (module : list submodule) (val : F) (s : tstate F G) (m : submodule) (p : nat) :
  (init_weights_constant module val s).1 = inr () ->
  m ∈ module ->
  is_conv_linear_deconv (kind m) = true ->
  weight m = Some p \/ bias m = Some p ->
  params (init_weights_constant module val s).2 !! p
  = Some (mkTensor (tshape (params s !!! p))
                   (replicate (length (tdata (params s !!! p))) val)).
Proof.
  intros Hok Hm Hk Hp.
  destruct (init_weights_constant module val s) as [r s'] eqn:Hrun.
  cbn [fst snd] in Hok |- *. subst r.
  destruct (loop_fills val _ layer_params (constant_loop_fills val)
              module s s' (params s) Hrun) as (_ & _ & Hall); [done|].
  apply (Hall m p Hm). unfold layer_params. rewrite Hk.
  destruct Hp as [-> | ->]; cbn.
  - by left.
  - apply elem_of_app. right. by left.
Qed.

Lemma constant_fills_every_layer_witness :
  (init_weights_constant example_model (FLit (1 # 2))
                         example_state).1 = inr ()
  /\ mkSub Linear (Some 4) (Some 5) ∈ example_model
  /\ is_conv_linear_deconv Linear = true
  /\ (Some 4 = Some 4 \/ Some 5 = Some 4)
  /\ params (init_weights_constant example_model (FLit (1 # 2))
                                   example_state).2 !! 4
     = Some (mkTensor (tshape (params example_state !!! 4))
                      (replicate (length (tdata (params example_state !!! 4)))
                                 (FLit (1 # 2)))).
Proof.
  assert (Hin : mkSub Linear (Some 4) (Some 5) ∈ example_model).
  { unfold example_model. repeat constructor. }
  split; [vm_compute; reflexivity|]. split; [exact Hin|]. split; [reflexivity|].
  split; [by left|].
  apply (constant_fills_every_layer example_model (FLit (1 # 2))
           example_state (mkSub Linear (Some 4) (Some 5)) 4);
    [vm_compute; reflexivity | exact Hin | reflexivity | by left].
Defined.

(** X10: [init_weights_constant] reads [m.bias.data] without the test for
    [None] that the other weight initialisers make: it returns exactly when
    every [Conv2d], [Linear] and [ConvTranspose2d] layer has both a weight
    and a bias, and a layer built with [bias=False] makes it raise
    [AttributeError]. *)
Theorem constant_needs_every_bias {F G : Type}
    (module : list submodule) (val : F) (s : tstate F G) :
  ((init_weights_constant module val s).1 = inr ()
   <-> forall m, m ∈ module -> is_conv_linear_deconv (kind m) = true ->
                 is_Some (weight m) /\ is_Some (bias m))
  /\ ((exists m, m ∈ module /\ is_conv_linear_deconv (kind m) = true
                 /\ (weight m = None \/ bias m = None))
      -> (init_weights_constant module val s).1 = inl none_has_no_data).
Proof.
  split; [split|].
  - apply constant_success_params.
  - unfold init_weights_constant. revert s.
    induction module as [|m0 module IH]; intros s Hall; [done|].
    rewrite for_each_cons, constant_layer_run.
    destruct (is_conv_linear_deconv (kind m0)) eqn:Hk.
    + destruct (Hall m0) as [[w ->] [b ->]]; [by left|done|].
      apply IH. intros m Hm. apply Hall. by right.
    + apply IH. intros m Hm. apply Hall. by right.
  - intros (m & Hm & Hk & Hnone). unfold init_weights_constant. revert s.
    induction module as [|m0 module IH]; intros s; [by apply elem_of_nil in Hm|].
    rewrite for_each_cons, constant_layer_run.
    apply elem_of_cons in Hm as [->|Hm].
    + rewrite Hk. destruct Hnone as [-> | ->]; [done|]. by destruct (weight m0).
    + destruct (is_conv_linear_deconv (kind m0)); [|by apply IH].
      destruct (weight m0); [|done]. destruct (bias m0); [|done]. by apply IH.
Qed.

Lemma constant_needs_every_bias_witness :
  (exists m, m ∈ [mkSub Conv2d (Some 0) None] /\ is_conv_linear_deconv (kind m) = true
             /\ (weight m = None \/ bias m = None))
  /\ (init_weights_constant [mkSub Conv2d (Some 0) None]
                            (FLit 0) example_state).1
     = inl none_has_no_data.
Proof.
  assert (H : exists m, m ∈ [mkSub Conv2d (Some 0) None]
                        /\ is_conv_linear_deconv (kind m) = true
                        /\ (weight m = None \/ bias m = None)).
  { exists (mkSub Conv2d (Some 0) None). split; [by left|]. split; [done|by right]. }
  split; [exact H|].
  exact (proj2 (constant_needs_every_bias
                  [mkSub Conv2d (Some 0) None] (FLit 0) example_state) H).
Defined.

(** X11: when [init_weights_normal], [init_weights_xavier] or
    [init_weights_msra] returns, the bias of every [Conv2d], [Linear] and
    [ConvTranspose2d] layer is all zeros with its shape kept, provided no
    such layer uses that parameter as its weight. *)
Theorem drawn_initialisers_zero_biases {F G : Type} `{RT : Runtime F G}
    (module : list submodule) (std : F) (init : M (tstate F G) unit)
    (s : tstate F G) (b : nat) :
  init ∈ [init_weights_normal module std; init_weights_xavier module;
          init_weights_msra module] ->
  (init s).1 = inr () ->
  (forall m, m ∈ module -> is_conv_linear_deconv (kind m) = true -> weight m <> Some b) ->
  (exists m, m ∈ module /\ is_conv_linear_deconv (kind m) = true /\ bias m = Some b) ->
  params (init s).2 !! b
  = Some (mkTensor (tshape (params s !!! b))
                   (replicate (length (tdata (params s !!! b))) (lit 0))).
Proof.
  intros Hinit Hok Hw Hb.
  apply elem_of_cons in Hinit as [->|Hinit]; [by apply zeroes_normal|].
  apply elem_of_cons in Hinit as [->|Hinit]; [by apply zeroes_xavier|].
  apply elem_of_cons in Hinit as [->|Hinit]; [by apply zeroes_msra|].
  by apply elem_of_nil in Hinit.
Qed.

Lemma example_model_bias_5 :
  (forall m, m ∈ example_model -> is_conv_linear_deconv (kind m) = true ->
             weight m <> Some 5)
  /\ (exists m, m ∈ example_model /\ is_conv_linear_deconv (kind m) = true
                /\ bias m = Some 5).
Proof.
  split.
  - intros m Hm Hk. unfold example_model in Hm.
    repeat (apply elem_of_cons in Hm as [->|Hm]); [..|by apply elem_of_nil in Hm];
      cbn in Hk |- *; first [discriminate | intros [=]].
  - exists (mkSub Linear (Some 4) (Some 5)).
    split; [unfold example_model; repeat constructor|done].
Defined.

Lemma drawn_initialisers_zero_biases_witness :
  init_weights_xavier (RT := symbolic_runtime) example_model
    ∈ [init_weights_normal (RT := symbolic_runtime) example_model (FLit (1 # 100));
       init_weights_xavier (RT := symbolic_runtime) example_model;
       init_weights_msra (RT := symbolic_runtime) example_model]
  /\ (init_weights_xavier (RT := symbolic_runtime) example_model example_state).1 = inr ()
  /\ params (init_weights_xavier (RT := symbolic_runtime) example_model example_state).2 !! 5
     = Some (mkTensor (tshape (params example_state !!! 5))
                      (replicate (length (tdata (params example_state !!! 5))) (FLit 0))).
Proof.
  assert (Hin : init_weights_xavier (RT := symbolic_runtime) example_model
    ∈ [init_weights_normal (RT := symbolic_runtime) example_model (FLit (1 # 100));
       init_weights_xavier (RT := symbolic_runtime) example_model;
       init_weights_msra (RT := symbolic_runtime) example_model]).
  { right. left. }
  split; [exact Hin|]. split; [vm_compute; reflexivity|].
  apply (drawn_initialisers_zero_biases (RT := symbolic_runtime) example_model
           (FLit (1 # 100)) (init_weights_xavier (RT := symbolic_runtime) example_model)
           example_state 5 Hin);
    [vm_compute; reflexivity | apply example_model_bias_5 | apply example_model_bias_5].
Defined.

(** X12: [init_weights_normal] returns exactly when every [Conv2d],
    [Linear] and [ConvTranspose2d] layer has a weight and, if there is such
    a layer, [std] is one that [normal_] accepts; a layer without bias is
    skipped by the test [m.bias is not None], and a model without any such
    layer is accepted with any [std]. *)
Theorem normal_returns_iff {F G : Type} `{RT : Runtime F G}
    (module : list submodule) (std : F) (s : tstate F G) :
  (init_weights_normal module std s).1 = inr ()
  <-> forall m, m ∈ module -> is_conv_linear_deconv (kind m) = true ->
                is_Some (weight m) /\ std_ok std = true.
Proof.
  unfold init_weights_normal. revert s.
  induction module as [|m0 module IH]; intros s.
  { split; [|done]. by intros _ m ?%elem_of_nil. }
  rewrite for_each_cons, normal_layer_run.
  destruct (is_conv_linear_deconv (kind m0)) eqn:Hk.
  - destruct (weight m0) as [w|] eqn:Hw.
    + destruct (std_ok std) eqn:Hstd.
      * rewrite IH. split.
        -- intros H m [->|Hm]%elem_of_cons Hkm; [by rewrite Hw; eauto|by apply H].
        -- intros H m Hm. apply H. by right.
      * split; [done|]. intros H.
        by specialize (H m0 ltac:(by left) Hk) as [_ ?].
    + split; [done|]. intros H.
      specialize (H m0 ltac:(by left) Hk) as [[? ?] _]. congruence.
  - rewrite IH. split.
    + intros H m [->|Hm]%elem_of_cons Hkm; [congruence|by apply H].
    + intros H m Hm. apply H. by right.
Qed.

(** A convolution built with [bias=False]: accepted by
    [init_weights_normal], rejected by [init_weights_constant]. *)
Example bias_free_convolution :
  let module := [mkSub Conv2d (Some 0) None] in
  (init_weights_normal (RT := symbolic_runtime) module (FLit (1 # 100)) example_state).1
  = inr ()
  /\ (init_weights_constant module (FLit 0) example_state).1 = inl none_has_no_data.
Proof. split; vm_compute; reflexivity. Qed.

(** X13: [initialize] with the registry of this file resets every
    [BatchNorm2d] layer first: afterwards its weight is all ones and its
    bias all zeros, with the shapes kept, whatever [method] and [kwargs]
    are and whether the call returns or raises, provided the parameter
    belongs to no [Conv2d], [Linear] or [ConvTranspose2d] layer and is not
    the other parameter of a [BatchNorm2d] layer. *)
Theorem initialize_resets_batchnorm {F G : Type} `{RT : Runtime F G}
    (pystr : pyval F -> string) (model : list submodule) (method : pyval F)
    (kwargs : gmap string (pyval F)) (s : tstate F G) (m : submodule) :
  m ∈ model ->
  kind m = BatchNorm2d ->
  let s' := (initialize (INITIALIZER_REGISTRY pystr) model method kwargs s).2 in
  (forall w, weight m = Some w ->
             w ∉ conv_like_params model -> w ∉ owned is_batchnorm bias model ->
             params s' !! w
             = Some (mkTensor (tshape (params s !!! w))
                              (replicate (length (tdata (params s !!! w))) (of_int 1))))
  /\ (forall b, bias m = Some b ->
                b ∉ conv_like_params model -> b ∉ owned is_batchnorm weight model ->
                params s' !! b
                = Some (mkTensor (tshape (params s !!! b))
                                 (replicate (length (tdata (params s !!! b))) (lit 0)))).
Proof.
  intros Hm Hk s'. subst s'. unfold initialize.
  destruct (init_bn_loop model s (params s)) as (Hok & _ & Hbn); [done|].
  change (for_each init_bn model ≫= ?k)
    with (fun s0 => match for_each init_bn model s0 with
                    | (inr a, s1) => k a s1
                    | (inl e, s1) => (inl e, s1)
                    end).
  cbv beta. destruct (for_each init_bn model s) as [r s1]. cbn [fst snd] in Hok, Hbn.
  subst r.
  assert (Hbnk : is_batchnorm (kind m) = true) by by rewrite Hk.
  split.
  - intros w Hw Hconv Hother.
    rewrite (touches_initialize_call pystr model method kwargs s1 w Hconv).
    apply (Hbn w).
    + intros m' Hm' Hk' Hb'. apply Hother. by eapply owned_elem.
    + right. by exists m.
  - intros b Hb Hconv Hother.
    rewrite (touches_initialize_call pystr model method kwargs s1 b Hconv).
    apply (Hbn b).
    + intros m' Hm' Hk' Hw'. apply Hother. by eapply owned_elem.
    + right. by exists m.
Qed.

Lemma initialize_resets_batchnorm_witness :
  mkSub BatchNorm2d (Some 2) (Some 3) ∈ example_model
  /\ kind (mkSub BatchNorm2d (Some 2) (Some 3)) = BatchNorm2d
  /\ (2 ∉ conv_like_params example_model)
  /\ (2 ∉ owned is_batchnorm bias example_model)
  /\ params (initialize example_registry example_model (VStr "msra") ∅
                        (mkTState (<[2 := mkTensor [2] [FLit 5; FLit 7]]> example_params) 0)).2
       !! 2
     = Some (mkTensor [2] [FInt 1; FInt 1]).
Proof.
  assert (Hin : mkSub BatchNorm2d (Some 2) (Some 3) ∈ example_model).
  { unfold example_model. repeat constructor. }
  assert (Hconv : 2 ∉ conv_like_params example_model).
  { rewrite list_elem_of_In. cbn. intuition discriminate. }
  assert (Hbias : 2 ∉ owned is_batchnorm bias example_model).
  { rewrite list_elem_of_In. cbn. intuition discriminate. }
  split; [exact Hin|]. split; [reflexivity|]. split; [exact Hconv|].
  split; [exact Hbias|].
  exact (proj1 (initialize_resets_batchnorm (RT := symbolic_runtime) symbolic_pystr
                  example_model (VStr "msra") ∅
                  (mkTState (<[2 := mkTensor [2] [FLit 5; FLit 7]]> example_params) 0)
                  (mkSub BatchNorm2d (Some 2) (Some 3)) Hin eq_refl)
               2 eq_refl Hconv Hbias).
Defined.

(** An unregistered method: the call raises, after the batch normalisation
    has been reset. *)
Example initialize_unknown_method :
  let r := initialize example_registry example_model (VStr "orthogonal") ∅
             (mkTState (<[2 := mkTensor [2] [FLit 5; FLit 7]]> example_params) 0) in
  r.1 = inl RegistryError
  /\ params r.2 !! 2 = Some (mkTensor [2] [FInt 1; FInt 1]).
Proof. split; by vm_compute. Qed.

(** Arguments are converted where the callee first uses them.  An unknown
    loss type is reported whatever the other arguments are; the sigmoid
    branch never looks at [num_classes]; a value that is no number is
    harmless on a model without a layer to initialise, and raises at the
    first such layer otherwise; so does an [int] too large for [fill_]. *)
Example arguments_convert_where_used :
  let focal cls prior classes : gmap string (pyval fexpr) :=
    {[ "cls_loss_type" := cls; "init_prior" := prior; "num_classes" := classes ]} in
  (initialize example_registry example_model (VStr "focal")
              (focal (VStr "other") (VStr "abc") VNone) example_state).1
  = inl (NotImplementedError "other is not supported")
  /\ (initialize example_registry example_model (VStr "focal")
                 (focal (VStr "sigmoid") (VFloat example_prior) (VStr "abc"))
                 example_state).1
     = inr ()
  /\ (initialize example_registry example_model (VStr "focal")
                 (focal (VStr "softmax") (VFloat example_prior) (VFloat (FLit 2)))
                 example_state).1
     = inl TypeError
  /\ (initialize example_registry [mkSub BatchNorm2d (Some 2) (Some 3)] (VStr "constant")
                 {[ "val" := VStr "abc" ]} example_state).1
     = inr ()
  /\ (initialize example_registry example_model (VStr "constant")
                 {[ "val" := VStr "abc" ]} example_state).1
     = inl TypeError
  /\ (initialize example_registry example_model (VStr "constant")
                 {[ "val" := VInt (2 ^ 70) ]} example_state).1
     = inl OverflowError
  /\ (initialize example_registry example_model (VStr "constant")
                 {[ "val" := VInt 3 ]} example_state).1
     = inr ().
Proof. repeat split; by vm_compute. Qed.

(** X14: [initialize_from_cfg(model, None)] is the call with the
    configuration [{'method': 'normal', 'std': 0.01}]: same outcome and
    same tensors, with any registry. *)
Theorem none_cfg_is_normal {F G : Type} `{RT : Runtime F G}
    (registry : gmap string (initializer (F := F) (G := G)))
    (model : list submodule) (w : @world F G) (a : nat) :
  heap w !! a = Some {[ "method" := VStr "normal"; "std" := VFloat (lit (1 # 100)) ]} ->
  (initialize_from_cfg registry model (Some a) w).1
  = (initialize_from_cfg registry model None w).1
  /\ tensors (initialize_from_cfg registry model (Some a) w).2
     = tensors (initialize_from_cfg registry model None w).2.
Proof.
  intros Ha.
  pose proof (cfg_run registry model w a _ (VStr "normal") Ha
                (lookup_insert_eq _ _ _)) as Hrun.
  cbn zeta in Hrun. rewrite delete_insert_id in Hrun by done.
  rewrite bool_decide_eq_false_2 in Hrun
    by (rewrite lookup_singleton_ne by done; by intros [? ?]).
  cbn [initialize_from_cfg]. unfold lift_t.
  destruct (initialize registry model (VStr "normal") _ (tensors w)) as [r0 t0].
  exact Hrun.
Qed.

Lemma none_cfg_is_normal_witness :
  let cfg : gmap string (pyval fexpr) :=
    {[ "method" := VStr "normal"; "std" := VFloat (FLit (1 # 100)) ]} in
  heap (example_world cfg) !! 7 = Some cfg
  /\ (initialize_from_cfg example_registry example_model (Some 7) (example_world cfg)).1
     = (initialize_from_cfg example_registry example_model None (example_world cfg)).1
  /\ tensors (initialize_from_cfg example_registry example_model (Some 7)
                                  (example_world cfg)).2
     = tensors (initialize_from_cfg example_registry example_model None
                                    (example_world cfg)).2.
Proof.
  intros cfg. split; [reflexivity|].
  apply (none_cfg_is_normal (RT := symbolic_runtime) example_registry example_model
           (example_world cfg) 7).
  reflexivity.
Defined.

(** X15: a configuration with a ['model'] entry beside ['method'] collides
    with the first parameter of [initialize]: the call raises [TypeError]
    before the body of [initialize] runs, so no tensor is written, not even
    those of the batch normalisations. *)
Theorem cfg_model_key_rejected {F G : Type} `{RT : Runtime F G}
    (registry : gmap string (initializer (F := F) (G := G)))
    (model : list submodule) (w : @world F G) (a : nat)
    (d : gmap string (pyval F)) :
  heap w !! a = Some d ->
  is_Some (d !! "method") ->
  is_Some (d !! "model") ->
  (initialize_from_cfg registry model (Some a) w).1 = inl TypeError
  /\ tensors (initialize_from_cfg registry model (Some a) w).2 = tensors w.
Proof.
  intros Ha [method Hmethod] Hmodel.
  pose proof (cfg_run registry model w a d method Ha Hmethod) as Hrun.
  cbn zeta in Hrun. rewrite bool_decide_eq_true_2 in Hrun; [done|].
  by rewrite lookup_delete_ne.
Qed.

Lemma cfg_model_key_rejected_witness :
  let cfg : gmap string (pyval fexpr) :=
    {[ "method" := VStr "xavier"; "model" := VStr "resnet" ]} in
  heap (example_world cfg) !! 7 = Some cfg
  /\ is_Some (cfg !! "method")
  /\ is_Some (cfg !! "model")
  /\ (initialize_from_cfg example_registry example_model (Some 7) (example_world cfg)).1
     = inl TypeError
  /\ tensors (initialize_from_cfg example_registry example_model (Some 7)
                                  (example_world cfg)).2
     = tensors (example_world cfg).
Proof.
  intros cfg.
  assert (H1 : is_Some (cfg !! "method")) by (by exists (VStr "xavier")).
  assert (H2 : is_Some (cfg !! "model")) by (by exists (VStr "resnet")).
  split; [reflexivity|]. split; [exact H1|]. split; [exact H2|].
  exact (cfg_model_key_rejected (RT := symbolic_runtime) example_registry example_model
           (example_world cfg) 7 cfg eq_refl H1 H2).
Defined.

(** X16: the softmax branch on one [Conv2d] or [Linear] layer, with
    [num_classes > 0]: when it returns, the bias has kept its shape and
    length; every element whose index is a multiple of [num_classes] holds
    [log(mu * (1 - init_prior) / init_prior)], with [mu] the sum of the
    exponentials of the (at most [num_classes - 1]) drawn values that
    follow it; every other element is the value drawn by [normal_(0, 0.01)]. *)
Theorem softmax_layer_slots {F G : Type} `{RT : Runtime F G}
    (init_prior : F) (num_classes : Z) (m : submodule) (b : nat) (s : tstate F G) :
  is_conv_linear (kind m) = true ->
  bias m = Some b ->
  (0 < num_classes)%Z ->
  (softmax_layer init_prior num_classes m s).1 = inr () ->
  let drawn := map (fun z => fadd (lit 0) (fmul (lit (1 # 100)) z))
                   (draws (length (tdata (params s !!! b))) (gen s)).1 in
  let out := params (softmax_layer init_prior num_classes m s).2 !!! b in
  tshape out = tshape (params s !!! b)
  /\ length (tdata out) = length (tdata (params s !!! b))
  /\ forall k, k < length (tdata out) ->
       if k mod Z.to_nat num_classes =? 0
       then exists v, softmax_slot_value init_prior num_classes drawn k = Some v
                      /\ tdata out !! k = Some v
       else tdata out !! k = drawn !! k.
Proof.
  intros Hk Hb Hnc Hok drawn out. subst out.
  rewrite softmax_layer_run in Hok |- *. rewrite Hk, Hb in Hok |- *.
  destruct (std_ok (lit (1 # 100))) eqn:Hstd; [|done].
  cbn zeta in Hok |- *. rewrite range_step_positive in Hok |- * by done.
  pose proof (normal_data b (lit 0) (lit (1 # 100)) s Hstd) as Hdata.
  fold drawn in Hdata.
  assert (Hlen0 : length drawn = length (tdata (params s !!! b))).
  { unfold drawn. by rewrite length_map, draws_length. }
  set (s1 := (normal_ b (lit 0) (lit (1 # 100)) s).2) in *.
  set (st := Z.to_nat num_classes) in *.
  assert (Hst : 0 < st) by (unfold st; lia).
  destruct (for_each _ _ s1) as [r s'] eqn:Hrun. cbn [fst snd] in Hok |- *. subst r.
  destruct (softmax_slots_loop b init_prior num_classes st Hst _ 0 s1 s' Hrun)
    as (Hlen & Hshape & Hout & Hin).
  rewrite Hdata in Hlen, Hshape, Hout, Hin. cbn [tdata tshape] in Hlen, Hshape, Hout, Hin.
  split; [done|]. split; [lia|]. intros k Hlt.
  destruct (Nat.eqb_spec (k mod st) 0) as [Hmod|Hmod].
  - destruct (slot_in_range (length drawn) st k Hst) as [Hq Hkq]; [lia|done|].
    destruct (Hin (k / st)) as (v & Hv & Hget); [lia|rewrite <- Hkq; lia|].
    rewrite <- Hkq in Hv, Hget. by exists v.
  - apply Hout. intros q _ ->. apply Hmod. apply Nat.Div0.mod_mul.
Qed.

Lemma softmax_layer_slots_witness :
  let m := mkSub Linear (Some 8) (Some 9) in
  let s : tstate fexpr nat :=
    mkTState {[ 8 := mkTensor [4; 1] [FLit 0; FLit 0; FLit 0; FLit 0];
                9 := mkTensor [4] [FLit 0; FLit 0; FLit 0; FLit 0] ]} 0 in
  let drawn := map (fun z => fadd (lit 0) (fmul (lit (1 # 100)) z))
                   (draws (length (tdata (params s !!! 9))) (gen s)).1 in
  let out := params (softmax_layer (RT := symbolic_runtime) example_prior 2 m s).2 !!! 9 in
  is_conv_linear (kind m) = true
  /\ bias m = Some 9
  /\ (0 < 2)%Z
  /\ (softmax_layer (RT := symbolic_runtime) example_prior 2 m s).1 = inr ()
  /\ tshape out = tshape (params s !!! 9)
  /\ length (tdata out) = length (tdata (params s !!! 9))
  /\ forall k, k < length (tdata out) ->
       if k mod Z.to_nat 2 =? 0
       then exists v, softmax_slot_value example_prior 2 drawn k = Some v
                      /\ tdata out !! k = Some v
       else tdata out !! k = drawn !! k.
Proof.
  intros m s drawn out.
  split; [reflexivity|]. split; [reflexivity|]. split; [lia|].
  split; [vm_compute; reflexivity|].
  apply (softmax_layer_slots (RT := symbolic_runtime) example_prior 2 m 9 s);
    [reflexivity | reflexivity | lia | vm_compute; reflexivity].
Defined.

(** A bias of four elements with two classes: slots 0 and 2 are rewritten
    from the draws that follow them, slots 1 and 3 keep their draws.  On a
    bias of three elements slot 2 has no draw after it, and the logarithm of
    the empty sum raises. *)
Example softmax_layer_example :
  let z k := FAdd (FLit 0) (FMul (FLit (1 # 100)) (FGauss k)) in
  let slot fg := FLog (FDiv (FMul (FSum fg) (FSub (FLit 1) example_prior)) example_prior) in
  tdata (params (softmax_layer (RT := symbolic_runtime) example_prior 2
                               (mkSub Linear (Some 8) (Some 9))
                               (mkTState {[ 9 := mkTensor [4] [FLit 0; FLit 0; FLit 0; FLit 0] ]}
                                         0)).2 !!! 9)
  = [slot [FExp (z 1)]; z 1; slot [FExp (z 3)]; z 3]
  /\ (softmax_layer (RT := symbolic_runtime) example_prior 2
                    (mkSub Linear (Some 4) (Some 5)) example_state).1
     = inl ValueError.
Proof. split; by vm_compute. Qed.

(** X17: [num_classes = 0] in the softmax branch: [range(0, n, 0)] raises
    [ValueError] at the first [Conv2d] or [Linear] layer, provided every
    such layer has a bias and the runtime accepts the standard deviation
    [0.01]. *)
Theorem softmax_zero_classes {F G : Type} `{RT : Runtime F G}
    (module : list submodule) (init_prior : F) (s : tstate F G) :
  std_ok (lit (1 # 100)) = true ->
  (exists m, m ∈ module /\ is_conv_linear (kind m) = true) ->
  (forall m, m ∈ module -> is_conv_linear (kind m) = true -> is_Some (bias m)) ->
  (init_bias_focal module "softmax" init_prior 0 s).1 = inl ValueError.
Proof.
  intros Hstd Hex Hall.
  change (init_bias_focal module "softmax" init_prior 0)
    with (for_each (softmax_layer init_prior 0) module).
  revert s. induction module as [|m0 module IH]; intros s.
  { by destruct Hex as (m & ?%elem_of_nil & _). }
  rewrite for_each_cons, softmax_layer_run.
  destruct (is_conv_linear (kind m0)) eqn:Hk.
  - destruct (Hall m0) as [b ->]; [by left|done|]. by rewrite Hstd.
  - apply IH.
    + destruct Hex as (m & [->|Hm]%elem_of_cons & Hkm); [congruence|by exists m].
    + intros m Hm. apply Hall. by right.
Qed.

Lemma softmax_zero_classes_witness :
  std_ok (Runtime := symbolic_runtime) (lit (1 # 100)) = true
  /\ (exists m, m ∈ example_model /\ is_conv_linear (kind m) = true)
  /\ (forall m, m ∈ example_model -> is_conv_linear (kind m) = true -> is_Some (bias m))
  /\ (init_bias_focal (RT := symbolic_runtime) example_model "softmax" example_prior 0
                      example_state).1 = inl ValueError.
Proof.
  assert (Hex : exists m, m ∈ example_model /\ is_conv_linear (kind m) = true).
  { exists (mkSub Conv2d (Some 0) (Some 1)). split; [by left|done]. }
  assert (Hall : forall m, m ∈ example_model -> is_conv_linear (kind m) = true ->
                           is_Some (bias m)).
  { intros m Hm _. unfold example_model in Hm.
    repeat (apply elem_of_cons in Hm as [->|Hm]); [..|by apply elem_of_nil in Hm];
      by eexists. }
  split; [reflexivity|]. split; [exact Hex|]. split; [exact Hall|].
  exact (softmax_zero_classes (RT := symbolic_runtime) example_model example_prior
           example_state eq_refl Hex Hall).
Defined.

End InitializerFrames.

(** * More on the [to_adela] sub-command: what reaches [main] *)

Module ToAdelaRuns.
Import ToAdelaCmd ToAdelaFacts.

(** A destination given on the command line keeps its value; any other one
    gets the default of the first declaration that names it. *)
Lemma with_defaults_lookup decls ns k :
  with_defaults decls ns !! k
  = match ns !! k with
    | Some v => Some v
    | None => default_value <$> find (fun d => String.eqb (dest d) k) decls
    end.
Proof.
  unfold with_defaults. induction decls as [|d decls IH]; cbn [foldr find].
  { by destruct (ns !! k). }
  destruct (String.eqb_spec (dest d) k) as [<-|Hne].
  - destruct (ns !! dest d) eqn:Hk; cbv iota.
    + by rewrite IH.
    + by rewrite lookup_insert_eq.
  - destruct (ns !! dest d); [done|]. by rewrite lookup_insert_ne.
Qed.

(** An accepted command line: every word is covered, the scan leaves no
    stray word, and [config] has been given. *)
Lemma parsed_scan argv args :
  parse_args add_subparser argv = Done args ->
  exists ns, scan add_subparser argv ∅ [] = Done (ns, [])
             /\ is_Some (ns !! "config")
             /\ args = with_defaults add_subparser ns.
Proof.
  unfold parse_args.
  destruct (find _ argv); [done|].
  destruct (scan add_subparser argv ∅ []) as [[ns extras]|e|t]; [|done..].
  unfold add_subparser at 1. cbn [List.filter required dest andb].
  destruct (ns !! "config") as [v|] eqn:Hc; cbn; [|done].
  destruct extras; [|done]. intros [= <-]. exists ns. by rewrite Hc.
Qed.

Lemma parsed_covered argv args :
  parse_args add_subparser argv = Done args -> covered add_subparser argv.
Proof.
  unfold parse_args.
  destruct (find _ argv) eqn:Hfind; [done|]. intros _.
  apply Forall_forall. intros tok Htok Hother.
  apply list_elem_of_In in Htok.
  pose proof (find_none _ _ Hfind tok Htok) as Hno. cbn beta in Hno.
  by rewrite Hother in Hno.
Qed.

Lemma parsed_config argv args :
  parse_args add_subparser argv = Done args ->
  exists p, args !! "config" = Some (AStr p).
Proof.
  intros (ns & Hscan & [v Hv] & ->)%parsed_scan.
  destruct (scan_config_is_string argv ∅ [] ns []) with (v := v) as [p ->]; [|done|done|].
  { intros v'. by rewrite lookup_empty. }
  exists p. by rewrite with_defaults_lookup, Hv.
Qed.

Lemma declared_once d d' :
  d ∈ add_subparser -> d' ∈ add_subparser -> dest d' = dest d -> d' = d.
Proof.
  unfold add_subparser. intros Hd Hd'.
  repeat (apply elem_of_cons in Hd as [->|Hd]); [..|by apply elem_of_nil in Hd];
    repeat (apply elem_of_cons in Hd' as [->|Hd']);
    first [by apply elem_of_nil in Hd' | done | by intros [=]].
Qed.

Lemma declared_default d :
  d ∈ add_subparser ->
  find (fun d' => String.eqb (dest d') (dest d)) add_subparser = Some d.
Proof.
  unfold add_subparser. intros Hd.
  by repeat (apply elem_of_cons in Hd as [->|Hd]); [..|by apply elem_of_nil in Hd].
Qed.

(** After an accepted parse every declared destination is an attribute of
    [args]. *)
Lemma parsed_attributes argv args d :
  parse_args add_subparser argv = Done args ->
  d ∈ add_subparser -> is_Some (args !! dest d).
Proof.
  intros (ns & _ & _ & ->)%parsed_scan Hd. rewrite with_defaults_lookup.
  destruct (ns !! dest d); [done|]. by rewrite declared_default.
Qed.

(** X18: once the parser has accepted the command line, [args.config] is
    a string and [_main] runs as follows.  [logger.init_log()] is called.
    If the path does not exist, the assertion fails with the path as its
    message and no further call is made.  If it exists, the calls
    [load_yaml(args.config, args.cfg_type)], [cfg['args'] = {'opts':
    args.opts}], [send_info(cfg, func='to_adela')] and [to_adela(cfg,
    args.release_json, args.save_to, args.serialize)] are made in this
    order, each with these attributes of [args], up to the first that
    raises.  So the calls made are a prefix of this plan, the whole plan
    when the run returns, and nothing is loaded unless the path exists. *)
Theorem run_checks_path {E : Type} (path_exists : argval -> option bool)
    (raises : list event -> option E) (argv : list string)
    (args : gmap string argval) :
  parse_args add_subparser argv = Done args ->
  exists p,
    args !! "config" = Some (AStr p)
    /\ run path_exists raises argv
       = Done (match raises [InitLog] with
               | Some e => (inl (Raised e), [InitLog])
               | None =>
                   match path_exists (AStr p) with
                   | None => (inl PathTypeError, [InitLog])
                   | Some false => (inl (AssertionError (AStr p)), [InitLog])
                   | Some true => run_calls raises (plan args) [InitLog]
                   end
               end)
    /\ forall r evs,
         run path_exists raises argv = Done (r, evs) ->
         exists k,
           evs = InitLog :: take k (plan args)
           /\ (r = inr () -> k = 4 /\ path_exists (AStr p) = Some true)
           /\ (0 < k -> path_exists (AStr p) = Some true).
Proof.
  intros Hparse. destruct (parsed_config argv args Hparse) as [p Hp].
  exists p. split; [done|].
  assert (Hrun : run path_exists raises argv
       = Done (match raises [InitLog] with
               | Some e => (inl (Raised e), [InitLog])
               | None =>
                   match path_exists (AStr p) with
                   | None => (inl PathTypeError, [InitLog])
                   | Some false => (inl (AssertionError (AStr p)), [InitLog])
                   | Some true => run_calls raises (plan args) [InitLog]
                   end
               end)).
  { unfold run. rewrite Hparse. f_equal.
    unfold _main, mbind, R_bind, call. cbn [app].
    destruct (raises [InitLog]); [done|].
    destruct (path_exists (AStr p)) as [[|]|] eqn:Hex.
    - apply main_runs_plan; [|by rewrite (lookup_total_correct _ _ _ Hp)].
      intros name Hname.
      repeat (apply elem_of_cons in Hname as [->|Hname]);
        [..|by apply elem_of_nil in Hname];
        match goal with
        | |- is_Some (args !! ?k) =>
            let d := eval cbv in (find (fun d => String.eqb (dest d) k) add_subparser) in
            match d with
            | Some ?d => apply (parsed_attributes argv args d Hparse); repeat constructor
            end
        end.
    - by apply main_asserts_path.
    - unfold main, attr, mbind, R_bind, mret, R_ret, fail. by rewrite Hp, Hex. }
  split; [done|].
  intros r evs Hdone. rewrite Hrun in Hdone. injection Hdone as Hdone.
  destruct (raises [InitLog]) as [e|].
  { injection Hdone as <- <-. exists 0. split; [done|]. split; [done|lia]. }
  destruct (path_exists (AStr p)) as [[|]|].
  - destruct (run_calls_trace raises (plan args) _ _ _ Hdone) as (k & Hk & -> & Hok & _).
    exists k. split; [done|]. split; [|done]. intros Hr. split; [by apply Hok|done].
  - injection Hdone as <- <-. exists 0. split; [done|]. split; [done|lia].
  - injection Hdone as <- <-. exists 0. split; [done|]. split; [done|lia].
Qed.

Lemma run_checks_path_witness :
  let argv := ["--config"; "a.yaml"; "--serialize"; "--opts"; "k"; "v"] in
  let args : gmap string argval :=
    with_defaults add_subparser
      (<["opts" := AList ["k"; "v"]]>
         (<["serialize" := ABool true]> (<["config" := AStr "a.yaml"]> ∅))) in
  let path_exists := fun v => match v with
                              | AStr s => Some (String.eqb s "a.yaml")
                              | _ => None
                              end in
  let raises := fun h : list event =>
                  match last h with
                  | Some (ToAdela _ _ _) => Some "to_adela failed"
                  | _ => None
                  end in
  parse_args add_subparser argv = Done args
  /\ exists p,
       args !! "config" = Some (AStr p)
       /\ run path_exists raises argv
          = Done (match raises [InitLog] with
                  | Some e => (inl (Raised e), [InitLog])
                  | None =>
                      match path_exists (AStr p) with
                      | None => (inl PathTypeError, [InitLog])
                      | Some false => (inl (AssertionError (AStr p)), [InitLog])
                      | Some true => run_calls raises (plan args) [InitLog]
                      end
                  end)
       /\ forall r evs,
            run path_exists raises argv = Done (r, evs) ->
            exists k,
              evs = InitLog :: take k (plan args)
              /\ (r = inr () -> k = 4 /\ path_exists (AStr p) = Some true)
              /\ (0 < k -> path_exists (AStr p) = Some true).
Proof.
  intros argv args path_exists raises.
  assert (Hparse : parse_args add_subparser argv = Done args).
  { vm_compute. reflexivity. }
  split; [exact Hparse|].
  exact (run_checks_path path_exists raises argv args Hparse).
Defined.

(** The run of the witness: [--serialize] and the words after [--opts]
    reach the calls, the other arguments are the defaults, and the failure
    of the last call is the failure of the run. *)
Example to_adela_run :
  run (fun v => match v with
                | AStr s => Some (String.eqb s "a.yaml")
                | _ => None
                end)
      (fun h : list event =>
         match last h with
         | Some (ToAdela _ _ _) => Some "to_adela failed"
         | _ => None
         end)
      ["--config"; "a.yaml"; "--serialize"; "--opts"; "k"; "v"]
  = Done (inl (Raised "to_adela failed"),
          [ InitLog;
            LoadYaml (AStr "a.yaml") (AStr "up");
            SetArgs (AList ["k"; "v"]);
            SendInfo "to_adela";
            ToAdela (AStr "release.json") ANone (ABool true) ]).
Proof. by vm_compute. Qed.

(** X19: on an accepted command line, where every word is a declared flag
    spelled in full or a plain word (no prefix of a flag, no
    [--flag=value]), an option of [add_subparser] that does not occur
    reaches [main] with its declared default: ["release.json"] for
    [--release_json], [None] for [--save_to] and [--opts], [False] for
    [--serialize], ["up"] for [--cfg_type]. *)
Theorem absent_option_has_default (argv : list string) (args : gmap string argval)
    (d : argument) :
  parse_args add_subparser argv = Done args ->
  d ∈ add_subparser ->
  flag d ∉ argv ->
  covered add_subparser argv
  /\ args !! dest d = Some (default_value d).
Proof.
  intros Hparse Hd Habsent. split; [by eapply parsed_covered|].
  apply parsed_scan in Hparse as (ns & Hscan & _ & ->).
  rewrite with_defaults_lookup.
  rewrite (scan_untouched add_subparser (dest d) argv) with (ns := ∅) (extras := [])
    (ns' := ns) (extras' := []);
    [|intros tok d' Htok [Hd' Hflag]%find_flag_spec Hdest|done].
  - by rewrite lookup_empty, declared_default.
  - apply Habsent. rewrite <- (declared_once d d' Hd Hd' Hdest). by rewrite Hflag.
Qed.

Lemma absent_option_has_default_witness :
  let argv := ["--config"; "a.yaml"; "--serialize"] in
  let args : gmap string argval :=
    with_defaults add_subparser
      (<["serialize" := ABool true]> (<["config" := AStr "a.yaml"]> ∅)) in
  let d := mkArg "--cfg_type" "cfg_type" false (AStr "up") Store OneValue in
  parse_args add_subparser argv = Done args
  /\ d ∈ add_subparser
  /\ (flag d ∉ argv)
  /\ covered add_subparser argv
  /\ args !! "cfg_type" = Some (AStr "up").
Proof.
  intros argv args d.
  assert (Hparse : parse_args add_subparser argv = Done args).
  { vm_compute. reflexivity. }
  assert (Hd : d ∈ add_subparser).
  { unfold add_subparser, d. repeat constructor. }
  assert (Habsent : flag d ∉ argv).
  { unfold argv. intros H. repeat (apply elem_of_cons in H as [H|H]; [discriminate|]).
    by apply elem_of_nil in H. }
  split; [exact Hparse|]. split; [exact Hd|]. split; [exact Habsent|].
  exact (absent_option_has_default argv args d Hparse Hd Habsent).
Defined.

End ToAdelaRuns.
